(** * SIFT keypoint detection and description (skimage/feature/sift.py)

    A shallow embedding of the [SIFT] class: its constructor, the private
    stages [_number_of_octaves], [_create_scalespace], [_find_localize_evaluate],
    [_compute_orientation], [_compute_descriptor] and the three public
    operations [detect], [extract] and [detect_and_extract].

    The Python object is a record that is threaded through a state and
    exception monad.  NumPy's float64 arithmetic is an interface
    ([Float64]) with two implementations: [Binary64] is IEEE 754 binary64 as
    the interpreter computes it (Rocq's primitive floats), [Ideal] is exact
    arithmetic on the real numbers extended with infinities and NaN, where
    rounding is not modelled but division by zero, NaN comparisons and
    the like behave as NumPy's do. *)

From Stdlib Require Import ZArith List Bool Lia Reals Lra Psatz Sorted.
From Stdlib Require Import Floats.
Import ListNotations.

Set Implicit Arguments.

(** ** Exceptions *)

Inductive exn : Type :=
| ValueError
| ZeroDivisionError
| OverflowError
| IndexError
| TypeError
| LinAlgError.

Inductive result (A : Type) : Type :=
| Ok (a : A)
| Raise (e : exn).

Arguments Ok {A} a.
Arguments Raise {A} e.

Definition rbind {A B : Type} (r : result A) (k : A -> result B) : result B :=
  match r with
  | Ok a => k a
  | Raise e => Raise e
  end.

Fixpoint rmap {A B : Type} (f : A -> result B) (l : list A) : result (list B) :=
  match l with
  | [] => Ok []
  | a :: l' =>
      rbind (f a) (fun b => rbind (rmap f l') (fun bs => Ok (b :: bs)))
  end.

(** ** The float64 interface *)

Class Float64 (F : Type) : Type := {
  of_int : Z -> F;                 (* int -> float64 *)
  fadd : F -> F -> F;
  fsub : F -> F -> F;
  fmul : F -> F -> F;
  fdiv : F -> F -> F;
  fopp : F -> F;
  fabs : F -> F;                   (* np.abs *)
  fsqrt : F -> F;                  (* np.sqrt *)
  ffloor : F -> F;                 (* np.floor *)
  fltb : F -> F -> bool;           (* < *)
  fleb : F -> F -> bool;           (* <= *)
  feqb : F -> F -> bool;           (* == *)
  trunc : F -> option Z;           (* integer part toward zero; None for nan, inf *)
  fpi : F                          (* np.pi *)
}.

(** The transcendental functions the modelled code calls. *)
Class Libm (F : Type) : Type := {
  fpow : F -> F -> F;              (* float ** float, np.power *)
  flog : F -> F                    (* np.log *)
}.

(** The two LAPACK drivers of [_find_localize_evaluate]: [np.linalg.solve] on
    one 3x3 system (it raises LinAlgError on a singular matrix) and the
    eigenvalues [np.linalg.eig] returns for one 2x2 matrix, given by its
    rows. *)
Class Lapack (F : Type) : Type := {
  solve3 : (F * F * F) * (F * F * F) * (F * F * F) -> F * F * F -> result (F * F * F);
  eigvals2 : (F * F) * (F * F) -> F * F
}.

Declare Scope np_scope.
Delimit Scope np_scope with np.
Infix "+" := fadd : np_scope.
Infix "-" := fsub : np_scope.
Infix "*" := fmul : np_scope.
Infix "/" := fdiv : np_scope.
Notation "- x" := (fopp x) : np_scope.
Infix "<?" := fltb : np_scope.
Infix "<=?" := fleb : np_scope.
Infix "=?" := feqb : np_scope.

Section Numpy.
Context {F : Type} `{Float64 F}.
Local Open Scope np_scope.

(** The float64 nearest to the fraction [n/d]: the value of a decimal
    literal such as [0.5] (1/2), [0.2] (2/10) or [0.8] (8/10). *)
Definition lit (n d : Z) : F := of_int n / of_int d.

Definition fgtb (x y : F) : bool := y <? x.
Definition fgeb (x y : F) : bool := y <=? x.
Definition isnan (x : F) : bool := negb (x =? x).

(** [np.minimum] and [np.maximum]: NaN propagates. *)
Definition minimum (x y : F) : F := if (x <=? y) || isnan x then x else y.
Definition maximum (x y : F) : F := if (y <=? x) || isnan x then x else y.

Definition square (x : F) : F := x * x.

(** [np.sum], [np.max] over a 1-d array. *)
Definition fsum (l : list F) : F := fold_left fadd l (of_int 0).

Definition fmax_list (l : list F) : F :=
  match l with
  | [] => of_int 0
  | x :: l' => fold_left maximum l' x
  end.

(** [np.linalg.norm] of a 1-d array: the square root of the sum of squares. *)
Definition norm (l : list F) : F := fsqrt (fsum (map square l)).

(** [x.astype(np.int)]: truncation toward zero; a value with no integer
    part (nan, inf) or outside int64 comes out as the smallest int64, as on
    x86-64. *)
Definition astype_int (x : F) : Z :=
  match trunc x with
  | Some z =>
      if ((- 2 ^ 63 <=? z) && (z <? 2 ^ 63))%Z then z else (- 2 ^ 63)%Z
  | None => (- 2 ^ 63)%Z
  end.

(** [x.astype(np.uint8)]: the integer part modulo 256; nan and inf come out
    as 0, as on x86-64. *)
Definition astype_uint8 (x : F) : Z :=
  match trunc x with
  | Some z => (z mod 256)%Z
  | None => 0%Z
  end.

(** Python's [int(x)] on a float: ValueError on nan, OverflowError on inf;
    the model raises ValueError for both. *)
Definition py_int (x : F) : result Z :=
  match trunc x with
  | Some z => Ok z
  | None => Raise ValueError
  end.

(** [np.round] (half to even) followed by [astype(np.int)]. *)
Definition round_int (x : F) : Z :=
  match trunc (ffloor x) with
  | Some z =>
      let d := x - ffloor x in
      if d <? lit 1 2 then z
      else if lit 1 2 <? d then (z + 1)%Z
      else if Z.even z then z else (z + 1)%Z
  | None => (- 2 ^ 63)%Z
  end.

End Numpy.

(** ** IEEE 754 binary64 *)

Module Binary64.

Definition of_Z (z : Z) : float :=
  SF2Prim (binary_normalize prec emax z 0 false).

Definition to_Z (x : float) : option Z :=
  match Prim2SF x with
  | S754_zero _ => Some 0%Z
  | S754_finite s m e =>
      let a := if (0 <=? e)%Z then (Z.pos m * 2 ^ e)%Z
               else Z.shiftr (Z.pos m) (- e) in
      Some (if s then (- a)%Z else a)
  | _ => None
  end.

Definition floor (x : float) : float :=
  match to_Z x with
  | Some z =>
      if PrimFloat.ltb (PrimFloat.abs x) 0x1p+52%float then
        let fz := of_Z z in
        if PrimFloat.eqb fz x then x
        else if PrimFloat.ltb x fz then PrimFloat.sub fz 1%float else fz
      else x
  | None => x
  end.

#[global] Instance binary64 : Float64 float := {|
  of_int := of_Z;
  fadd := PrimFloat.add;
  fsub := PrimFloat.sub;
  fmul := PrimFloat.mul;
  fdiv := PrimFloat.div;
  fopp := PrimFloat.opp;
  fabs := PrimFloat.abs;
  fsqrt := PrimFloat.sqrt;
  ffloor := floor;
  fltb := PrimFloat.ltb;
  fleb := PrimFloat.leb;
  feqb := PrimFloat.eqb;
  trunc := to_Z;
  fpi := 0x1.921fb54442d18p+1%float
|}.

End Binary64.

(** ** Exact arithmetic on the extended reals *)

Module Ideal.

Local Open Scope R_scope.

Inductive xreal : Type :=
| Fin (r : R)
| Inf (neg : bool)
| NaN.

Definition Rltb (a b : R) : bool := if Rlt_dec a b then true else false.
Definition Rleb (a b : R) : bool := if Rle_dec a b then true else false.
Definition Reqb (a b : R) : bool := if Req_dec_T a b then true else false.

Definition xopp (x : xreal) : xreal :=
  match x with
  | Fin a => Fin (- a)
  | Inf s => Inf (negb s)
  | NaN => NaN
  end.

Definition xadd (x y : xreal) : xreal :=
  match x, y with
  | Fin a, Fin b => Fin (a + b)
  | Fin _, Inf s => Inf s
  | Inf s, Fin _ => Inf s
  | Inf s, Inf t => if Bool.eqb s t then Inf s else NaN
  | _, _ => NaN
  end.

Definition xsub (x y : xreal) : xreal := xadd x (xopp y).

Definition xmul (x y : xreal) : xreal :=
  match x, y with
  | Fin a, Fin b => Fin (a * b)
  | Fin a, Inf s => if Reqb a 0 then NaN else Inf (xorb s (Rltb a 0))
  | Inf s, Fin a => if Reqb a 0 then NaN else Inf (xorb s (Rltb a 0))
  | Inf s, Inf t => Inf (xorb s t)
  | _, _ => NaN
  end.

(** Zero has no sign in this model: a nonzero number divided by zero is
    the infinity of the numerator's sign. *)
Definition xdiv (x y : xreal) : xreal :=
  match x, y with
  | Fin a, Fin b =>
      if Reqb b 0 then (if Reqb a 0 then NaN else Inf (Rltb a 0))
      else Fin (a / b)
  | Fin _, Inf _ => Fin 0
  | Inf s, Fin b => Inf (xorb s (Rltb b 0))
  | _, _ => NaN
  end.

Definition xabs (x : xreal) : xreal :=
  match x with
  | Fin a => Fin (Rabs a)
  | Inf _ => Inf false
  | NaN => NaN
  end.

Definition xsqrt (x : xreal) : xreal :=
  match x with
  | Fin a => if Rltb a 0 then NaN else Fin (R_sqrt.sqrt a)
  | Inf false => Inf false
  | _ => NaN
  end.

Definition xfloor (x : xreal) : xreal :=
  match x with
  | Fin a => Fin (IZR (Int_part a))
  | _ => x
  end.

Definition xltb (x y : xreal) : bool :=
  match x, y with
  | Fin a, Fin b => Rltb a b
  | Fin _, Inf s => negb s
  | Inf s, Fin _ => s
  | Inf s, Inf t => s && negb t
  | _, _ => false
  end.

Definition xleb (x y : xreal) : bool :=
  match x, y with
  | Fin a, Fin b => Rleb a b
  | Fin _, Inf s => negb s
  | Inf s, Fin _ => s
  | Inf s, Inf t => s || negb t
  | _, _ => false
  end.

Definition xeqb (x y : xreal) : bool :=
  match x, y with
  | Fin a, Fin b => Reqb a b
  | Inf s, Inf t => Bool.eqb s t
  | _, _ => false
  end.

Definition xtrunc (x : xreal) : option Z :=
  match x with
  | Fin a => Some (if Rltb a 0 then (- Int_part (- a))%Z else Int_part a)
  | _ => None
  end.

#[global] Instance ideal : Float64 xreal := {|
  of_int := fun z => Fin (IZR z);
  fadd := xadd;
  fsub := xsub;
  fmul := xmul;
  fdiv := xdiv;
  fopp := xopp;
  fabs := xabs;
  fsqrt := xsqrt;
  ffloor := xfloor;
  fltb := xltb;
  fleb := xleb;
  feqb := xeqb;
  trunc := xtrunc;
  fpi := Fin PI
|}.

(** [x ** y] for a positive finite base, the only bases the class raises to
    a power (2 and the ratio of two sigmas); anything else is NaN here. *)
Definition xpow (x y : xreal) : xreal :=
  match x, y with
  | Fin a, Fin b => if Rltb 0 a then Fin (Rpower a b) else NaN
  | _, _ => NaN
  end.

Definition xlog (x : xreal) : xreal :=
  match x with
  | Fin a =>
      if Rltb 0 a then Fin (ln a)
      else if Reqb a 0 then Inf true else NaN
  | Inf false => Inf false
  | _ => NaN
  end.

#[global] Instance ideal_libm : Libm xreal := {|
  fpow := xpow;
  flog := xlog
|}.

Definition finite3 (v : xreal * xreal * xreal) : option (R * R * R) :=
  match v with
  | (Fin a, Fin b, Fin c) => Some (a, b, c)
  | _ => None
  end.

Definition det3 (m : (R * R * R) * (R * R * R) * (R * R * R)) : R :=
  let '((a, b, c), (d, e, f), (g, h, i)) := m in
  a * (e * i - f * h) - b * (d * i - f * g) + c * (d * h - e * g).

(** The exact solution of a 3x3 system (Cramer's rule); LinAlgError when
    the matrix is singular, and NaN entries when an input is not finite. *)
Definition xsolve3
    (m : (xreal * xreal * xreal) * (xreal * xreal * xreal) * (xreal * xreal * xreal))
    (v : xreal * xreal * xreal) : result (xreal * xreal * xreal) :=
  let '(r0, r1, r2) := m in
  match finite3 r0, finite3 r1, finite3 r2 with
  | Some (a, b, c), Some (d, e, f), Some (g, h, i) =>
      let D := det3 ((a, b, c), (d, e, f), (g, h, i)) in
      if Reqb D 0 then Raise LinAlgError
      else
        match finite3 v with
        | Some (x, y, z) =>
            Ok (Fin (det3 ((x, b, c), (y, e, f), (z, h, i)) / D),
                Fin (det3 ((a, x, c), (d, y, f), (g, z, i)) / D),
                Fin (det3 ((a, b, x), (d, e, y), (g, h, z)) / D))
        | None => Ok (NaN, NaN, NaN)
        end
  | _, _, _ => Ok (NaN, NaN, NaN)
  end.

(** The eigenvalues of a 2x2 matrix with real spectrum, smaller first; NaN
    when an entry is not finite or the spectrum is not real. *)
Definition xeigvals2 (m : (xreal * xreal) * (xreal * xreal)) : xreal * xreal :=
  match m with
  | ((Fin a, Fin b), (Fin c, Fin d)) =>
      let disc := (a - d) * (a - d) + 4 * b * c in
      if Rltb disc 0 then (NaN, NaN)
      else (Fin ((a + d - R_sqrt.sqrt disc) / 2), Fin ((a + d + R_sqrt.sqrt disc) / 2))
  | _ => (NaN, NaN)
  end.

#[global] Instance ideal_lapack : Lapack xreal := {|
  solve3 := xsolve3;
  eigvals2 := xeigvals2
|}.

End Ideal.

(** ** Arrays *)

(** Python's [l[i]]: a negative index counts from the end, an index out of
    range raises IndexError. *)
Definition py_index {X : Type} (l : list X) (i : Z) : result X :=
  let n := Z.of_nat (length l) in
  let j := if (i <? 0)%Z then (i + n)%Z else i in
  if ((0 <=? j) && (j <? n))%Z then
    match nth_error l (Z.to_nat j) with
    | Some x => Ok x
    | None => Raise IndexError
    end
  else Raise IndexError.

(** [range(n)] *)
Definition zrange (n : Z) : list Z := map Z.of_nat (seq 0 (Z.to_nat n)).

(** [a[mask]] for a boolean mask of the length of [a]. *)
Fixpoint mask_select {X : Type} (mask : list bool) (l : list X) : list X :=
  match mask, l with
  | b :: mask', x :: l' =>
      if b then x :: mask_select mask' l' else mask_select mask' l'
  | _, _ => []
  end.

(** [a[i] = v] on a list, for an index in range. *)
Fixpoint list_set {X : Type} (l : list X) (i : nat) (v : X) : list X :=
  match l, i with
  | [], _ => []
  | _ :: l', O => v :: l'
  | x :: l', S i' => x :: list_set l' i' v
  end.

Declare Scope sift_scope.
Delimit Scope sift_scope with sift.

Section Sift.
Context {F : Type} {FA : Float64 F} {FL : Libm F} {FP : Lapack F}.
Local Open Scope np_scope.

(** A 2-d float array and a 3-d float array (rows, columns, layers): the
    shape and the entry at each index. *)
Record image : Type := mkImage {
  ishape : Z * Z;
  pix : Z -> Z -> F
}.

Record volume : Type := mkVolume {
  vshape : Z * Z * Z;
  vox : Z -> Z -> Z -> F
}.

Definition idx3 : Type := (Z * Z * Z)%type.
Definition vec3 : Type := (F * F * F)%type.
Definition mat3 : Type := (vec3 * vec3 * vec3)%type.

(** [image[::2, ::2]] *)
Definition subsample (im : image) : image :=
  let '(r, c) := ishape im in
  mkImage (((r + 1) / 2)%Z, ((c + 1) / 2)%Z)
          (fun i j => pix im (2 * i)%Z (2 * j)%Z).

(** The array whose layer [s] along axis 2 is the [s]-th image of [layers]. *)
Definition stack (shape2 : Z * Z) (layers : list image) : volume :=
  mkVolume (fst shape2, snd shape2, Z.of_nat (length layers))
           (fun r c s =>
              match nth_error layers (Z.to_nat s) with
              | Some im => pix im r c
              | None => of_int 0
              end).

(** [np.diff(v, axis=2)] *)
Definition np_diff (v : volume) : volume :=
  let '(r, c, d) := vshape v in
  mkVolume (r, c, Z.max 0 (d - 1))
           (fun i j s => vox v i j (s + 1)%Z - vox v i j s).

(** [-v] *)
Definition vneg (v : volume) : volume :=
  mkVolume (vshape v) (fun i j s => - vox v i j s).

(** [np.gradient] along one axis of length [n], unit spacing: central
    differences inside, one-sided differences at the two ends. *)
Definition np_gradient1 (n i : Z) (f : Z -> F) : F :=
  if (i =? 0)%Z then f 1%Z - f 0%Z
  else if (i =? n - 1)%Z then f (n - 1)%Z - f (n - 2)%Z
  else (f (i + 1)%Z - f (i - 1)%Z) / of_int 2.

(** [np.gradient(v)]: one array per axis; ValueError when an axis has fewer
    than two entries. *)
Definition np_gradient (v : volume) : result (volume * volume * volume) :=
  let '(r, c, d) := vshape v in
  if ((r <? 2) || (c <? 2) || (d <? 2))%Z then Raise ValueError
  else Ok (mkVolume (r, c, d) (fun i j s => np_gradient1 r i (fun x => vox v x j s)),
           mkVolume (r, c, d) (fun i j s => np_gradient1 c j (fun x => vox v i x s)),
           mkVolume (r, c, d) (fun i j s => np_gradient1 d s (fun x => vox v i j x))).

(** ** The class *)

(** The arguments of the constructor. *)
Record Args : Type := mkArgs {
  arg_upsampling : Z;
  arg_n_octaves : Z;
  arg_n_scales : Z;
  arg_sigma_min : F;
  arg_sigma_in : F;
  arg_c_dog : F;
  arg_c_edge : F;
  arg_n_bins : Z;
  arg_lambda_ori : F;
  arg_c_max : F;
  arg_lambda_descr : F;
  arg_n_hist : Z;
  arg_n_ori : Z
}.

Definition default_args : Args :=
  {| arg_upsampling := 2;
     arg_n_octaves := 8;
     arg_n_scales := 3;
     arg_sigma_min := lit 16 10;
     arg_sigma_in := lit 1 2;
     arg_c_dog := lit 4 100 / of_int 3;
     arg_c_edge := of_int 10;
     arg_n_bins := 36;
     arg_lambda_ori := lit 3 2;
     arg_c_max := lit 8 10;
     arg_lambda_descr := of_int 6;
     arg_n_hist := 4;
     arg_n_ori := 8 |}.

(** The configuration attributes of an instance, as [__init__] stores them. *)
Record Params : Type := mkParams {
  upsampling : Z;
  n_octaves : Z;
  n_scales : Z;
  sigma_min : F;
  sigma_in : F;
  c_dog : F;
  c_edge : F;
  n_bins : Z;
  lambda_ori : F;
  c_max : F;
  lambda_descr : F;
  n_hist : Z;
  n_ori : Z;
  delta_min : F;
  deltas : list F
}.

(** An instance: the configuration and the attributes the operations fill
    in; [None] is Python's [None]. A row of [descriptors] is [None] while it
    holds what [np.empty] left there. *)
Record SIFT : Type := mkSIFT {
  params : Params;
  scalespace_sigmas : option (list (list F));
  keypoints : option (list (Z * Z));
  positions : option (list (F * F));
  sigmas : option (list F);
  scales : option (list Z);
  orientations : option (list F);
  octaves : option (list Z);
  descriptors : option (list (option (list Z)))
}.

Definition __init__ (a : Args) : result SIFT :=
  let u := arg_upsampling a in
  if ((u =? 1) || (u =? 2) || (u =? 4))%Z then
    if (arg_n_scales a =? 0)%Z then Raise ZeroDivisionError
    else
      let delta_min := of_int 1 / of_int u in
      Ok {| params :=
              {| upsampling := u;
                 n_octaves := arg_n_octaves a;
                 n_scales := arg_n_scales a;
                 sigma_min := arg_sigma_min a / of_int u;
                 sigma_in := arg_sigma_in a;
                 c_dog := (fpow (of_int 2) (of_int 1 / of_int (arg_n_scales a)) - of_int 1)
                          / (fpow (of_int 2) (of_int 1 / of_int 3) - of_int 1)
                          * arg_c_dog a;
                 c_edge := arg_c_edge a;
                 n_bins := arg_n_bins a;
                 lambda_ori := arg_lambda_ori a;
                 c_max := arg_c_max a;
                 lambda_descr := arg_lambda_descr a;
                 n_hist := arg_n_hist a;
                 n_ori := arg_n_ori a;
                 delta_min := delta_min;
                 deltas := map (fun i => delta_min * of_int (2 ^ i))
                               (zrange (arg_n_octaves a - 1)) |};
            scalespace_sigmas := None;
            keypoints := None;
            positions := None;
            sigmas := None;
            scales := None;
            orientations := None;
            octaves := None;
            descriptors := None |}
  else Raise ValueError.

(** *** Attribute assignment *)

Definition set_n_octaves (n : Z) (p : Params) : Params :=
  {| upsampling := upsampling p;
     n_octaves := n;
     n_scales := n_scales p;
     sigma_min := sigma_min p;
     sigma_in := sigma_in p;
     c_dog := c_dog p;
     c_edge := c_edge p;
     n_bins := n_bins p;
     lambda_ori := lambda_ori p;
     c_max := c_max p;
     lambda_descr := lambda_descr p;
     n_hist := n_hist p;
     n_ori := n_ori p;
     delta_min := delta_min p;
     deltas := deltas p |}.

Definition set_params (p : Params) (s : SIFT) : SIFT :=
  mkSIFT p (scalespace_sigmas s) (keypoints s) (positions s) (sigmas s)
         (scales s) (orientations s) (octaves s) (descriptors s).

Definition set_scalespace_sigmas (v : list (list F)) (s : SIFT) : SIFT :=
  mkSIFT (params s) (Some v) (keypoints s) (positions s) (sigmas s)
         (scales s) (orientations s) (octaves s) (descriptors s).

Definition set_keypoints (v : list (Z * Z)) (s : SIFT) : SIFT :=
  mkSIFT (params s) (scalespace_sigmas s) (Some v) (positions s) (sigmas s)
         (scales s) (orientations s) (octaves s) (descriptors s).

(** The five assignments that end [_compute_orientation]. *)
Definition set_oriented (pos : list (F * F)) (sc : list Z) (sg : list F)
    (ori : list F) (oc : list Z) (s : SIFT) : SIFT :=
  mkSIFT (params s) (scalespace_sigmas s) (keypoints s) (Some pos) (Some sg)
         (Some sc) (Some ori) (Some oc) (descriptors s).

Definition set_descriptors (v : list (option (list Z))) (s : SIFT) : SIFT :=
  mkSIFT (params s) (scalespace_sigmas s) (keypoints s) (positions s) (sigmas s)
         (scales s) (orientations s) (octaves s) (Some v).

(** *** Methods: a state and exception monad over the instance *)

Definition M (X : Type) : Type := SIFT -> result X * SIFT.

Definition ret {X : Type} (x : X) : M X := fun s => (Ok x, s).

Definition bind {X Y : Type} (m : M X) (k : X -> M Y) : M Y :=
  fun s =>
    match m s with
    | (Ok x, s') => k x s'
    | (Raise e, s') => (Raise e, s')
    end.

Definition get_self : M SIFT := fun s => (Ok s, s).
Definition modify (f : SIFT -> SIFT) : M unit := fun s => (Ok tt, f s).
Definition lift {X : Type} (r : result X) : M X := fun s => (r, s).

(** Subscripting an attribute: TypeError while it is still [None]. *)
Definition attr {X : Type} (o : option X) : result X :=
  match o with
  | Some x => Ok x
  | None => Raise TypeError
  end.

Notation "x <- m ;; k" := (bind m (fun x => k))
  (at level 61, m at next level, right associativity) : sift_scope.
Notation "' pat <- m ;; k" := (bind m (fun x => match x with pat => k end))
  (at level 61, pat pattern, m at next level, right associativity) : sift_scope.
Notation "m ;; k" := (bind m (fun _ => k))
  (at level 61, right associativity) : sift_scope.
Notation "x <~ r ;; k" := (rbind r (fun x => k))
  (at level 61, r at next level, right associativity) : sift_scope.
Notation "' pat <~ r ;; k" := (rbind r (fun x => match x with pat => k end))
  (at level 61, pat pattern, r at next level, right associativity) : sift_scope.
Local Open Scope sift_scope.

(** *** External collaborators

    Functions of scikit-image that the class calls and that are not part of
    it: they are parameters of the model, and every theorem holds for
    whatever they compute. *)

(** [skimage.transform.rescale(image, factor, order=3)] *)
Variable rescale : image -> Z -> image.
(** [skimage.filters.gaussian(image, sigma, mode='reflect')] *)
Variable gaussian : image -> F -> image.
(** [skimage.feature.peak_local_max(octave, threshold_abs=threshold)]: the
    indices (row, column, layer) of the local maxima above the threshold. *)
Variable peak_local_max : volume -> F -> list idx3.

(** *** _number_of_octaves *)

Definition _number_of_octaves (self : SIFT) (n : Z) (image_shape : Z * Z) : result Z :=
  let sMin := 12%Z in
  let s0 := Z.min (fst image_shape) (snd image_shape) in
  py_int (minimum (of_int n)
            (flog (of_int s0 / of_int sMin) / flog (of_int 2)
             + of_int (upsampling (params self)))).

(** *** _create_scalespace *)

(** The inner loop [for s in range(1, n_scales + 3)], run [n] times: the
    new layers, their sigmas and the last sigma. *)
Fixpoint blur_scales (n : nat) (delta k : F) (prev : image) (current_sigma : F)
  : list image * list F :=
  match n with
  | O => ([], [])
  | S n' =>
      let layer :=
        gaussian prev
          (of_int 1 / delta
           * fsqrt (square (current_sigma * k) - square current_sigma)) in
      let current_sigma' := current_sigma * k in
      let '(ls, sg) := blur_scales n' delta k layer current_sigma' in
      (layer :: ls, current_sigma' :: sg)
  end.

(** The loop [for o in range(self.n_octaves)]: the octaves and the rows of
    the table of sigmas. *)
Fixpoint build_octaves (p : Params) (k : F) (os : list Z) (im : image)
    (current_sigma : F) : result (list volume * list (list F)) :=
  match os with
  | [] => Ok ([], [])
  | o :: os' =>
      let delta := delta_min p * of_int (2 ^ o) in
      if (n_scales p + 3 =? 0)%Z then Raise IndexError
      else
        let '(ls, sg) :=
          blur_scales (Z.to_nat (n_scales p + 2)) delta k im current_sigma in
        let layers := im :: ls in
        let row := current_sigma :: sg in
        let octave := stack (ishape im) layers in
        next <~ py_index layers (n_scales p) ;;
        current_sigma' <~ py_index row (n_scales p) ;;
        '(vs, rows) <~ build_octaves p k os' (subsample next) current_sigma' ;;
        Ok (octave :: vs, row :: rows)
  end.

Definition _create_scalespace (im : image) : M (list volume) :=
  self <- get_self ;;
  let p := params self in
  let im1 := if (1 <? upsampling p)%Z then rescale im (upsampling p) else im in
  if ((n_octaves p <? 0) || (n_scales p + 3 <? 0))%Z then lift (Raise ValueError)
  else
    let im2 :=
      gaussian im1
        (of_int 1 / delta_min p
         * fsqrt (square (sigma_min p) - square (sigma_in p))) in
    let k := fpow (of_int 2) (of_int 1 / of_int (n_scales p)) in
    '(scalespace, sigmas) <-
       lift (build_octaves p k (zrange (n_octaves p)) im2 (sigma_min p)) ;;
    modify (set_scalespace_sigmas sigmas) ;;
    ret scalespace.

(** *** _inrange and _hessian *)

Definition vget (v : volume) (k : idx3) : F :=
  let '(r, c, s) := k in vox v r c s.

Definition _inrange (a : idx3) (dim : idx3) : bool :=
  let '(a0, a1, _) := a in
  let '(d0, d1, _) := dim in
  ((0 <? a0) && (a0 <? d0 - 1) && (0 <? a1) && (a1 <? d1 - 1))%Z.

Definition _hessian (d : volume) (p : idx3) : mat3 :=
  let '(r, c, s) := p in
  let D := fun i j k => vox d (r + i)%Z (c + j)%Z (s + k)%Z in
  let two := of_int 2 in
  let h00 := D (-1)%Z 0%Z 0%Z + D 1%Z 0%Z 0%Z - two * D 0%Z 0%Z 0%Z in
  let h11 := D 0%Z (-1)%Z 0%Z + D 0%Z 1%Z 0%Z - two * D 0%Z 0%Z 0%Z in
  let h22 := D 0%Z 0%Z (-1)%Z + D 0%Z 0%Z 1%Z - two * D 0%Z 0%Z 0%Z in
  let h01 := lit 1 4 * (D 1%Z 1%Z 0%Z - D (-1)%Z 1%Z 0%Z - D 1%Z (-1)%Z 0%Z + D (-1)%Z (-1)%Z 0%Z) in
  let h02 := lit 1 4 * (D 1%Z 0%Z 1%Z - D 1%Z 0%Z (-1)%Z + D (-1)%Z 0%Z (-1)%Z - D (-1)%Z 0%Z 1%Z) in
  let h12 := lit 1 4 * (D 0%Z 1%Z 1%Z - D 0%Z 1%Z (-1)%Z + D 0%Z (-1)%Z (-1)%Z - D 0%Z (-1)%Z 1%Z) in
  ((h00, h01, h02), (h01, h11, h12), (h02, h12, h22)).

(** *** _find_localize_evaluate *)

Definition mneg (m : mat3) : mat3 :=
  let '((a, b, c), (d, e, f), (g, h, i)) := m in
  ((- a, - b, - c), (- d, - e, - f), (- g, - h, - i)).

Definition jacobian (grad : volume * volume * volume) (k : idx3) : vec3 :=
  let '(g0, g1, g2) := grad in (vget g0 k, vget g1 k, vget g2 k).

(** [np.linalg.solve(-H, J)] on the stacks [H] and [J]: one system per
    candidate; stacks of different lengths do not broadcast. *)
Definition solve_all (Hs : list mat3) (Js : list vec3) : result (list vec3) :=
  if (length Hs =? length Js)%nat
  then rmap (fun hj => solve3 (mneg (fst hj)) (snd hj)) (combine Hs Js)
  else Raise ValueError.

(** One row of [wrong_position_pos] and of [wrong_position_neg]. *)
Definition wrong_position_pos (dim : idx3) (off : vec3) (k : idx3) : bool * bool * bool :=
  let '(o0, o1, o2) := off in
  let '(k0, k1, k2) := k in
  let '(d0, d1, d2) := dim in
  ((lit 1 2 <? o0) && (k0 + 1 <? d0 - 1)%Z,
   (lit 1 2 <? o1) && (k1 + 1 <? d1 - 1)%Z,
   (lit 1 2 <? o2) && (k2 + 1 <? d2 - 1)%Z).

Definition wrong_position_neg (off : vec3) (k : idx3) : bool * bool * bool :=
  let '(o0, o1, o2) := off in
  let '(k0, k1, k2) := k in
  ((o0 <? - lit 1 2) && (0 <? k0 - 1)%Z,
   (o1 <? - lit 1 2) && (0 <? k1 - 1)%Z,
   (o2 <? - lit 1 2) && (0 <? k2 - 1)%Z).

Definition any3 (b : bool * bool * bool) : bool :=
  let '(b0, b1, b2) := b in b0 || b1 || b2.

(** [keys[np.where(wrong_position_pos)] += 1] and
    [keys[np.where(wrong_position_neg)] -= 1] on one row. *)
Definition shift_key (pos neg : bool * bool * bool) (k : idx3) : idx3 :=
  let '(p0, p1, p2) := pos in
  let '(n0, n1, n2) := neg in
  let '(k0, k1, k2) := k in
  let step := fun (p n : bool) (x : Z) =>
    ((if p then x + 1 else x) - (if n then 1 else 0))%Z in
  (step p0 n0 k0, step p1 n1 k1, step p2 n2 k2).

(** The loop [for i in range(5)]; [more] is the number of iterations left
    after this one, so that [more = 0] is [i == 4]. The result is the state
    at the [break]: keys, J, H and off. *)
Fixpoint localize (more : nat) (octave : volume) (grad : volume * volume * volume)
    (still_in : list bool) (keys : list idx3)
  : result (list idx3 * list vec3 * list mat3 * list vec3) :=
  let dim := vshape octave in
  let still_in' :=
    map (fun bk => fst bk && _inrange (snd bk) dim) (combine still_in keys) in
  let J := map (jacobian grad) (mask_select still_in' keys) in
  let H := map (_hessian octave) keys in
  off <~ solve_all H J ;;
  let pos := map (fun ok => wrong_position_pos dim (fst ok) (snd ok)) (combine off keys) in
  let neg := map (fun ok => wrong_position_neg (fst ok) (snd ok)) (combine off keys) in
  let wrong := existsb any3 pos || existsb any3 neg in
  match more with
  | O => Ok (keys, J, H, off)
  | S more' =>
      if negb wrong then Ok (keys, J, H, off)
      else
        localize more' octave grad still_in'
          (map (fun pnk => shift_key (fst (fst pnk)) (snd (fst pnk)) (snd pnk))
               (combine (combine pos neg) keys))
  end.

(** [np.all(np.abs(off) < 0.5, axis=1)] on one row. *)
Definition finished (off : vec3) : bool :=
  let '(o0, o1, o2) := off in
  (fabs o0 <? lit 1 2) && (fabs o1 <? lit 1 2) && (fabs o2 <? lit 1 2).

Definition contrast_threshold (self : SIFT) : F :=
  c_dog (params self) / of_int (n_scales (params self)).

Definition edge_threshold (self : SIFT) : F :=
  square (c_edge (params self) + of_int 1) / c_edge (params self).

(** The value at the interpolated point. *)
Definition interpolated (val : F) (J off : vec3) : F :=
  let '(j0, j1, j2) := J in
  let '(o0, o1, o2) := off in
  val + lit 1 2 * (j0 * o0 + j1 * o1 + j2 * o2).

Definition contrast_filter (self : SIFT) (w : F) : bool :=
  contrast_threshold self <? fabs w.

(** [H[:2, :2]] *)
Definition sub_hessian (h : mat3) : (F * F) * (F * F) :=
  let '((a, b, _), (c, d, _), _) := h in ((a, b), (c, d)).

Definition edge_filter (self : SIFT) (h : mat3) : bool :=
  let '(eig0, eig1) := eigvals2 (sub_hessian h) in
  let trace := eig1 + eig0 in
  let determinant := eig1 * eig0 in
  let edge_respone := square trace / determinant in
  fabs edge_respone <=? edge_threshold self.

(** A localized extremum: its key, Jacobian, Hessian and offset. *)
Definition extremum : Type := (idx3 * vec3 * mat3 * vec3)%type.

Definition ex_key (e : extremum) : idx3 := fst (fst (fst e)).
Definition ex_J (e : extremum) : vec3 := snd (fst (fst e)).
Definition ex_H (e : extremum) : mat3 := snd (fst e).
Definition ex_off (e : extremum) : vec3 := snd e.

(** The rows of keys, J, H and off side by side. *)
Definition zip4 (keys : list idx3) (J : list vec3) (H : list mat3) (off : list vec3)
  : list extremum :=
  combine (combine (combine keys J) H) off.

(** The position in image coordinates and the sigma of an extremum that
    passed the contrast and edge filters. *)
Definition locate (sigma_row : list F) (sigmaratio delta : F) (e : extremum)
  : result (F * F * Z * F) :=
  let '(k0, k1, k2) := ex_key e in
  let '(o0, o1, o2) := ex_off e in
  s <~ py_index sigma_row k2 ;;
  Ok ((of_int k0 + o0) * delta, (of_int k1 + o1) * delta, k2,
      s * fpow sigmaratio o2).

Definition border_filter (img_shape : Z * Z) (p : F * F * Z * F) : bool :=
  let '(y, x, _, sigma) := p in
  (of_int 0 <? y - sigma) && (y + sigma <? of_int (fst img_shape))
  && (of_int 0 <? x - sigma) && (x + sigma <? of_int (snd img_shape)).

(** The body of the loop over the octaves: the positions, scales and
    sigmas of the extrema of one octave. *)
Definition evaluate_octave (self : SIFT) (img_shape : Z * Z) (o : Z)
    (octave : volume) (delta : F) : result (list (F * F * Z * F)) :=
  let threshold := c_dog (params self) * lit 8 10 in
  let maxima := peak_local_max octave threshold in
  let minima := peak_local_max (vneg octave) threshold in
  let keys := maxima ++ minima in
  grad <~ np_gradient octave ;;
  '(keys, J, H, off) <~
     localize 4 octave grad (map (fun _ => true) keys) keys ;;
  let localized := filter (fun e => finished (ex_off e)) (zip4 keys J H off) in
  table <~ attr (scalespace_sigmas self) ;;
  row0 <~ py_index table 0 ;;
  s01 <~ py_index row0 1 ;;
  s00 <~ py_index row0 0 ;;
  let sigmaratio := s01 / s00 in
  let contrast_ok :=
    filter (fun e => contrast_filter self
                       (interpolated (vget octave (ex_key e)) (ex_J e) (ex_off e)))
           localized in
  let edge_ok := filter (fun e => edge_filter self (ex_H e)) contrast_ok in
  row <~ py_index table o ;;
  located <~ rmap (locate row sigmaratio delta) edge_ok ;;
  Ok (filter (border_filter img_shape) located).

(** [for o, (octave, delta) in enumerate(zip(dogspace, self.deltas))] *)
Fixpoint evaluate_octaves (self : SIFT) (img_shape : Z * Z) (o : Z)
    (dogspace : list volume) (ds : list F) : result (list (list (F * F * Z * F))) :=
  match dogspace, ds with
  | octave :: dogspace', delta :: ds' =>
      found <~ evaluate_octave self img_shape o octave delta ;;
      rest <~ evaluate_octaves self img_shape (o + 1)%Z dogspace' ds' ;;
      Ok (found :: rest)
  | _, _ => Ok []
  end.

(** [np.hstack([np.full(len(p), i) for i, p in enumerate(extrema_pos)])] *)
Fixpoint octave_indices {X : Type} (i : Z) (extrema : list (list X)) : list Z :=
  match extrema with
  | [] => []
  | p :: rest => repeat i (length p) ++ octave_indices (i + 1)%Z rest
  end.

Definition _find_localize_evaluate (self : SIFT) (dogspace : list volume)
    (img_shape : Z * Z) : result (list (F * F) * list Z * list F * list Z) :=
  extrema <~ evaluate_octaves self img_shape 0 dogspace (deltas (params self)) ;;
  match extrema with
  | [] => Raise ValueError          (* np.hstack of an empty list *)
  | _ =>
      let all := concat extrema in
      Ok (map (fun p => (fst (fst (fst p)), snd (fst (fst p)))) all,
          map (fun p => snd (fst p)) all,
          map (fun p => snd p) all,
          octave_indices 0 extrema)
  end.

(** *** _fit and _compute_orientation *)

(** Lines 334 to 350 of [_compute_orientation]: the histogram of the
    gradient orientations in the patch of one keypoint, before smoothing,
    from the instance, the gradient of the octave, the corners [Min[k]]
    and [Max[k]] of the patch, the scale, and the position and sigma in
    octave coordinates. It is a parameter of the model. *)
Variable orientation_histogram :
  SIFT -> volume * volume * volume -> Z * Z -> Z * Z -> Z -> F * F -> F -> list F.

Definition _fit (h : F * F * F) : F :=
  let '(h0, h1, h2) := h in
  (h0 - h2) / (of_int 2 * (h0 + h2 - of_int 2 * h1)).

(** [l[-n:]] *)
Definition lastn {X : Type} (n : nat) (l : list X) : list X :=
  skipn (length l - n) l.

(** [np.convolve(a, np.ones(3) / 3, mode='same')]: entry [i] is the sum of
    the products of [a[i-1]], [a[i]] and [a[i+1]] with the kernel, the terms
    that fall outside the array left out. *)
Fixpoint convolve_same (prev : list F) (a : list F) : list F :=
  match a with
  | [] => []
  | x :: a' =>
      fsum (map (fun t => t * lit 1 3) (prev ++ x :: firstn 1 a'))
      :: convolve_same [x] a'
  end.

(** Lines 353 to 356: the histogram is padded with its last and first three
    bins, convolved six times and cut back. *)
Definition smooth_histogram (hist : list F) : list F :=
  let padded := lastn 3 hist ++ hist ++ firstn 3 hist in
  let smoothed := Nat.iter 6 (convolve_same []) padded in
  firstn (length smoothed - 6) (skipn 3 smoothed).

(** [scipy.ndimage.maximum_filter(hist, [3])], whose default boundary mode
    is 'reflect': the neighbour beyond either end is the end bin itself. *)
Definition maximum_filter (hist : list F) : list F :=
  map (fun i =>
         let at_ := fun j => nth j hist (of_int 0) in
         maximum (maximum (at_ (i - 1)%nat) (at_ i))
                 (at_ (if (S i =? length hist)%nat then i else S i)))
      (seq 0 (length hist)).

(** [np.where(np.logical_and(hist >= c_max * np.max(hist), max_filter == hist))] *)
Definition find_maxima (self : SIFT) (hist : list F) : list nat :=
  let max_filter := maximum_filter hist in
  let top := c_max (params self) * fmax_list hist in
  filter (fun m =>
            (top <=? nth m hist (of_int 0))
            && (nth m max_filter (of_int 0) =? nth m hist (of_int 0)))
         (seq 0 (length hist)).

(** Lines 363 to 367: the angle of the peak at bin [m]. *)
Definition peak_angle (self : SIFT) (hist : list F) (m : nat) : F :=
  let n := Z.of_nat (length hist) in
  let neigh := fun i : Z =>
    nth (Z.to_nat ((Z.of_nat m + i) mod n)) hist (of_int 0) in
  let ori :=
    (of_int (Z.of_nat m) + _fit (neigh (-1)%Z, neigh 0%Z, neigh 1%Z) + lit 1 2)
    * of_int 2 * fpi / of_int (n_bins (params self)) in
  if fpi <? ori then ori - of_int 2 * fpi else ori.

(** The local state of [_compute_orientation]. *)
Record ori_state : Type := mkOri {
  keypoint_indices : list nat;
  keypoint_angles : list F;
  keypoint_octave : list Z;
  keypoints_valid : list bool;
  orientations_buf : list F;
  key_count : nat
}.

(** The body of [for c, m in enumerate(maxima)]. *)
Definition save_angle (self : SIFT) (o : Z) (hist : list F)
    (st : ori_state) (cm : nat * nat) : ori_state :=
  let '(c, m) := cm in
  let ori := peak_angle self hist m in
  if (c =? 0)%nat then
    mkOri (keypoint_indices st) (keypoint_angles st) (keypoint_octave st)
          (keypoints_valid st)
          (list_set (orientations_buf st) (key_count st) ori)
          (key_count st)
  else
    mkOri (keypoint_indices st ++ [key_count st])
          (keypoint_angles st ++ [ori])
          (keypoint_octave st ++ [o])
          (keypoints_valid st) (orientations_buf st) (key_count st).

Definition enumerate {X : Type} (l : list X) : list (nat * X) :=
  combine (seq 0 (length l)) l.

(** The corners of the patch of a keypoint, and whether the keypoint is
    kept. *)
Definition patch_min (yx : F * F) (radius : F) : Z * Z :=
  (astype_int (maximum (of_int 0) (fst yx - radius + lit 1 2)),
   astype_int (maximum (of_int 0) (snd yx - radius + lit 1 2))).

Definition patch_max (yx : F * F) (radius : F) (dim : Z * Z) : Z * Z :=
  (astype_int (minimum (fst yx + radius + lit 1 2) (of_int (fst dim - 1))),
   astype_int (minimum (snd yx + radius + lit 1 2) (of_int (snd dim - 1)))).

Definition patch_ok (Min Max : Z * Z) : bool :=
  ((0 <? fst Min) && (0 <? snd Min)
   && (fst Min <? fst Max) && (snd Min <? snd Max))%Z.

(** The body of [for k in range(len(yx))] for the keypoint with position
    [pos], scale [scale] and sigma [sigma_abs] in octave [o]. *)
Definition orient_keypoint (self : SIFT) (o : Z) (grad : volume * volume * volume)
    (dim : Z * Z) (delta : F) (st : ori_state) (kp : F * F * Z * F)
  : result ori_state :=
  let '(pos, scale, sigma_abs) := kp in
  let yx := (fst pos / delta, snd pos / delta) in
  let sigma := sigma_abs / delta in
  let radius := of_int 3 * lambda_ori (params self) * sigma in
  let Min := patch_min yx radius in
  let Max := patch_max yx radius dim in
  st' <~
    (if patch_ok Min Max then
       match orientation_histogram self grad Min Max scale yx sigma with
       | [] => Raise ValueError       (* np.convolve of an empty array *)
       | hist =>
           let hist := smooth_histogram hist in
           Ok (fold_left (save_angle self o hist)
                         (enumerate (find_maxima self hist)) st)
       end
     else
       Ok (mkOri (keypoint_indices st) (keypoint_angles st) (keypoint_octave st)
                 (list_set (keypoints_valid st) (key_count st) false)
                 (orientations_buf st) (key_count st))) ;;
  Ok (mkOri (keypoint_indices st') (keypoint_angles st') (keypoint_octave st')
            (keypoints_valid st') (orientations_buf st') (S (key_count st'))).

Fixpoint rfold {S X : Type} (f : S -> X -> result S) (l : list X) (s : S) : result S :=
  match l with
  | [] => Ok s
  | x :: l' => s' <~ f s x ;; rfold f l' s'
  end.

(** The body of [for o in range(self.n_octaves)]: the state and the
    gradient of the octave. *)
Definition orient_octave (self : SIFT) (positions_oct : list (F * F))
    (scales_oct : list Z) (sigmas_oct : list F) (octs : list Z)
    (gaussian_scalespace : list volume)
    (acc : list (volume * volume * volume) * ori_state) (o : Z)
  : result (list (volume * volume * volume) * ori_state) :=
  let '(gradientSpace, st) := acc in
  let in_oct := map (Z.eqb o) octs in
  let positions := mask_select in_oct positions_oct in
  let scales := mask_select in_oct scales_oct in
  let sigmas := mask_select in_oct sigmas_oct in
  octave <~ py_index gaussian_scalespace o ;;
  grad <~ np_gradient octave ;;
  delta <~ py_index (deltas (params self)) o ;;
  let dim := (fst (fst (vshape octave)), snd (fst (vshape octave))) in
  st' <~ rfold (orient_keypoint self o grad dim delta)
               (combine (combine positions scales) sigmas) st ;;
  Ok (gradientSpace ++ [grad], st').

(** [a[indices]] for a list of indices. *)
Definition take_indices {X : Type} (l : list X) (indices : list nat) : result (list X) :=
  rmap (fun i => py_index l (Z.of_nat i)) indices.

Definition _compute_orientation (positions_oct : list (F * F)) (scales_oct : list Z)
    (sigmas_oct : list F) (octs : list Z) (gaussian_scalespace : list volume)
  : M (list (volume * volume * volume)) :=
  self <- get_self ;;
  let st0 :=
    mkOri [] [] [] (map (fun _ => true) sigmas_oct)
          (map (fun _ => of_int 0) sigmas_oct) 0 in
  '(gradientSpace, st) <-
     lift (rfold (orient_octave self positions_oct scales_oct sigmas_oct octs
                    gaussian_scalespace)
                 (zrange (n_octaves (params self))) ([], st0)) ;;
  let valid := keypoints_valid st in
  pos2 <- lift (take_indices positions_oct (keypoint_indices st)) ;;
  sc2 <- lift (take_indices scales_oct (keypoint_indices st)) ;;
  sg2 <- lift (take_indices sigmas_oct (keypoint_indices st)) ;;
  modify (set_oriented
            (mask_select valid positions_oct ++ pos2)
            (mask_select valid scales_oct ++ sc2)
            (mask_select valid sigmas_oct ++ sg2)
            (mask_select valid (orientations_buf st) ++ keypoint_angles st)
            (mask_select valid octs ++ keypoint_octave st)) ;;
  ret gradientSpace.

(** *** _compute_descriptor *)

(** Lines 410 to 472 of [_compute_descriptor]: the flattened array
    [histograms] of one keypoint before saturation, from the instance, the
    gradient of the octave, the sampling distance of the octave, and the
    position, scale, sigma and orientation of the keypoint. It is a
    parameter of the model. *)
Variable descriptor_histogram :
  SIFT -> volume * volume * volume -> F -> F * F -> Z -> F -> F -> list F.

(** Lines 474 to 476: saturation, normalization and quantization. *)
Definition saturate (histograms : list F) : list F :=
  map (fun h => minimum h (lit 2 10 * norm histograms)) histograms.

Definition normalize (histograms : list F) : list Z :=
  map (fun h =>
         astype_uint8
           (minimum (ffloor (of_int 512 * h / norm histograms)) (of_int 255)))
      histograms.

Definition descriptor_of (histograms : list F) : list Z :=
  normalize (saturate histograms).

Fixpoint mfor {X : Type} (l : list X) (body : X -> M unit) : M unit :=
  match l with
  | [] => ret tt
  | x :: l' => body x ;; mfor l' body
  end.

Definition write_row (i : nat) (row : list Z) (s : SIFT) : SIFT :=
  match descriptors s with
  | Some d => set_descriptors (list_set d i (Some row)) s
  | None => s
  end.

Definition _compute_descriptor (gradientspace : list (volume * volume * volume))
  : M unit :=
  self <- get_self ;;
  sc <- lift (attr (scales self)) ;;
  let nKey := length sc in
  modify (set_descriptors (repeat None nKey)) ;;
  let key_numbers := seq 0 nKey in
  mfor (zrange (n_octaves (params self)))
    (fun o =>
       self <- get_self ;;
       octs <- lift (attr (octaves self)) ;;
       pos <- lift (attr (positions self)) ;;
       scs <- lift (attr (scales self)) ;;
       sgs <- lift (attr (sigmas self)) ;;
       oris <- lift (attr (orientations self)) ;;
       let in_oct := map (Z.eqb o) octs in
       let positions := mask_select in_oct pos in
       let scales := mask_select in_oct scs in
       let sigmas := mask_select in_oct sgs in
       let orientations := mask_select in_oct oris in
       let numbers := mask_select in_oct key_numbers in
       gradient <- lift (py_index gradientspace o) ;;
       delta <- lift (py_index (deltas (params self)) o) ;;
       mfor (combine (combine (combine (combine positions scales) sigmas)
                        orientations) numbers)
         (fun k =>
            let '(p, scale, sigma, orientation, number) := k in
            let histograms :=
              descriptor_histogram self gradient delta p scale sigma orientation in
            modify (write_row number (descriptor_of histograms)))).

(** *** The public operations *)

Definition assign_n_octaves (im : image) : M unit :=
  self <- get_self ;;
  n <- lift (_number_of_octaves self (n_octaves (params self)) (ishape im)) ;;
  modify (fun s => set_params (set_n_octaves n (params s)) s).

Definition detect (im : image) : M unit :=
  assign_n_octaves im ;;
  gaussian_scalespace <- _create_scalespace im ;;
  let dog_scalespace := map np_diff gaussian_scalespace in
  self <- get_self ;;
  '(positions, scales, sigmas, octaves) <-
     lift (_find_localize_evaluate self dog_scalespace (ishape im)) ;;
  _compute_orientation positions scales sigmas octaves gaussian_scalespace ;;
  match positions with
  | [] => lift (Raise ValueError)     (* np.vstack of an empty list *)
  | _ =>
      modify (set_keypoints
                (map (fun k => (round_int (fst k), round_int (snd k))) positions))
  end.

Definition extract (im : image) : M unit :=
  assign_n_octaves im ;;
  gaussian_scalespace <- _create_scalespace im ;;
  gradientSpace <- lift (rmap np_gradient gaussian_scalespace) ;;
  _compute_descriptor gradientSpace.

Definition detect_and_extract (im : image) : M unit :=
  assign_n_octaves im ;;
  gaussian_scalespace <- _create_scalespace im ;;
  let dog_scalespace := map np_diff gaussian_scalespace in
  self <- get_self ;;
  '(positions, scales, sigmas, octaves) <-
     lift (_find_localize_evaluate self dog_scalespace (ishape im)) ;;
  gradientSpace <-
    _compute_orientation positions scales sigmas octaves gaussian_scalespace ;;
  _compute_descriptor gradientSpace ;;
  match positions with
  | [] => lift (Raise ValueError)     (* np.vstack of an empty list *)
  | _ =>
      modify (set_keypoints
                (map (fun k => (round_int (fst k), round_int (snd k))) positions))
  end.

End Sift.

Arguments image F : clear implicits.
Arguments volume F : clear implicits.
Arguments vec3 F : clear implicits.
Arguments mat3 F : clear implicits.
Arguments extremum F : clear implicits.
Arguments Args F : clear implicits.
Arguments Params F : clear implicits.
Arguments SIFT F : clear implicits.
Arguments ori_state F : clear implicits.
Arguments M F X : clear implicits.

Unset Implicit Arguments.

(** * Definitions used to state the properties *)

(** ** Views of the instance *)

(** A method preserves a view [proj] of the instance when the view is the
    same after every call, whether the call returns or raises. *)
Definition preserves {F A X : Type} (proj : SIFT F -> A) (m : M F X) : Prop :=
  forall s, proj (snd (m s)) = proj s.

(** A view that does not look at the attributes the private stages assign. *)
Definition stage_blind {F A : Type} (proj : SIFT F -> A) : Prop :=
  (forall v s, proj (set_scalespace_sigmas v s) = proj s) /\
  (forall p sc sg ori oc s, proj (set_oriented p sc sg ori oc s) = proj s) /\
  (forall v s, proj (set_descriptors v s) = proj s).

(** The value [self.n_octaves] has after a public operation. *)
Definition reassigned_n_octaves {F : Type} `{Float64 F} `{Libm F}
    (s : SIFT F) (im : image F) : Z :=
  match _number_of_octaves s (n_octaves (params s)) (ishape im) with
  | Ok n => n
  | Raise _ => n_octaves (params s)
  end.

(** ** Histograms *)

(** One circular convolution of a histogram with the box kernel
    [1, 1, 1] / 3, as the specification words the smoothing: the neighbours
    of the first and of the last bin are the last and the first bin. *)
Definition circular_convolve {F : Type} `{Float64 F} (hist : list F) : list F :=
  let n := length hist in
  map (fun i =>
         fsum (map (fun t => fmul t (lit 1 3))
                   [nth ((i + n - 1) mod n) hist (of_int 0);
                    nth i hist (of_int 0);
                    nth ((i + 1) mod n) hist (of_int 0)]))
      (seq 0 n).

Definition circular_smooth {F : Type} `{Float64 F} (hist : list F) : list F :=
  Nat.iter 6 circular_convolve hist.

(** The histogram with the given bins and zeros elsewhere. *)
Definition histogram_of {F : Type} `{Float64 F} (n : nat) (bins : list (nat * Z))
  : list F :=
  map (fun i =>
         match find (fun b => Nat.eqb (fst b) i) bins with
         | Some b => of_int (snd b)
         | None => of_int 0
         end)
      (seq 0 n).

(** The raw histogram of a patch whose gradients point into bin 0 with
    weight 17 and into bin 32 with weight 10. *)
Definition two_peaks : list float := histogram_of 36 [(0%nat, 17%Z); (32%nat, 10%Z)].

(** [SIFT()] in binary64: the attributes the constructor stores for the
    default arguments. With [n_scales = 3] the factor of [c_dog] is the
    quotient of a number by itself, that is 1. *)
Definition default_binary64 : SIFT float :=
  let a : Args float := default_args in
  {| params :=
       {| upsampling := 2;
          n_octaves := 8;
          n_scales := 3;
          sigma_min := fdiv (arg_sigma_min a) (of_int 2);
          sigma_in := arg_sigma_in a;
          c_dog := arg_c_dog a;
          c_edge := arg_c_edge a;
          n_bins := 36;
          lambda_ori := arg_lambda_ori a;
          c_max := arg_c_max a;
          lambda_descr := arg_lambda_descr a;
          n_hist := 4;
          n_ori := 8;
          delta_min := lit 1 2;
          deltas := map (fun i => fmul (lit 1 2) (of_int (2 ^ i))) (zrange 7) |};
     scalespace_sigmas := None;
     keypoints := None;
     positions := None;
     sigmas := None;
     scales := None;
     orientations := None;
     octaves := None;
     descriptors := None |}.

(** ** Small octaves *)

(** The keys of [entries] are looked up with this equality. *)
Definition idx3_eqb (k k' : idx3) : bool :=
  let '(r, c, s) := k in
  let '(r', c', s') := k' in
  ((r =? r') && (c =? c') && (s =? s'))%Z.

(** The 3-d array of the given shape that holds the integers of [entries]
    and [background] everywhere else. *)
Definition int_volume {F : Type} `{Float64 F} (shape : Z * Z * Z) (background : Z)
    (entries : list (idx3 * Z)) : volume F :=
  mkVolume shape
    (fun r c s =>
       of_int (match find (fun e => idx3_eqb (fst e) (r, c, s)) entries with
               | Some e => snd e
               | None => background
               end)).

(** ** A run of the orientation stage *)

(** A raw histogram with two bins of the same weight, far from each other
    and from the ends. *)
Definition two_equal_peaks : list float :=
  histogram_of 36 [(5%nat, 10%Z); (20%nat, 10%Z)].

(** Patches that all have that histogram. *)
Definition equal_peaks_everywhere
    (self : SIFT float) (grad : volume float * volume float * volume float)
    (Min Max : Z * Z) (scale : Z) (yx : float * float) (sigma : float) : list float :=
  two_equal_peaks.

(** The default instance after an operation has set [n_octaves] to 1. *)
Definition one_octave : SIFT float :=
  set_params (set_n_octaves 1 (params default_binary64)) default_binary64.

Definition flat_octave : volume float := int_volume (64, 64, 6)%Z 0 [].

(** Three keypoints of octave 0; the patch of the second one touches the
    border of the octave. *)
Definition three_positions : list (float * float) :=
  [(of_int 8, of_int 8); (lit 1 5, lit 1 5); (of_int 16, of_int 16)].

Definition oriented_sample
  : result (list (volume float * volume float * volume float)) * SIFT float :=
  _compute_orientation equal_peaks_everywhere three_positions [1; 1; 2]%Z
    [of_int 1; of_int 1; of_int 1] [0; 0; 0]%Z [flat_octave] one_octave.

Definition sample_gradient : list (volume float * volume float * volume float) :=
  match fst oriented_sample with
  | Ok g => g
  | Raise _ => []
  end.

Import Ideal.

(** A DoG octave of shape (3, 3, 3) whose centre, 20, is the largest of its
    27 values: the six neighbours along the axes and two opposite corners
    of the middle layer are 18, the rest is 0. *)
Definition ridge_octave : volume xreal :=
  int_volume (3, 3, 3)%Z 0
    [((1, 1, 1), 20); ((0, 1, 1), 18); ((2, 1, 1), 18); ((1, 0, 1), 18);
     ((1, 2, 1), 18); ((1, 1, 0), 18); ((1, 1, 2), 18);
     ((2, 2, 1), 18); ((0, 0, 1), 18)]%Z.



(** ** The contrast and edge thresholds *)

(** The value the constructor stores for [c_dog], as the docstring gives
    it: [final_c_dog = (2^(1/n_scales) - 1) / (2^(1/3) - 1) * c_dog]. *)
Definition final_c_dog (n : Z) (c : R) : R :=
  ((Rpower 2 (1 / IZR n) - 1) / (Rpower 2 (1 / 3) - 1) * c)%R.


Definition with_n_scales (n : Z) (a : Args xreal) : Args xreal :=
  mkArgs (arg_upsampling a) (arg_n_octaves a) n (arg_sigma_min a)
         (arg_sigma_in a) (arg_c_dog a) (arg_c_edge a) (arg_n_bins a)
         (arg_lambda_ori a) (arg_c_max a) (arg_lambda_descr a) (arg_n_hist a)
         (arg_n_ori a).

(** The trace and the determinant of the symmetric matrix
    [[a, b], [b, d]]. *)
Definition tr2 (a d : R) : R := (a + d)%R.
Definition det2 (a b d : R) : R := (a * d - b * b)%R.

(** ** The localization loop *)

(** The arrays of one iteration of the loop of [_find_localize_evaluate],
    by their names in the source. *)
Definition iter_still_in (dim : idx3) (still_in : list bool) (keys : list idx3)
  : list bool :=
  map (fun bk => fst bk && _inrange (snd bk) dim) (combine still_in keys).

Definition iter_pos {F : Type} `{Float64 F} (dim : idx3) (off : list (vec3 F))
    (keys : list idx3) : list (bool * bool * bool) :=
  map (fun ok => wrong_position_pos dim (fst ok) (snd ok)) (combine off keys).

Definition iter_neg {F : Type} `{Float64 F} (off : list (vec3 F)) (keys : list idx3)
  : list (bool * bool * bool) :=
  map (fun ok => wrong_position_neg (fst ok) (snd ok)) (combine off keys).

Definition iter_wrong {F : Type} `{Float64 F} (dim : idx3) (off : list (vec3 F))
    (keys : list idx3) : bool :=
  existsb any3 (iter_pos dim off keys) || existsb any3 (iter_neg off keys).

Definition iter_shift {F : Type} `{Float64 F} (dim : idx3) (off : list (vec3 F))
    (keys : list idx3) : list idx3 :=
  map (fun pnk => shift_key (fst (fst pnk)) (snd (fst pnk)) (snd pnk))
      (combine (combine (iter_pos dim off keys) (iter_neg off keys)) keys).

Definition iter_solve {F : Type} `{Float64 F} `{Lapack F} (octave : volume F)
    (grad : volume F * volume F * volume F) (still_in : list bool)
    (keys : list idx3) : result (list (vec3 F)) :=
  solve_all (map (_hessian octave) keys)
            (map (jacobian grad)
                 (mask_select (iter_still_in (vshape octave) still_in keys) keys)).


(** Every candidate is inside the octave and has its flag set. *)
Definition all_inside (dim : idx3) (still_in : list bool) (keys : list idx3) : Prop :=
  still_in = map (fun _ => true) keys
  /\ Forall (fun k => _inrange k dim = true) keys.



(** ** The descriptor *)



(** ** Orientation assignment *)

(** What the body of the loop over the keypoints finds for one keypoint:
    [None] when the patch is rejected, and otherwise the angles of the
    accepted peaks of the smoothed histogram, in the order of the bins. *)
Definition keypoint_outcome {F : Type} `{Float64 F}
    (orientation_histogram :
       SIFT F -> volume F * volume F * volume F -> Z * Z -> Z * Z -> Z -> F * F -> F
       -> list F)
    (self : SIFT F) (grad : volume F * volume F * volume F) (dim : Z * Z)
    (delta : F) (kp : F * F * Z * F) : result (option (list F)) :=
  let '(pos, scale, sigma_abs) := kp in
  let yx := (fdiv (fst pos) delta, fdiv (snd pos) delta) in
  let sigma := fdiv sigma_abs delta in
  let radius := fmul (fmul (of_int 3) (lambda_ori (params self))) sigma in
  let Min := patch_min yx radius in
  let Max := patch_max yx radius dim in
  if patch_ok Min Max then
    match orientation_histogram self grad Min Max scale yx sigma with
    | [] => Raise ValueError
    | hist =>
        let hist := smooth_histogram hist in
        Ok (Some (map (peak_angle self hist) (find_maxima self hist)))
    end
  else Ok None.

(** The outcome of the keypoint [kp] of octave [o] is [out]. *)
Definition outcome_rel {F : Type} `{Float64 F}
    (orientation_histogram :
       SIFT F -> volume F * volume F * volume F -> Z * Z -> Z * Z -> Z -> F * F -> F
       -> list F)
    (self : SIFT F) (gaussian_scalespace : list (volume F))
    (kpo : (F * F * Z * F) * Z) (out : option (list F)) : Prop :=
  exists octave grad delta,
    py_index gaussian_scalespace (snd kpo) = Ok octave /\
    np_gradient octave = Ok grad /\
    py_index (deltas (params self)) (snd kpo) = Ok delta /\
    keypoint_outcome orientation_histogram self grad
      (fst (fst (vshape octave)), snd (fst (vshape octave))) delta (fst kpo)
    = Ok out.

(** The effect of one keypoint of octave [o] on the local state. *)
Definition record_outcome {F : Type} `{Float64 F} (st : ori_state F)
    (tagged : Z * option (list F)) : ori_state F :=
  let '(o, out) := tagged in
  let k := key_count st in
  match out with
  | None =>
      mkOri (keypoint_indices st) (keypoint_angles st) (keypoint_octave st)
            (list_set (keypoints_valid st) k false) (orientations_buf st) (S k)
  | Some [] =>
      mkOri (keypoint_indices st) (keypoint_angles st) (keypoint_octave st)
            (keypoints_valid st) (orientations_buf st) (S k)
  | Some (a :: rest) =>
      mkOri (keypoint_indices st ++ repeat k (length rest))
            (keypoint_angles st ++ rest)
            (keypoint_octave st ++ repeat o (length rest))
            (keypoints_valid st)
            (list_set (orientations_buf st) k a) (S k)
  end.

(** The output arrays in terms of the outcomes of the keypoints. A kept
    keypoint stays in place among the kept ones, with the angle of its first
    peak (0 when no bin was accepted); every further peak appends a copy of
    the keypoint after all of them. *)
Definition is_kept {A : Type} (out : option (list A)) : bool :=
  match out with
  | Some _ => true
  | None => false
  end.

Definition extra_angles {A : Type} (out : option (list A)) : list A :=
  match out with
  | Some (_ :: rest) => rest
  | _ => []
  end.

Definition first_angle {F : Type} `{Float64 F} (out : option (list F)) : F :=
  match out with
  | Some (a :: _) => a
  | _ => of_int 0
  end.

Definition firsts {A X : Type} (outs : list (option (list A))) (xs : list X) : list X :=
  mask_select (map is_kept outs) xs.

Definition clones {A X : Type} (outs : list (option (list A))) (xs : list X) : list X :=
  flat_map (fun ox => repeat (snd ox) (length (extra_angles (fst ox))))
           (combine outs xs).

(** The keypoints the loop over the octaves [os] visits, in the order of
    the visits, each with its octave. *)
Definition visited {F : Type} (octs : list Z) (kps : list (F * F * Z * F))
    (os : list Z) : list ((F * F * Z * F) * Z) :=
  flat_map (fun o => map (fun kp => (kp, o)) (mask_select (map (Z.eqb o) octs) kps)) os.

(** The indices the keypoints of [l] append to [keypoint_indices] when the
    first of them has index [k]. *)
Fixpoint indices_from {F : Type} (k : nat) (l : list (Z * option (list F)))
  : list nat :=
  match l with
  | [] => []
  | t :: l' => repeat k (length (extra_angles (snd t))) ++ indices_from (S k) l'
  end.

(** ** Properties the methods keep *)

(** A method keeps a property of the instance when the property holds after
    every call on an instance that has it, whether the call returns or
    raises. *)
Definition keeps {F X : Type} (P : SIFT F -> Prop) (m : M F X) : Prop :=
  forall s, P s -> P (snd (m s)).

(** ** The shapes of the octaves *)

(** The shape of [image[::2, ::2]]. *)
Definition half_shape (shape : Z * Z) : Z * Z :=
  ((fst shape + 1) / 2, (snd shape + 1) / 2)%Z.

(** The image [_create_scalespace] starts from. *)
Definition upsampled {F : Type} (rescale : image F -> Z -> image F) (s : SIFT F)
    (im : image F) : image F :=
  if (1 <? upsampling (params s))%Z then rescale im (upsampling (params s)) else im.

(** ** The rows of the descriptors *)

(** The descriptor of one keypoint of an octave. *)
Definition row_of {F : Type} `{Float64 F}
    (descriptor_histogram :
       SIFT F -> volume F * volume F * volume F -> F -> F * F -> Z -> F -> F -> list F)
    (self : SIFT F) (gradient : volume F * volume F * volume F)
    (delta : F) (k : (F * F) * Z * F * F) : list Z :=
  let '(p, scale, sigma, orientation) := k in
  descriptor_of (descriptor_histogram self gradient delta p scale sigma orientation).

(** Row [row] of [descriptors] describes the keypoint [ko] (position, scale,
    sigma, orientation and octave): for an octave the loop visits it is the
    descriptor of the keypoint's histogram, computed on the gradient and
    the sampling distance of that octave while [descriptors] held some
    rows [d0]; for any other octave it is what [np.empty] left there. *)
Definition descriptor_rel {F : Type} `{Float64 F}
    (descriptor_histogram :
       SIFT F -> volume F * volume F * volume F -> F -> F * F -> Z -> F -> F -> list F)
    (s : SIFT F) (gradientspace : list (volume F * volume F * volume F))
    (visited_octaves : list Z)
    (ko : (F * F) * Z * F * F * Z) (row : option (list Z)) : Prop :=
  let '(p, scale, sigma, orientation, o) := ko in
  (In o visited_octaves ->
   exists gradient delta d0,
     py_index gradientspace o = Ok gradient
     /\ py_index (deltas (params s)) o = Ok delta
     /\ row = Some (descriptor_of
                      (descriptor_histogram (set_descriptors d0 s) gradient delta
                         p scale sigma orientation)))
  /\ (~ In o visited_octaves -> row = None).

(** ** The keypoints of an octave *)

(** A key that is not on the border of the octave along any of the three
    axes, as [peak_local_max] returns them. *)
Definition inside3 (k dim : idx3) : bool :=
  let '(k0, k1, k2) := k in
  let '(d0, d1, d2) := dim in
  ((0 <? k0) && (k0 <? d0 - 1) && (0 <? k1) && (k1 <? d1 - 1)
   && (0 <? k2) && (k2 <? d2 - 1))%Z.

(** The keys [k] and [k'] are at most [n] apart along every axis. *)
Definition within (n : Z) (k k' : idx3) : Prop :=
  let '(k0, k1, k2) := k in
  let '(k0', k1', k2') := k' in
  (Z.abs (k0' - k0) <= n /\ Z.abs (k1' - k1) <= n /\ Z.abs (k2' - k2) <= n)%Z.

(** The keypoint [p] (position, scale and sigma) of octave [o] comes from a
    candidate that passed every test of the loop body of
    [_find_localize_evaluate]: a peak of the octave or of its negation,
    moved by the refinement at most four steps along each axis to a key [k]
    inside the octave, whose offset solves [-H off = J] at [k], is below
    0.5 in every component, and which passes the contrast, edge and border
    filters. *)
Definition localized_at {F : Type} `{Float64 F} `{Libm F} `{Lapack F}
    (peak_local_max : volume F -> F -> list idx3)
    (self : SIFT F) (img_shape : Z * Z) (o : Z) (octave : volume F) (delta : F)
    (p : F * F * Z * F) : Prop :=
  exists (k0 k : idx3) (off : vec3 F) (grad : volume F * volume F * volume F)
         (table : list (list F)) (row0 row : list F) (s00 s01 : F),
    In k0 (peak_local_max octave (fmul (c_dog (params self)) (lit 8 10))
           ++ peak_local_max (vneg octave) (fmul (c_dog (params self)) (lit 8 10)))
    /\ within 4 k0 k
    /\ inside3 k (vshape octave) = true
    /\ np_gradient octave = Ok grad
    /\ solve3 (mneg (_hessian octave k)) (jacobian grad k) = Ok off
    /\ finished off = true
    /\ contrast_filter self
         (interpolated (vget octave k) (jacobian grad k) off) = true
    /\ edge_filter self (_hessian octave k) = true
    /\ scalespace_sigmas self = Some table
    /\ py_index table 0 = Ok row0
    /\ py_index row0 1 = Ok s01
    /\ py_index row0 0 = Ok s00
    /\ py_index table o = Ok row
    /\ locate row (fdiv s01 s00) delta
         (k, jacobian grad k, _hessian octave k, off) = Ok p
    /\ border_filter img_shape p = true.

(** ** Peaks of the orientation histogram *)

(** The parabola through (-1, a), (0, b) and (1, c). *)
Definition parabola (a b c t : R) : R :=
  (b + (c - a) / 2 * t + (a + c - 2 * b) / 2 * (t * t))%R.

(** Bin [i] of a histogram read circularly. *)
Definition circular_bin (hs : list R) (i : Z) : R :=
  nth (Z.to_nat (i mod Z.of_nat (length hs))) hs 0%R.

(** ** Inputs of the examples *)

(** Collaborators that do nothing: the image as it is for [rescale] and
    [gaussian], no peak, and empty histograms. *)
Definition keep_image (im : image xreal) (factor : Z) : image xreal := im.
Definition keep_blur (im : image xreal) (sigma : xreal) : image xreal := im.
Definition no_peaks (v : volume xreal) (threshold : xreal) : list idx3 := [].
Definition no_histogram
    (self : SIFT xreal) (grad : volume xreal * volume xreal * volume xreal)
    (Min Max : Z * Z) (scale : Z) (yx : xreal * xreal) (sigma : xreal) : list xreal := [].
Definition no_descriptor
    (self : SIFT xreal) (grad : volume xreal * volume xreal * volume xreal)
    (delta : xreal) (p : xreal * xreal) (scale : Z) (sigma orientation : xreal)
  : list xreal := [].

(** A black image of [side] by [side] pixels. *)
Definition black (side : Z) : image xreal := mkImage (side, side) (fun _ _ => Fin 0).

(** The instance after the run [oriented_sample], with its five arrays. *)
Definition oriented_instance : SIFT float := snd oriented_sample.

Definition some_list {X : Type} (o : option (list X)) : list X :=
  match o with
  | Some l => l
  | None => []
  end.

(** Patches whose 128 bins all hold 1. *)
Definition flat_descriptor
    (self : SIFT float) (grad : volume float * volume float * volume float)
    (delta : float) (p : float * float) (scale : Z) (sigma orientation : float)
  : list float := repeat (of_int 1) 128.

Definition described_sample : result unit * SIFT float :=
  _compute_descriptor flat_descriptor sample_gradient oriented_instance.

(** A histogram of 36 bins with one peak, at bin 6. *)
Definition one_peak : list R :=
  (repeat 0 5 ++ [1; 2; 1] ++ repeat 0 28)%R.

(** A DoG octave of shape (3, 3, 3) with a round peak at its centre: 20
    there, 18 at the six neighbours along the axes and 0 elsewhere. *)
Definition dome_octave : volume xreal :=
  int_volume (3, 3, 3)%Z 0
    [((1, 1, 1), 20); ((0, 1, 1), 18); ((2, 1, 1), 18); ((1, 0, 1), 18);
     ((1, 2, 1), 18); ((1, 1, 0), 18); ((1, 1, 2), 18)]%Z.

(** A detector that reports the voxel (1, 1, 1) where it is inside the
    array and positive. *)
Definition centre_peak (v : volume xreal) (threshold : xreal) : list idx3 :=
  if inside3 (1, 1, 1)%Z (vshape v) && fltb (of_int 0) (vox v 1 1 1)
  then [(1, 1, 1)%Z] else [].

(** An instance whose table of sigmas is one row of three small sigmas. *)
Definition with_small_sigmas (s : SIFT xreal) : SIFT xreal :=
  set_scalespace_sigmas [[Fin (1 / 8); Fin (1 / 4); Fin (1 / 2)]] s.

(** ** A run of the whole pipeline *)

(** The factor between the sigmas of two consecutive layers when
    [n_scales] is 3. *)
Definition kappa3 : R := Rpower 2 (1 / 3)%R.

(** A bump at the pixel (4, 4): [centre] there, [side] at its four
    neighbours and 0 elsewhere. *)
Definition bump (centre side r c : Z) : Z :=
  if ((r =? 4) && (c =? 4))%Z then centre
  else if (Z.abs (r - 4) + Z.abs (c - 4) =? 1)%Z then side
  else 0%Z.

(** The image after [t] blurs: pixel (0, 0) counts the blurs, the second
    and the fourth blur add 18 at (4, 4), and the third adds 20 there and
    18 at its four neighbours. *)
Definition staged_value (t r c : Z) : Z :=
  if ((r =? 0) && (c =? 0))%Z then t
  else ((if (2 <=? t)%Z then bump 18 0 r c else 0)
        + (if (3 <=? t)%Z then bump 20 18 r c else 0)
        + (if (4 <=? t)%Z then bump 18 0 r c else 0))%Z.

Definition staged (t : Z) : image xreal :=
  mkImage (8, 8)%Z (fun r c => of_int (staged_value t r c)).

(** A stand-in for [gaussian] that returns these images in turn, whatever
    the sigma. *)
Definition staged_blur (im : image xreal) (sigma : xreal) : image xreal :=
  staged (astype_int (pix im 0 0) + 1).

(** A stand-in for [peak_local_max] that reports the voxel [k] where it is
    inside the array and above the threshold. *)
Definition peak_at (k : idx3) (v : volume xreal) (threshold : xreal) : list idx3 :=
  if inside3 k (vshape v) && fltb threshold (vget v k) then [k] else [].

(** The octave of the six images the stand-in returns, and its DoG octave:
    20 at (4, 4, 1), 18 at the six neighbours along the axes. *)
Definition staged_octave : volume xreal :=
  stack (8, 8)%Z (map (fun i => staged (1 + Z.of_nat i)) (seq 0 6)).

Definition staged_dog : volume xreal := np_diff staged_octave.

(** * Properties *)

(** ** What the operations leave unchanged *)

Section Frame.
Context {F : Type} {FA : Float64 F} {FL : Libm F} {FP : Lapack F}.
Variable rescale : image F -> Z -> image F.
Variable gaussian : image F -> F -> image F.
Variable peak_local_max : volume F -> F -> list idx3.
Variable orientation_histogram :
  SIFT F -> volume F * volume F * volume F -> Z * Z -> Z * Z -> Z -> F * F -> F -> list F.
Variable descriptor_histogram :
  SIFT F -> volume F * volume F * volume F -> F -> F * F -> Z -> F -> F -> list F.

Lemma preserves_ret {A X : Type} (proj : SIFT F -> A) (x : X) :
  preserves proj (ret x).
Proof. intro s. reflexivity. Qed.

Lemma preserves_lift {A X : Type} (proj : SIFT F -> A) (r : result X) :
  preserves proj (lift r).
Proof. intro s. reflexivity. Qed.

Lemma preserves_get_self {A : Type} (proj : SIFT F -> A) :
  preserves proj get_self.
Proof. intro s. reflexivity. Qed.

Lemma preserves_modify {A : Type} (proj : SIFT F -> A) (f : SIFT F -> SIFT F) :
  (forall s, proj (f s) = proj s) -> preserves proj (modify f).
Proof. intros Hf s. apply Hf. Qed.

Lemma preserves_bind {A X Y : Type} (proj : SIFT F -> A) (m : M F X) (k : X -> M F Y) :
  preserves proj m -> (forall x, preserves proj (k x)) -> preserves proj (bind m k).
Proof.
  intros Hm Hk s. unfold bind.
  specialize (Hm s). destruct (m s) as [[x | e] s']; simpl in *.
  - rewrite Hk. exact Hm.
  - exact Hm.
Qed.

Lemma preserves_mfor {A X : Type} (proj : SIFT F -> A) (l : list X) (body : X -> M F unit) :
  (forall x, preserves proj (body x)) -> preserves proj (mfor l body).
Proof.
  intro Hb. induction l as [| x l IH]; simpl.
  - apply preserves_ret.
  - apply preserves_bind; [ apply Hb | intros _; exact IH ].
Qed.

Lemma preserves_create_scalespace {A : Type} (proj : SIFT F -> A) (im : image F) :
  stage_blind proj -> preserves proj (_create_scalespace rescale gaussian im).
Proof.
  intros (Hs & _ & _). unfold _create_scalespace.
  apply preserves_bind; [ apply preserves_get_self | intro self ].
  destruct (_ || _)%bool; [ apply preserves_lift | ].
  apply preserves_bind; [ apply preserves_lift | intros [scalespace sg] ].
  apply preserves_bind; [ apply preserves_modify, Hs | intros _ ].
  apply preserves_ret.
Qed.

Lemma preserves_compute_orientation {A : Type} (proj : SIFT F -> A)
    positions_oct scales_oct sigmas_oct octs gaussian_scalespace :
  stage_blind proj ->
  preserves proj
    (_compute_orientation orientation_histogram positions_oct scales_oct
       sigmas_oct octs gaussian_scalespace).
Proof.
  intros (_ & Ho & _). unfold _compute_orientation.
  apply preserves_bind; [ apply preserves_get_self | intro self ].
  apply preserves_bind; [ apply preserves_lift | intros [gradientSpace st] ].
  do 3 (apply preserves_bind; [ apply preserves_lift | intro ]).
  apply preserves_bind; [ apply preserves_modify, Ho | intros _ ].
  apply preserves_ret.
Qed.

Lemma write_row_blind {A : Type} (proj : SIFT F -> A) i row s :
  stage_blind proj -> proj (write_row i row s) = proj s.
Proof.
  intros (_ & _ & Hd). unfold write_row.
  destruct (descriptors s); [ apply Hd | reflexivity ].
Qed.

Lemma preserves_compute_descriptor {A : Type} (proj : SIFT F -> A) gradientspace :
  stage_blind proj ->
  preserves proj (_compute_descriptor descriptor_histogram gradientspace).
Proof.
  intros Hb. pose proof Hb as (_ & _ & Hd). unfold _compute_descriptor.
  apply preserves_bind; [ apply preserves_get_self | intro self ].
  apply preserves_bind; [ apply preserves_lift | intro sc ].
  apply preserves_bind; [ apply preserves_modify, Hd | intros _ ].
  apply preserves_mfor. intro o.
  apply preserves_bind; [ apply preserves_get_self | intro self' ].
  do 7 (apply preserves_bind; [ apply preserves_lift | intro ]).
  apply preserves_mfor. intros [[[[p scale] sigma] orientation] number].
  apply preserves_modify. intro s. apply write_row_blind, Hb.
Qed.

(** [self.n_octaves = self._number_of_octaves(self.n_octaves, image.shape)]
    is the one assignment to a configuration attribute. *)
Lemma preserves_assign_n_octaves {A : Type} (proj : SIFT F -> A) (im : image F) :
  (forall n s, proj (set_params (set_n_octaves n (params s)) s) = proj s) ->
  preserves proj (assign_n_octaves im).
Proof.
  intro Hn. unfold assign_n_octaves.
  apply preserves_bind; [ apply preserves_get_self | intro self ].
  apply preserves_bind; [ apply preserves_lift | intro n ].
  apply preserves_modify. intro s. apply Hn.
Qed.

Lemma preserves_extract {A : Type} (proj : SIFT F -> A) (im : image F) :
  stage_blind proj ->
  (forall n s, proj (set_params (set_n_octaves n (params s)) s) = proj s) ->
  preserves proj (extract rescale gaussian descriptor_histogram im).
Proof.
  intros Hb Hn. unfold extract.
  apply preserves_bind; [ apply preserves_assign_n_octaves, Hn | intros _ ].
  apply preserves_bind; [ apply preserves_create_scalespace, Hb | intro gs ].
  apply preserves_bind; [ apply preserves_lift | intro g ].
  apply preserves_compute_descriptor, Hb.
Qed.

Lemma preserves_detect_and_extract {A : Type} (proj : SIFT F -> A) (im : image F) :
  stage_blind proj ->
  (forall n s, proj (set_params (set_n_octaves n (params s)) s) = proj s) ->
  (forall v s, proj (set_keypoints v s) = proj s) ->
  preserves proj
    (detect_and_extract rescale gaussian peak_local_max orientation_histogram
       descriptor_histogram im).
Proof.
  intros Hb Hn Hk. unfold detect_and_extract.
  apply preserves_bind; [ apply preserves_assign_n_octaves, Hn | intros _ ].
  apply preserves_bind; [ apply preserves_create_scalespace, Hb | intro gs ].
  apply preserves_bind; [ apply preserves_get_self | intro self ].
  apply preserves_bind; [ apply preserves_lift | intros [[[p sc] sg] oc] ].
  apply preserves_bind; [ apply preserves_compute_orientation, Hb | intro g ].
  apply preserves_bind; [ apply preserves_compute_descriptor, Hb | intros _ ].
  destruct p; [ apply preserves_lift | apply preserves_modify, Hk ].
Qed.

Lemma preserves_detect {A : Type} (proj : SIFT F -> A) (im : image F) :
  stage_blind proj ->
  (forall n s, proj (set_params (set_n_octaves n (params s)) s) = proj s) ->
  (forall v s, proj (set_keypoints v s) = proj s) ->
  preserves proj
    (detect rescale gaussian peak_local_max orientation_histogram im).
Proof.
  intros Hb Hn Hk. unfold detect.
  apply preserves_bind; [ apply preserves_assign_n_octaves, Hn | intros _ ].
  apply preserves_bind; [ apply preserves_create_scalespace, Hb | intro gs ].
  apply preserves_bind; [ apply preserves_get_self | intro self ].
  apply preserves_bind; [ apply preserves_lift | intros [[[p sc] sg] oc] ].
  apply preserves_bind; [ apply preserves_compute_orientation, Hb | intro g ].
  destruct p; [ apply preserves_lift | apply preserves_modify, Hk ].
Qed.


Lemma params_stage_blind : stage_blind (@params F).
Proof. repeat split. Qed.

Lemma bind_after {A X Y : Type} (proj : SIFT F -> A) (m : M F X) (k : X -> M F Y) :
  (forall x, preserves proj (k x)) ->
  forall s, proj (snd (bind m k s)) = proj (snd (m s)).
Proof.
  intros Hk s. unfold bind.
  destruct (m s) as [[x | e] s']; simpl; [ apply Hk | reflexivity ].
Qed.

Lemma params_assign_n_octaves (im : image F) (s : SIFT F) :
  params (snd (assign_n_octaves im s))
  = set_n_octaves (reassigned_n_octaves s im) (params s).
Proof.
  unfold assign_n_octaves, reassigned_n_octaves, bind, get_self, lift, modify.
  simpl.
  destruct (_number_of_octaves s (n_octaves (params s)) (ishape im)); simpl.
  - reflexivity.
  - destruct (params s). reflexivity.
Qed.

Lemma params_after_detect (im : image F) (s : SIFT F) :
  params (snd (detect rescale gaussian peak_local_max orientation_histogram im s))
  = set_n_octaves (reassigned_n_octaves s im) (params s).
Proof.
  rewrite <- (params_assign_n_octaves im s).
  pose proof params_stage_blind as Hb.
  unfold detect. apply bind_after. intros _.
  apply preserves_bind; [ apply preserves_create_scalespace, Hb | intro gs ].
  apply preserves_bind; [ apply preserves_get_self | intro self ].
  apply preserves_bind; [ apply preserves_lift | intros [[[p sc] sg] oc] ].
  apply preserves_bind; [ apply preserves_compute_orientation, Hb | intro g ].
  destruct p; [ apply preserves_lift | apply preserves_modify; reflexivity ].
Qed.

Lemma params_after_extract (im : image F) (s : SIFT F) :
  params (snd (extract rescale gaussian descriptor_histogram im s))
  = set_n_octaves (reassigned_n_octaves s im) (params s).
Proof.
  rewrite <- (params_assign_n_octaves im s).
  pose proof params_stage_blind as Hb.
  unfold extract. apply bind_after. intros _.
  apply preserves_bind; [ apply preserves_create_scalespace, Hb | intro gs ].
  apply preserves_bind; [ apply preserves_lift | intro g ].
  apply preserves_compute_descriptor, Hb.
Qed.

Lemma params_after_detect_and_extract (im : image F) (s : SIFT F) :
  params
    (snd (detect_and_extract rescale gaussian peak_local_max
            orientation_histogram descriptor_histogram im s))
  = set_n_octaves (reassigned_n_octaves s im) (params s).
Proof.
  rewrite <- (params_assign_n_octaves im s).
  pose proof params_stage_blind as Hb.
  unfold detect_and_extract. apply bind_after. intros _.
  apply preserves_bind; [ apply preserves_create_scalespace, Hb | intro gs ].
  apply preserves_bind; [ apply preserves_get_self | intro self ].
  apply preserves_bind; [ apply preserves_lift | intros [[[p sc] sg] oc] ].
  apply preserves_bind; [ apply preserves_compute_orientation, Hb | intro g ].
  apply preserves_bind; [ apply preserves_compute_descriptor, Hb | intros _ ].
  destruct p; [ apply preserves_lift | apply preserves_modify; reflexivity ].
Qed.

(** C5 (amended): a public operation leaves every configuration attribute
    but [n_octaves] as the constructor set it, and assigns to [n_octaves]
    what [_number_of_octaves] returns for the image (the bound by the image
    size, or the old value when that is smaller). *)
Theorem operations_reassign_only_n_octaves :
  forall (im : image F) (s : SIFT F),
    params (snd (detect rescale gaussian peak_local_max orientation_histogram im s))
    = set_n_octaves (reassigned_n_octaves s im) (params s)
    /\ params (snd (extract rescale gaussian descriptor_histogram im s))
       = set_n_octaves (reassigned_n_octaves s im) (params s)
    /\ params
         (snd (detect_and_extract rescale gaussian peak_local_max
                 orientation_histogram descriptor_histogram im s))
       = set_n_octaves (reassigned_n_octaves s im) (params s).
Proof.
  intros im s.
  split; [ apply params_after_detect | ].
  split; [ apply params_after_extract | apply params_after_detect_and_extract ].
Qed.

End Frame.

(** ** Smoothing and peak angles of the orientation histogram, in binary64 *)

(** C8 (at the failing input [two_peaks]): the smoothing of
    [_compute_orientation] is not six circular convolutions with the box
    kernel. The histogram is padded with three bins on either side, so the
    zero padding of [np.convolve] reaches the three first and the three last
    bins within six passes: bin 0 comes out more than a quarter below its
    circularly smoothed value. *)
Theorem smooth_histogram_not_circular :
  length (smooth_histogram two_peaks) = 36%nat /\
  PrimFloat.ltb
    (PrimFloat.add (nth 0 (smooth_histogram two_peaks) 0%float) 0.25%float)
    (nth 0 (circular_smooth two_peaks) 0%float) = true /\
  smooth_histogram two_peaks <> circular_smooth two_peaks.
Proof.
  split; [ vm_compute; reflexivity | split; [ vm_compute; reflexivity | ] ].
  intro E.
  assert (D : PrimFloat.eqb (nth 0 (smooth_histogram two_peaks) 0%float)
                            (nth 0 (circular_smooth two_peaks) 0%float) = true).
  { rewrite E. vm_compute. reflexivity. }
  vm_compute in D. discriminate D.
Qed.

(** C9 (at the failing input [two_peaks]): the peaks of the smoothed
    histogram are the bins 0 and 35, and the refined angle of the peak at
    bin 0, which becomes the orientation of the keypoint, is below -pi:
    bin 0 passes the maximum filter because the filter does not wrap
    around, [_fit] is given the bins 35, 0 and 1, of which bin 0 is not the
    largest, and returns an offset near -25. *)
Theorem peak_angle_below_minus_pi :
  let hist := smooth_histogram two_peaks in
  let st0 := mkOri [] [] [] [true] [0%float] 0 in
  let st := fold_left (save_angle default_binary64 0 hist)
                      (enumerate (find_maxima default_binary64 hist)) st0 in
  find_maxima default_binary64 hist = [0%nat; 35%nat] /\
  orientations_buf st = [peak_angle default_binary64 hist 0] /\
  PrimFloat.ltb (_fit (nth 35 hist 0%float, nth 0 hist 0%float, nth 1 hist 0%float))
                (-24)%float = true /\
  PrimFloat.ltb (peak_angle default_binary64 hist 0)
                (PrimFloat.opp fpi) = true.
Proof.
  cbv zeta. repeat split; vm_compute; reflexivity.
Qed.
(** ** The orientation stage *)

Section Orientation.
Context {F : Type} {FA : Float64 F}.
Variable orientation_histogram :
  SIFT F -> volume F * volume F * volume F -> Z * Z -> Z * Z -> Z -> F * F -> F -> list F.

Lemma save_angles_rest (self : SIFT F) (o : Z) (hist : list F) (maxima : list nat)
    (c : nat) (st : ori_state F) :
  fold_left (save_angle self o hist) (combine (seq (S c) (length maxima)) maxima) st
  = mkOri (keypoint_indices st ++ repeat (key_count st) (length maxima))
          (keypoint_angles st ++ map (peak_angle self hist) maxima)
          (keypoint_octave st ++ repeat o (length maxima))
          (keypoints_valid st) (orientations_buf st) (key_count st).
Proof.
  revert c st. induction maxima as [| m maxima IH]; intros c st.
  - simpl. rewrite !app_nil_r. destruct st; reflexivity.
  - cbn [length seq combine fold_left]. rewrite IH.
    cbn [save_angle Nat.eqb keypoint_indices keypoint_angles keypoint_octave
         keypoints_valid orientations_buf key_count map repeat].
    rewrite <- !app_assoc. reflexivity.
Qed.

Lemma orient_keypoint_outcome (self : SIFT F) (o : Z)
    (grad : volume F * volume F * volume F) (dim : Z * Z) (delta : F)
    (st : ori_state F) (kp : F * F * Z * F) :
  orient_keypoint orientation_histogram self o grad dim delta st kp
  = rbind (keypoint_outcome orientation_histogram self grad dim delta kp)
          (fun out => Ok (record_outcome st (o, out))).
Proof.
  destruct kp as [[pos scale] sigma_abs].
  unfold orient_keypoint, keypoint_outcome. cbv zeta.
  destruct (patch_ok _ _); [ | reflexivity ].
  destruct (orientation_histogram _ _ _ _ _ _ _) as [| h hist]; [ reflexivity | ].
  cbn [rbind]. f_equal.
  set (sm := smooth_histogram (h :: hist)).
  unfold enumerate. destruct (find_maxima self sm) as [| m maxima].
  - reflexivity.
  - cbn [length seq combine fold_left map record_outcome].
    rewrite save_angles_rest.
    cbn [save_angle Nat.eqb keypoint_indices keypoint_angles keypoint_octave
         keypoints_valid orientations_buf key_count].
    rewrite length_map. reflexivity.
Qed.


(** The keypoints of one octave, in the order of the loop. *)
Lemma orient_block (self : SIFT F) (o : Z) (grad : volume F * volume F * volume F)
    (dim : Z * Z) (delta : F) (block : list (F * F * Z * F)) (st st' : ori_state F) :
  rfold (orient_keypoint orientation_histogram self o grad dim delta) block st = Ok st' ->
  exists outs,
    Forall2 (fun kp out =>
               keypoint_outcome orientation_histogram self grad dim delta kp = Ok out)
            block outs
    /\ st' = fold_left record_outcome (map (pair o) outs) st.
Proof.
  revert st. induction block as [| kp block IH]; intros st E.
  - cbn [rfold] in E. injection E as <-. exists []. split; [ constructor | reflexivity ].
  - cbn [rfold] in E. rewrite orient_keypoint_outcome in E.
    destruct (keypoint_outcome orientation_histogram self grad dim delta kp)
      as [out | e] eqn:Ek; cbn [rbind] in E; [ | discriminate E ].
    destruct (IH _ E) as (outs & Hf & ->).
    exists (out :: outs). split; [ constructor; assumption | reflexivity ].
Qed.

Lemma mask_select_nil {X : Type} (mask : list bool) : mask_select mask (@nil X) = [].
Proof. destruct mask as [| [|] mask]; reflexivity. Qed.

Lemma mask_select_combine {X Y : Type} (mask : list bool) (a : list X) (b : list Y) :
  combine (mask_select mask a) (mask_select mask b) = mask_select mask (combine a b).
Proof.
  revert a b. induction mask as [| m mask IH]; intros a b; [ reflexivity | ].
  destruct a as [| x a]; [ reflexivity | ].
  destruct b as [| y b].
  - cbn [mask_select combine].
    destruct m; [ reflexivity | destruct (mask_select mask a); reflexivity ].
  - cbn [mask_select combine]. destruct m; cbn [combine]; rewrite IH; reflexivity.
Qed.

Lemma orient_octaves (self : SIFT F) (P : list (F * F)) (S : list Z) (G : list F)
    (octs : list Z) (gs : list (volume F)) (os : list Z)
    (g0 g1 : list (volume F * volume F * volume F)) (st st' : ori_state F) :
  rfold (orient_octave orientation_histogram self P S G octs gs) os (g0, st)
  = Ok (g1, st') ->
  exists tagged,
    Forall2 (fun kpo t => fst t = snd kpo
                          /\ outcome_rel orientation_histogram self gs kpo (snd t))
            (visited octs (combine (combine P S) G) os) tagged
    /\ st' = fold_left record_outcome tagged st.
Proof.
  revert g0 st. induction os as [| o os IH]; intros g0 st E.
  - cbn [rfold] in E. injection E as <- <-. exists []. split; [ constructor | reflexivity ].
  - cbn [rfold] in E. unfold orient_octave at 1 in E.
    destruct (py_index gs o) as [octave | e] eqn:Eo; cbn [rbind] in E; [ | discriminate E ].
    destruct (np_gradient octave) as [grad | e] eqn:Eg; cbn [rbind] in E; [ | discriminate E ].
    destruct (py_index (deltas (params self)) o) as [delta | e] eqn:Ed;
      cbn [rbind] in E; [ | discriminate E ].
    rewrite !mask_select_combine in E.
    destruct (rfold _ _ st) as [st1 | e] eqn:Eb; cbn [rbind] in E; [ | discriminate E ].
    apply orient_block in Eb. destruct Eb as (outs & Hb & ->).
    destruct (IH _ _ E) as (tagged & Ht & ->).
    exists (map (pair o) outs ++ tagged). split.
    + cbn [visited flat_map]. apply Forall2_app; [ | exact Ht ].
      clear - Hb Eo Eg Ed. induction Hb as [| kp out block outs Hk _ IHb];
        cbn [map]; constructor; [ | exact IHb ].
      split; [ reflexivity | ].
      exists octave, grad, delta. cbn [fst snd]. repeat split; assumption.
    + rewrite fold_left_app. reflexivity.
Qed.


Lemma visited_nil (os : list Z) : visited [] (@nil (F * F * Z * F)) os = [].
Proof. induction os as [| o os IH]; [ reflexivity | exact IH ]. Qed.

Lemma block_empty (o : Z) (octs : list Z) (kps : list (F * F * Z * F)) :
  Forall (fun o' => o' <> o) octs ->
  mask_select (map (Z.eqb o) octs) kps = [].
Proof.
  intro H. revert kps. induction H as [| o' octs Ho _ IH]; intros [| kp kps];
    try reflexivity.
  cbn [map mask_select]. rewrite (proj2 (Z.eqb_neq o o')) by congruence. apply IH.
Qed.

Lemma visited_skip (o1 : Z) (octs : list Z) (kp1 : F * F * Z * F)
    (kps : list (F * F * Z * F)) (os : list Z) :
  Forall (fun o => o <> o1) os ->
  visited (o1 :: octs) (kp1 :: kps) os = visited octs kps os.
Proof.
  induction 1 as [| o os Ho _ IH]; [ reflexivity | ].
  cbn [visited flat_map map mask_select].
  rewrite (proj2 (Z.eqb_neq o o1)) by exact Ho.
  f_equal. exact IH.
Qed.

Lemma visited_head (o1 : Z) (octs : list Z) (kp1 : F * F * Z * F)
    (kps : list (F * F * Z * F)) (len lo : nat) :
  (Z.of_nat lo <= o1 < Z.of_nat (lo + len))%Z ->
  Forall (fun o => o1 <= o)%Z octs ->
  visited (o1 :: octs) (kp1 :: kps) (map Z.of_nat (seq lo len))
  = (kp1, o1) :: visited octs kps (map Z.of_nat (seq lo len)).
Proof.
  intros Hr Hge. revert lo Hr. induction len as [| len IH]; intros lo Hr; [ lia | ].
  cbn [seq map visited flat_map mask_select].
  destruct (Z.eqb_spec (Z.of_nat lo) o1) as [He | Hne].
  - subst o1. cbn [map app]. f_equal. f_equal.
    apply visited_skip. apply Forall_forall. intros o Hin.
    apply in_map_iff in Hin. destruct Hin as (i & <- & Hi).
    apply in_seq in Hi. lia.
  - rewrite block_empty.
    + cbn [map app]. apply IH. lia.
    + eapply Forall_impl; [ | exact Hge ]. cbv beta. intros o Ho. lia.
Qed.

Lemma visited_sorted (n : nat) (octs : list Z) (kps : list (F * F * Z * F)) :
  length kps = length octs ->
  StronglySorted Z.le octs ->
  Forall (fun o => 0 <= o < Z.of_nat n)%Z octs ->
  visited octs kps (map Z.of_nat (seq 0 n)) = combine kps octs.
Proof.
  intros Hlen Hs. revert kps Hlen.
  induction Hs as [| o1 octs Hs IH Hge]; intros [| kp1 kps] Hlen Hr;
    try discriminate Hlen.
  - apply visited_nil.
  - inversion Hr as [| ? ? Hr1 Hr']; subst.
    rewrite visited_head; [ | cbn [Nat.add]; lia | exact Hge ].
    cbn [combine]. f_equal. apply IH; [ | exact Hr' ].
    simpl in Hlen. lia.
Qed.


Lemma list_set_app {X : Type} (v : list X) (x y : X) (r : list X) :
  list_set (v ++ x :: r) (length v) y = v ++ y :: r.
Proof. induction v as [| z v IH]; cbn; [ reflexivity | f_equal; exact IH ]. Qed.

Lemma record_outcomes_shape (l : list (Z * option (list F))) :
  forall (st : ori_state F) (v : list bool) (b : list F) (m : nat),
    keypoints_valid st = v ++ repeat true (length l + m) ->
    orientations_buf st = b ++ repeat (of_int 0) (length l + m) ->
    key_count st = length v ->
    length b = length v ->
    let st' := fold_left record_outcome l st in
    keypoints_valid st' = v ++ map (fun t => is_kept (snd t)) l ++ repeat true m /\
    orientations_buf st' = b ++ map (fun t => first_angle (snd t)) l ++ repeat (of_int 0) m /\
    keypoint_indices st' = keypoint_indices st ++ indices_from (length v) l /\
    keypoint_angles st' = keypoint_angles st ++ flat_map (fun t => extra_angles (snd t)) l /\
    keypoint_octave st'
    = keypoint_octave st
      ++ flat_map (fun t => repeat (fst t) (length (extra_angles (snd t)))) l.
Proof.
  induction l as [| [o out] l IH]; intros st v b m Hv Hb Hk Hlen; cbv zeta.
  - cbn [fold_left map flat_map indices_from length Nat.add app] in *.
    rewrite !app_nil_r. repeat split; assumption.
  - cbn [fold_left length Nat.add repeat] in *.
    set (st1 := record_outcome st (o, out)).
    assert (H1 : keypoints_valid st1 = (v ++ [is_kept out]) ++ repeat true (length l + m)
                 /\ orientations_buf st1
                    = (b ++ [first_angle out]) ++ repeat (of_int 0) (length l + m)
                 /\ key_count st1 = length (v ++ [is_kept out])
                 /\ keypoint_indices st1
                    = keypoint_indices st ++ repeat (length v) (length (extra_angles out))
                 /\ keypoint_angles st1 = keypoint_angles st ++ extra_angles out
                 /\ keypoint_octave st1
                    = keypoint_octave st ++ repeat o (length (extra_angles out))).
    { unfold st1.
      destruct out as [[| a rest] |];
        cbn [record_outcome keypoints_valid orientations_buf key_count
             keypoint_indices keypoint_angles keypoint_octave is_kept first_angle
             extra_angles length repeat];
        rewrite ?app_nil_r, ?Hv, ?Hb, ?Hk.
      - repeat split; rewrite <- ?app_assoc, ?length_app; cbn [app length];
          try reflexivity; lia.
      - rewrite <- Hlen, list_set_app, Hlen.
        repeat split; rewrite <- ?app_assoc, ?length_app; cbn [app length];
          try reflexivity; lia.
      - rewrite list_set_app.
        repeat split; rewrite <- ?app_assoc, ?length_app; cbn [app length];
          try reflexivity; lia. }
    destruct H1 as (Hv1 & Hb1 & Hk1 & Hi1 & Ha1 & Ho1).
    assert (Hlen1 : length (b ++ [first_angle out]) = length (v ++ [is_kept out])).
    { rewrite !length_app. cbn [length]. lia. }
    destruct (IH st1 _ _ m Hv1 Hb1 Hk1 Hlen1) as (Rv & Rb & Ri & Ra & Ro).
    rewrite Rv, Rb, Ri, Ra, Ro, Hi1, Ha1, Ho1.
    rewrite length_app. cbn [length map flat_map indices_from snd fst].
    rewrite <- !app_assoc. cbn [app].
    replace (length v + 1)%nat with (S (length v)) by lia.
    repeat split; reflexivity.
Qed.

Lemma rmap_app {A B : Type} (f : A -> result B) (l1 l2 : list A) (r1 r2 : list B) :
  rmap f l1 = Ok r1 -> rmap f l2 = Ok r2 -> rmap f (l1 ++ l2) = Ok (r1 ++ r2).
Proof.
  revert r1. induction l1 as [| a l1 IH]; intros r1 E1 E2.
  - injection E1 as <-. exact E2.
  - cbn [rmap app] in *. destruct (f a) as [x | e]; cbn [rbind] in *; [ | discriminate E1 ].
    destruct (rmap f l1) as [xs | e]; cbn [rbind] in *; [ | discriminate E1 ].
    injection E1 as <-. rewrite (IH xs eq_refl E2). reflexivity.
Qed.

Lemma rmap_repeat {A B : Type} (f : A -> result B) (a : A) (x : B) (n : nat) :
  f a = Ok x -> rmap f (repeat a n) = Ok (repeat x n).
Proof.
  intro E. induction n as [| n IH]; [ reflexivity | ].
  cbn [repeat rmap]. rewrite E, IH. reflexivity.
Qed.

Lemma py_index_middle {X : Type} (pre : list X) (x : X) (rest : list X) :
  py_index (pre ++ x :: rest) (Z.of_nat (length pre)) = Ok x.
Proof.
  unfold py_index. rewrite length_app. cbn [length].
  destruct (Z.ltb_spec (Z.of_nat (length pre)) 0) as [H | _]; [ lia | ].
  replace ((0 <=? Z.of_nat (length pre)) &&
           (Z.of_nat (length pre) <? Z.of_nat (length pre + S (length rest))))%Z
    with true.
  - rewrite Nat2Z.id, nth_error_app2 by lia. rewrite Nat.sub_diag. reflexivity.
  - symmetry. apply andb_true_iff. split; [ apply Z.leb_le | apply Z.ltb_lt ]; lia.
Qed.

Lemma take_indices_clones {X : Type} (l : list (Z * option (list F))) :
  forall (pre rest : list X),
    length rest = length l ->
    take_indices (pre ++ rest) (indices_from (length pre) l)
    = Ok (clones (map snd l) rest).
Proof.
  induction l as [| [o out] l IH]; intros pre [| x rest] Hlen; try discriminate Hlen.
  - reflexivity.
  - cbn [indices_from map combine snd]. unfold take_indices, clones.
    cbn [combine flat_map fst snd].
    apply rmap_app.
    + apply rmap_repeat. apply py_index_middle.
    + specialize (IH (pre ++ [x]) rest). rewrite length_app in IH. cbn [length] in IH.
      replace (length pre + 1)%nat with (S (length pre)) in IH by lia.
      rewrite <- app_assoc in IH. cbn [app] in IH. apply IH.
      simpl in Hlen. lia.
Qed.


Lemma map_const_repeat {X Y : Type} (y : Y) (l : list X) :
  map (fun _ => y) l = repeat y (length l).
Proof. induction l as [| x l IH]; [ reflexivity | cbn; f_equal; exact IH ]. Qed.

Lemma tagged_octaves (gs : list (volume F)) (self : SIFT F)
    (kps : list (F * F * Z * F)) (octs : list Z) (tagged : list (Z * option (list F))) :
  length kps = length octs ->
  Forall2 (fun kpo t => fst t = snd kpo
                        /\ outcome_rel orientation_histogram self gs kpo (snd t))
          (combine kps octs) tagged ->
  Forall2 (outcome_rel orientation_histogram self gs) (combine kps octs) (map snd tagged)
  /\ length tagged = length octs
  /\ flat_map (fun t => repeat (fst t) (length (extra_angles (snd t)))) tagged
     = clones (map snd tagged) octs.
Proof.
  revert kps tagged. induction octs as [| o octs IH]; intros [| kp kps] tagged Hlen H;
    try discriminate Hlen; cbn [combine] in H.
  - inversion H; subst. repeat split. constructor.
  - inversion H as [| kpo t l l' [Ht Hrel] Hrest]; subst.
    destruct (IH kps l') as (R1 & R2 & R3); [ simpl in Hlen; lia | exact Hrest | ].
    cbn [fst snd] in Ht. repeat split.
    + cbn [map]. constructor; assumption.
    + cbn [length]. lia.
    + unfold clones. cbn [flat_map map combine fst snd]. rewrite Ht. f_equal. exact R3.
Qed.

(** C10: when [_compute_orientation] returns for keypoints whose octaves are
    in ascending order and below [self.n_octaves] (the arrays
    [_find_localize_evaluate] returns are, see [find_localize_evaluate_shape]
    and [create_scalespace_length] below), every keypoint has an outcome
    (rejected, or the angles of the accepted peaks of its smoothed
    histogram), and the five arrays the method assigns have the same layout:
    first the keypoints that are not rejected, in their order, each with the
    angle of its first peak, and after all of them one copy of the keypoint
    (same position, scale, sigma and octave) for each further peak, with
    the angle of that peak. *)
Theorem clones_are_appended :
  forall (P : list (F * F)) (S : list Z) (G : list F) (octs : list Z)
         (gs : list (volume F)) (s s' : SIFT F)
         (gradientSpace : list (volume F * volume F * volume F)),
    length P = length octs ->
    length S = length octs ->
    length G = length octs ->
    StronglySorted Z.le octs ->
    Forall (fun o => 0 <= o < n_octaves (params s))%Z octs ->
    _compute_orientation orientation_histogram P S G octs gs s = (Ok gradientSpace, s') ->
    exists outs : list (option (list F)),
      Forall2 (outcome_rel orientation_histogram s gs)
              (combine (combine (combine P S) G) octs) outs /\
      positions s' = Some (firsts outs P ++ clones outs P) /\
      scales s' = Some (firsts outs S ++ clones outs S) /\
      sigmas s' = Some (firsts outs G ++ clones outs G) /\
      octaves s' = Some (firsts outs octs ++ clones outs octs) /\
      orientations s'
      = Some (firsts outs (map first_angle outs) ++ flat_map extra_angles outs).
Proof.
  intros P S G octs gs s s' gradientSpace HP HS HG Hsorted Hrange E.
  unfold _compute_orientation, bind, get_self, lift in E.
  destruct (rfold _ _ _) as [[g st] | e] eqn:Er; [ | discriminate E ].
  apply orient_octaves in Er. destruct Er as (tagged & Hvis & Hst).
  assert (Hkl : length (combine (combine P S) G) = length octs).
  { rewrite !length_combine. lia. }
  unfold zrange in Hvis. rewrite visited_sorted in Hvis; try assumption.
  2:{ eapply Forall_impl; [ | exact Hrange ]. cbv beta. intros o Ho.
      rewrite Z2Nat.id; lia. }
  destruct (tagged_octaves gs s _ octs tagged Hkl Hvis) as (Hrel & Hlen & Hoct).
  set (st0 := mkOri _ _ _ _ _ _) in Hst.
  destruct (record_outcomes_shape tagged st0 [] [] 0) as (Rv & Rb & Ri & Ra & Ro).
  { unfold st0. cbn [keypoints_valid app]. rewrite map_const_repeat. f_equal. lia. }
  { unfold st0. cbn [orientations_buf app]. rewrite map_const_repeat. f_equal. lia. }
  { reflexivity. }
  { reflexivity. }
  rewrite <- Hst in Rv, Rb, Ri, Ra, Ro.
  unfold st0 in Ri, Ra, Ro.
  cbn [app length repeat keypoint_indices keypoint_angles keypoint_octave] in *.
  rewrite app_nil_r in Rv, Rb.
  rewrite Ri in E.
  pose proof (take_indices_clones tagged [] P) as TP.
  pose proof (take_indices_clones tagged [] S) as TS.
  pose proof (take_indices_clones tagged [] G) as TG.
  cbn [app length] in TP, TS, TG.
  rewrite TP, TS, TG in E by lia.
  cbn [modify ret] in E. injection E as _ <-.
  exists (map snd tagged).
  split; [ exact Hrel | ].
  cbn [positions scales sigmas octaves orientations set_oriented].
  rewrite Rv, Rb, Ra, Ro, Hoct. unfold firsts.
  rewrite !map_map. cbn [snd].
  rewrite flat_map_concat_map, <- (map_map snd extra_angles), <- flat_map_concat_map.
  repeat split; reflexivity.
Qed.

End Orientation.

(** The theorem applies to a run on three keypoints of one octave, two of
    them with two peaks and one rejected. *)
Lemma clones_are_appended_witness :
  exists outs : list (option (list float)),
    Forall2 (outcome_rel equal_peaks_everywhere one_octave [flat_octave])
            (combine (combine (combine three_positions [1; 1; 2]%Z)
                        [of_int 1; of_int 1; of_int 1]) [0; 0; 0]%Z) outs /\
    positions (snd oriented_sample)
    = Some (firsts outs three_positions ++ clones outs three_positions) /\
    scales (snd oriented_sample)
    = Some (firsts outs [1; 1; 2]%Z ++ clones outs [1; 1; 2]%Z) /\
    sigmas (snd oriented_sample)
    = Some (firsts outs [of_int 1; of_int 1; of_int 1]
            ++ clones outs [of_int 1; of_int 1; of_int 1]) /\
    octaves (snd oriented_sample)
    = Some (firsts outs [0; 0; 0]%Z ++ clones outs [0; 0; 0]%Z) /\
    orientations (snd oriented_sample)
    = Some (firsts outs (map first_angle outs) ++ flat_map extra_angles outs).
Proof.
  apply (clones_are_appended equal_peaks_everywhere three_positions [1; 1; 2]%Z
           [of_int 1; of_int 1; of_int 1] [0; 0; 0]%Z [flat_octave] one_octave
           (snd oriented_sample) sample_gradient).
  - reflexivity.
  - reflexivity.
  - reflexivity.
  - repeat constructor; lia.
  - repeat constructor; vm_compute; congruence.
  - vm_compute. reflexivity.
Defined.

(** In that run the copies of the first and of the third keypoint follow
    the two keypoints that are kept. *)
Example oriented_sample_arrays :
  positions (snd oriented_sample)
  = Some [(of_int 8, of_int 8); (of_int 16, of_int 16);
          (of_int 8, of_int 8); (of_int 16, of_int 16)]
  /\ octaves (snd oriented_sample) = Some [0; 0; 0; 0]%Z
  /\ scales (snd oriented_sample) = Some [1; 2; 1; 2]%Z.
Proof. vm_compute. repeat split; reflexivity. Qed.

(** ** The arrays that reach the orientation stage *)

Section Pipeline.
Context {F : Type} {FA : Float64 F} {FL : Libm F} {FP : Lapack F}.
Variable rescale : image F -> Z -> image F.
Variable gaussian : image F -> F -> image F.
Variable peak_local_max : volume F -> F -> list idx3.

Lemma octave_indices_length {X : Type} (extrema : list (list X)) :
  forall i, length (octave_indices i extrema) = length (concat extrema).
Proof.
  induction extrema as [| p rest IH]; intro i; cbn [octave_indices concat].
  - reflexivity.
  - rewrite !length_app, repeat_length, IH. reflexivity.
Qed.

Lemma octave_indices_range {X : Type} (extrema : list (list X)) :
  forall i,
    Forall (fun o => i <= o < i + Z.of_nat (length extrema))%Z (octave_indices i extrema).
Proof.
  induction extrema as [| p rest IH]; intro i; cbn [octave_indices].
  - constructor.
  - apply Forall_app. split.
    + apply Forall_forall. intros o Ho. apply repeat_spec in Ho. subst o.
      cbn [length]. lia.
    + eapply Forall_impl; [ | apply (IH (i + 1)%Z) ]. cbv beta. intros o Ho.
      cbn [length]. lia.
Qed.

Lemma StronglySorted_app (l1 l2 : list Z) :
  StronglySorted Z.le l1 -> StronglySorted Z.le l2 ->
  (forall a b, In a l1 -> In b l2 -> (a <= b)%Z) ->
  StronglySorted Z.le (l1 ++ l2).
Proof.
  induction l1 as [| a l1 IH]; intros H1 H2 H; cbn [app].
  - exact H2.
  - inversion H1 as [| a' l' Hs Hall]; subst. constructor.
    + apply IH; [ exact Hs | exact H2 | ]. intros x y Hx Hy. apply H; [ right | ]; assumption.
    + apply Forall_app. split; [ exact Hall | ].
      apply Forall_forall. intros y Hy. apply H; [ left; reflexivity | exact Hy ].
Qed.

Lemma StronglySorted_repeat (i : Z) (n : nat) : StronglySorted Z.le (repeat i n).
Proof.
  induction n as [| n IH]; cbn [repeat]; constructor; [ exact IH | ].
  apply Forall_forall. intros o Ho. apply repeat_spec in Ho. lia.
Qed.

Lemma octave_indices_sorted {X : Type} (extrema : list (list X)) :
  forall i, StronglySorted Z.le (octave_indices i extrema).
Proof.
  induction extrema as [| p rest IH]; intro i; cbn [octave_indices].
  - constructor.
  - apply StronglySorted_app; [ apply StronglySorted_repeat | apply IH | ].
    intros a b Ha Hb. apply repeat_spec in Ha. subst a.
    pose proof (octave_indices_range rest (i + 1)%Z) as R.
    rewrite Forall_forall in R. specialize (R b Hb). lia.
Qed.

Lemma evaluate_octaves_length (self : SIFT F) (img_shape : Z * Z)
    (dogspace : list (volume F)) :
  forall (ds : list F) (o : Z) (extrema : list (list (F * F * Z * F))),
    evaluate_octaves peak_local_max self img_shape o dogspace ds = Ok extrema ->
    (length extrema <= length dogspace)%nat.
Proof.
  induction dogspace as [| octave dogspace IH]; intros ds o extrema E.
  - cbn [evaluate_octaves] in E. injection E as <-. cbn [length]. lia.
  - destruct ds as [| delta ds]; cbn [evaluate_octaves] in E.
    + injection E as <-. cbn [length]. lia.
    + destruct (evaluate_octave _ _ _ _ _ _) as [found | e]; cbn [rbind] in E;
        [ | discriminate E ].
      destruct (evaluate_octaves _ _ _ _ _ _) as [rest | e] eqn:Er; cbn [rbind] in E;
        [ | discriminate E ].
      injection E as <-. apply IH in Er. cbn [length]. lia.
Qed.

(** The arrays [_find_localize_evaluate] returns have one entry per
    keypoint; the octaves are in ascending order and below the number of
    octaves of the scale space. *)
Lemma find_localize_evaluate_shape (self : SIFT F) (dogspace : list (volume F))
    (img_shape : Z * Z) (P : list (F * F)) (S : list Z) (G : list F) (octs : list Z) :
  _find_localize_evaluate peak_local_max self dogspace img_shape = Ok (P, S, G, octs) ->
  length P = length octs /\ length S = length octs /\ length G = length octs
  /\ StronglySorted Z.le octs
  /\ Forall (fun o => 0 <= o < Z.of_nat (length dogspace))%Z octs.
Proof.
  unfold _find_localize_evaluate. intro E.
  destruct (evaluate_octaves _ _ _ _ _ _) as [extrema | e] eqn:Ee; cbn [rbind] in E;
    [ | discriminate E ].
  destruct extrema as [| p rest]; [ discriminate E | ].
  remember (p :: rest) as ex eqn:Hex in *. clear Hex.
  injection E as <- <- <- <-.
  rewrite !length_map, octave_indices_length.
  repeat split.
  - apply octave_indices_sorted.
  - apply evaluate_octaves_length in Ee.
    eapply Forall_impl; [ | apply octave_indices_range ]. cbv beta. intros o Ho. lia.
Qed.

Lemma build_octaves_length (p : Params F) (k : F) (os : list Z) :
  forall (im : image F) (current_sigma : F) (vs : list (volume F)) (rows : list (list F)),
    build_octaves gaussian p k os im current_sigma = Ok (vs, rows) ->
    length vs = length os.
Proof.
  induction os as [| o os IH]; intros im cs vs rows E; cbn [build_octaves] in E.
  - injection E as <- <-. reflexivity.
  - destruct (n_scales p + 3 =? 0)%Z; [ discriminate E | ].
    destruct (blur_scales _ _ _ _ _ _) as [ls sg].
    destruct (py_index (im :: ls) _) as [next | e]; cbn [rbind] in E; [ | discriminate E ].
    destruct (py_index (cs :: sg) _) as [cs' | e]; cbn [rbind] in E; [ | discriminate E ].
    destruct (build_octaves _ _ _ _ _ _) as [[vs' rows'] | e] eqn:Eb; cbn [rbind] in E;
      [ | discriminate E ].
    injection E as <- <-. cbn [length]. f_equal. exact (IH _ _ _ _ Eb).
Qed.

(** [_create_scalespace] returns [self.n_octaves] octaves and leaves the
    parameters as they are. *)
Lemma create_scalespace_length (im : image F) (s s' : SIFT F) (gs : list (volume F)) :
  _create_scalespace rescale gaussian im s = (Ok gs, s') ->
  Z.of_nat (length gs) = n_octaves (params s) /\ params s' = params s.
Proof.
  unfold _create_scalespace, bind, get_self, lift, modify, ret. intro E.
  destruct (_ || _)%bool eqn:Eneg; [ discriminate E | ].
  apply orb_false_iff in Eneg. destruct Eneg as [Eneg _]. apply Z.ltb_ge in Eneg.
  destruct (build_octaves _ _ _ _ _ _) as [[vs rows] | e] eqn:Eb; [ | discriminate E ].
  injection E as <- <-. apply build_octaves_length in Eb.
  split; [ | reflexivity ].
  rewrite Eb. unfold zrange. rewrite length_map, length_seq. lia.
Qed.

End Pipeline.

(** ** Lists, indices and loops *)

Lemma py_index_nth {X : Type} (d : X) (l : list X) (i : Z) :
  (0 <= i < Z.of_nat (length l))%Z -> py_index l i = Ok (nth (Z.to_nat i) l d).
Proof.
  intros [H0 H1]. unfold py_index.
  destruct (Z.ltb_spec i 0); [ lia | ].
  destruct (Z.leb_spec 0 i); [ | lia ].
  destruct (Z.ltb_spec i (Z.of_nat (length l))); [ | lia ].
  cbn [andb].
  destruct (nth_error l (Z.to_nat i)) as [x |] eqn:E.
  - rewrite (nth_error_nth _ _ d E). reflexivity.
  - apply nth_error_None in E. lia.
Qed.

Lemma nth_map_seq {X : Type} (f : nat -> X) (d : X) (n i : nat) :
  (i < n)%nat -> nth i (map f (seq 0 n)) d = f i.
Proof.
  intro H. rewrite (nth_indep _ d (f 0%nat)) by (rewrite length_map, length_seq; exact H).
  rewrite map_nth, seq_nth by exact H. reflexivity.
Qed.

Lemma blur_scales_lengths {F : Type} `{Float64 F} (gaussian : image F -> F -> image F)
    (n : nat) :
  forall (delta k : F) (prev : image F) (c : F),
    length (fst (blur_scales gaussian n delta k prev c)) = n
    /\ length (snd (blur_scales gaussian n delta k prev c)) = n.
Proof.
  induction n as [| n IH]; intros delta k prev c; [ split; reflexivity | ].
  cbn [blur_scales].
  match goal with
  | |- context [blur_scales gaussian n delta k ?l ?cs] =>
      pose proof (IH delta k l cs) as IH';
      destruct (blur_scales gaussian n delta k l cs) as [ls sg]
  end.
  cbn [fst snd length] in *. destruct IH' as [H1 H2]. split; f_equal; assumption.
Qed.

(** ** Operations that cannot return *)

Section Failures.
Context {F : Type} {FA : Float64 F} {FL : Libm F} {FP : Lapack F}.
Variable rescale : image F -> Z -> image F.
Variable gaussian : image F -> F -> image F.
Variable peak_local_max : volume F -> F -> list idx3.
Variable orientation_histogram :
  SIFT F -> volume F * volume F * volume F -> Z * Z -> Z * Z -> Z -> F * F -> F -> list F.
Variable descriptor_histogram :
  SIFT F -> volume F * volume F * volume F -> F -> F * F -> Z -> F -> F -> list F.

Lemma py_index_beyond {X : Type} (l : list X) (i : Z) :
  (Z.of_nat (length l) <= i)%Z -> py_index l i = Raise IndexError.
Proof.
  intro H. unfold py_index.
  destruct (i <? 0)%Z eqn:E; [ apply Z.ltb_lt in E; lia | ].
  destruct (0 <=? i)%Z; cbn [andb]; [ | reflexivity ].
  destruct (i <? Z.of_nat (length l))%Z eqn:E2; [ apply Z.ltb_lt in E2; lia | ].
  reflexivity.
Qed.

Lemma rfold_raises {S X : Type} (f : S -> X -> result S) (x : X) (l : list X) :
  In x l -> (forall acc, exists e, f acc x = Raise e) ->
  forall s, exists e, rfold f l s = Raise e.
Proof.
  intros Hin Hx. induction l as [| y l IH]; intro s; [ destruct Hin | ].
  cbn [rfold]. destruct Hin as [-> | Hin].
  - destruct (Hx s) as [e ->]. exists e. reflexivity.
  - destruct (f s y) as [s1 | e]; cbn [rbind]; [ apply (IH Hin) | exists e; reflexivity ].
Qed.

Lemma orient_octave_beyond (self : SIFT F) (P : list (F * F)) (S : list Z) (G : list F)
    (octs : list Z) (gs : list (volume F)) (o : Z) :
  (Z.of_nat (length (deltas (params self))) <= o)%Z ->
  forall acc, exists e,
    orient_octave orientation_histogram self P S G octs gs acc o = Raise e.
Proof.
  intros Ho [g st]. unfold orient_octave.
  destruct (py_index gs o) as [octave | e]; cbn [rbind]; [ | exists e; reflexivity ].
  destruct (np_gradient octave) as [grad | e]; cbn [rbind]; [ | exists e; reflexivity ].
  rewrite (py_index_beyond _ _ Ho). cbn [rbind]. exists IndexError. reflexivity.
Qed.

Lemma compute_orientation_raises (P : list (F * F)) (S : list Z) (G : list F)
    (octs : list Z) (gs : list (volume F)) (s : SIFT F) :
  (Z.of_nat (length (deltas (params s))) < n_octaves (params s))%Z ->
  exists e, _compute_orientation orientation_histogram P S G octs gs s = (Raise e, s).
Proof.
  intro H. unfold _compute_orientation, bind, get_self, lift.
  set (o := Z.of_nat (length (deltas (params s)))).
  destruct (rfold_raises
              (orient_octave orientation_histogram s P S G octs gs) o
              (zrange (n_octaves (params s)))) with (s := (@nil (volume F * volume F * volume F), mkOri (@nil nat) (@nil F) (@nil Z) (map (fun _ => true) G) (map (fun _ => of_int 0) G) 0%nat))
    as [e He].
  - unfold zrange. apply in_map, in_seq. unfold o in *. lia.
  - apply orient_octave_beyond. unfold o. lia.
  - rewrite He. exists e. reflexivity.
Qed.


Lemma assign_n_octaves_returns (im : image F) (s : SIFT F) (n : Z) :
  _number_of_octaves s (n_octaves (params s)) (ishape im) = Ok n ->
  assign_n_octaves im s = (Ok tt, set_params (set_n_octaves n (params s)) s).
Proof.
  intro E. unfold assign_n_octaves, bind, get_self, lift, modify. rewrite E. reflexivity.
Qed.

Lemma create_scalespace_params (im : image F) (s : SIFT F) :
  params (snd (_create_scalespace rescale gaussian im s)) = params s.
Proof.
  unfold _create_scalespace, bind, get_self, lift, modify, ret.
  destruct (_ || _)%bool; [ reflexivity | ].
  destruct (build_octaves _ _ _ _ _ _) as [[vs rows] | e]; reflexivity.
Qed.

(** X1: without a sampling distance for every octave the operations that assign
    orientations do not return. *)
Theorem operations_need_a_delta_per_octave :
  forall (im : image F) (s : SIFT F) (n : Z),
    _number_of_octaves s (n_octaves (params s)) (ishape im) = Ok n ->
    (Z.of_nat (length (deltas (params s))) < n)%Z ->
    (exists e s',
        detect rescale gaussian peak_local_max orientation_histogram im s
        = (Raise e, s'))
    /\ (exists e s',
           detect_and_extract rescale gaussian peak_local_max orientation_histogram
             descriptor_histogram im s
           = (Raise e, s')).
Proof.
  intros im s n En Hn.
  pose proof (assign_n_octaves_returns im s n En) as Ea.
  set (s1 := set_params (set_n_octaves n (params s)) s) in Ea.
  pose proof (create_scalespace_params im s1) as Ep.
  assert (Ho : forall P S G octs gs s2,
             params s2 = params s1 ->
             exists e,
               _compute_orientation orientation_histogram P S G octs gs s2
               = (Raise e, s2)).
  { intros P S G octs gs s2 E2. apply compute_orientation_raises.
    rewrite E2. exact Hn. }
  split.
  - unfold detect, bind at 1. rewrite Ea. unfold bind at 1.
    destruct (_create_scalespace rescale gaussian im s1) as [[gs | e] s2];
      [ | exists e, s2; reflexivity ].
    cbn [snd] in Ep. unfold bind, get_self, lift.
    destruct (_find_localize_evaluate _ _ _ _) as [[[[P S] G] octs] | e];
      [ | exists e, s2; reflexivity ].
    destruct (Ho P S G octs gs s2 Ep) as [e He]. rewrite He.
    exists e, s2. reflexivity.
  - unfold detect_and_extract, bind at 1. rewrite Ea. unfold bind at 1.
    destruct (_create_scalespace rescale gaussian im s1) as [[gs | e] s2];
      [ | exists e, s2; reflexivity ].
    cbn [snd] in Ep. unfold bind, get_self, lift.
    destruct (_find_localize_evaluate _ _ _ _) as [[[[P S] G] octs] | e];
      [ | exists e, s2; reflexivity ].
    destruct (Ho P S G octs gs s2 Ep) as [e He]. rewrite He.
    exists e, s2. reflexivity.
Qed.

Lemma create_scalespace_no_octave (im : image F) (s : SIFT F) :
  (n_octaves (params s) <= 0)%Z ->
  fst (_create_scalespace rescale gaussian im s) = Raise ValueError
  \/ fst (_create_scalespace rescale gaussian im s) = Ok [].
Proof.
  intro H. unfold _create_scalespace, bind, get_self, lift, modify, ret.
  destruct (_ || _)%bool; [ left; reflexivity | ].
  replace (zrange (n_octaves (params s))) with (@nil Z).
  - right. reflexivity.
  - unfold zrange. replace (Z.to_nat (n_octaves (params s))) with 0%nat by lia.
    reflexivity.
Qed.

(** Without an octave the model raises ValueError: from [np.empty] when the
    number of octaves is negative, from [np.hstack], given no array, when it
    is 0. *)
Lemma no_octave_ValueError (im : image F) (s : SIFT F) (n : Z) :
  _number_of_octaves s (n_octaves (params s)) (ishape im) = Ok n ->
  (n <= 0)%Z ->
  fst (detect rescale gaussian peak_local_max orientation_histogram im s)
  = Raise ValueError
  /\ fst (detect_and_extract rescale gaussian peak_local_max orientation_histogram
            descriptor_histogram im s)
     = Raise ValueError.
Proof.
  intros En Hn.
  pose proof (assign_n_octaves_returns im s n En) as Ea.
  set (s1 := set_params (set_n_octaves n (params s)) s) in Ea.
  pose proof (create_scalespace_no_octave im s1 Hn) as Hc.
  split.
  - unfold detect, bind at 1. rewrite Ea. unfold bind at 1.
    destruct (_create_scalespace rescale gaussian im s1) as [[gs | e] s2];
      cbn [fst] in Hc; destruct Hc as [Hc | Hc]; try discriminate Hc.
    + injection Hc as ->. reflexivity.
    + injection Hc as ->. reflexivity.
  - unfold detect_and_extract, bind at 1. rewrite Ea. unfold bind at 1.
    destruct (_create_scalespace rescale gaussian im s1) as [[gs | e] s2];
      cbn [fst] in Hc; destruct Hc as [Hc | Hc]; try discriminate Hc.
    + injection Hc as ->. reflexivity.
    + injection Hc as ->. reflexivity.
Qed.

(** X2: on an image too small for one octave (the number of octaves the
    operation assigns is 0 or negative) [detect] and [detect_and_extract]
    raise. *)
Theorem operations_need_an_octave :
  forall (im : image F) (s : SIFT F) (n : Z),
    _number_of_octaves s (n_octaves (params s)) (ishape im) = Ok n ->
    (n <= 0)%Z ->
    (exists e s',
        detect rescale gaussian peak_local_max orientation_histogram im s
        = (Raise e, s'))
    /\ (exists e s',
           detect_and_extract rescale gaussian peak_local_max orientation_histogram
             descriptor_histogram im s
           = (Raise e, s')).
Proof.
  intros im s n En Hn.
  destruct (no_octave_ValueError im s n En Hn) as [Hd He].
  split.
  - destruct (detect rescale gaussian peak_local_max orientation_histogram im s)
      as [[u | e] s'] eqn:E; cbn [fst] in Hd; [ discriminate Hd | ].
    exists e, s'. reflexivity.
  - destruct (detect_and_extract rescale gaussian peak_local_max orientation_histogram
                descriptor_histogram im s)
      as [[u | e] s'] eqn:E; cbn [fst] in He; [ discriminate He | ].
    exists e, s'. reflexivity.
Qed.

Lemma create_scalespace_keeps {A : Type} (proj : SIFT F -> A) (im : image F)
    (s : SIFT F) :
  (forall v s0, proj (set_scalespace_sigmas v s0) = proj s0) ->
  proj (snd (_create_scalespace rescale gaussian im s)) = proj s.
Proof.
  intro Hp. unfold _create_scalespace, bind, get_self, lift, modify, ret.
  destruct (_ || _)%bool; [ reflexivity | ].
  destruct (build_octaves _ _ _ _ _ _) as [[vs rows] | e]; [ apply Hp | reflexivity ].
Qed.

Lemma assign_n_octaves_keeps {A : Type} (proj : SIFT F -> A) (im : image F)
    (s : SIFT F) :
  (forall p s0, proj (set_params p s0) = proj s0) ->
  proj (snd (assign_n_octaves im s)) = proj s.
Proof.
  intro Hp. unfold assign_n_octaves, bind, get_self, lift, modify.
  destruct (_number_of_octaves _ _ _); [ apply Hp | reflexivity ].
Qed.

(** X3: [extract] on an instance that holds no keypoints raises and leaves
    [descriptors] as it is. *)
Theorem extract_needs_keypoints :
  forall (im : image F) (s : SIFT F),
    scales s = None ->
    exists e s',
      extract rescale gaussian descriptor_histogram im s = (Raise e, s')
      /\ descriptors s' = descriptors s.
Proof.
  intros im s Hs. unfold extract, bind at 1.
  pose proof (assign_n_octaves_keeps (@scales F) im s (fun _ _ => eq_refl)) as Hs1.
  pose proof (assign_n_octaves_keeps (@descriptors F) im s (fun _ _ => eq_refl)) as Hd1.
  destruct (assign_n_octaves im s) as [[[] | e] s1]; cbn [snd] in Hs1, Hd1;
    [ | exists e, s1; split; [ reflexivity | exact Hd1 ] ].
  unfold bind at 1.
  pose proof (create_scalespace_keeps (@scales F) im s1 (fun _ _ => eq_refl)) as Hs2.
  pose proof (create_scalespace_keeps (@descriptors F) im s1 (fun _ _ => eq_refl)) as Hd2.
  destruct (_create_scalespace rescale gaussian im s1) as [[gs | e] s2];
    cbn [snd] in Hs2, Hd2;
    [ | exists e, s2; split; [ reflexivity | congruence ] ].
  unfold bind at 1, lift at 1.
  destruct (rmap np_gradient gs) as [g | e];
    [ | exists e, s2; split; [ reflexivity | congruence ] ].
  unfold _compute_descriptor, bind, get_self, lift.
  replace (scales s2) with (@None (list Z)) by congruence.
  cbn [attr]. exists TypeError, s2. split; [ reflexivity | congruence ].
Qed.





End Failures.

(** ** The smoothing of the orientation histogram *)

Section Smoothing.
Context {F : Type} {FA : Float64 F}.

Lemma length_convolve_same (a : list F) :
  forall prev, length (convolve_same prev a) = length a.
Proof.
  induction a as [| x a IH]; intro prev; cbn [convolve_same length];
    [ reflexivity | f_equal; apply IH ].
Qed.

Lemma length_smoothings (j : nat) (a : list F) :
  length (Nat.iter j (convolve_same []) a) = length a.
Proof.
  induction j as [| j IH]; [ reflexivity | ].
  cbn [Nat.iter nat_rect]. change (nat_rect _ _ _ j) with (Nat.iter j (convolve_same []) a).
  rewrite length_convolve_same. exact IH.
Qed.

Lemma length_circular_convolve (h : list F) :
  length (circular_convolve h) = length h.
Proof. unfold circular_convolve. rewrite length_map, length_seq. reflexivity. Qed.

Lemma length_circular_smoothings (j : nat) (h : list F) :
  length (Nat.iter j circular_convolve h) = length h.
Proof.
  induction j as [| j IH]; [ reflexivity | ].
  cbn [Nat.iter nat_rect]. change (nat_rect _ _ _ j) with (Nat.iter j circular_convolve h).
  rewrite length_circular_convolve. exact IH.
Qed.

(** An entry of [np.convolve(a, np.ones(3) / 3, mode='same')] that has both
    neighbours. *)
Lemma convolve_same_after (d : F) (a : list F) :
  forall (p : F) (i : nat),
    (S i < length a)%nat ->
    nth i (convolve_same [p] a) d
    = fsum (map (fun t => fmul t (lit 1 3)) [nth i (p :: a) d; nth i a d; nth (S i) a d]).
Proof.
  induction a as [| x a IH]; intros p i Hi; cbn [length] in Hi; [ lia | ].
  destruct i as [| i].
  - destruct a as [| y a]; cbn [length] in Hi; [ lia | ]. reflexivity.
  - cbn [convolve_same nth]. rewrite IH by lia. reflexivity.
Qed.

Lemma convolve_same_inner (d : F) (a : list F) (i : nat) :
  (1 <= i)%nat -> (S i < length a)%nat ->
  nth i (convolve_same [] a) d
  = fsum (map (fun t => fmul t (lit 1 3)) [nth (i - 1) a d; nth i a d; nth (S i) a d]).
Proof.
  intros H1 Hi. destruct a as [| x a]; cbn [length] in Hi; [ lia | ].
  destruct i as [| i]; [ lia | ].
  cbn [convolve_same nth]. rewrite convolve_same_after by lia.
  replace (S i - 1)%nat with i by lia. reflexivity.
Qed.

Lemma circular_convolve_nth (d : F) (h : list F) (i : nat) :
  (i < length h)%nat ->
  nth i (circular_convolve h) d
  = fsum (map (fun t => fmul t (lit 1 3))
              [nth ((i + length h - 1) mod length h) h (of_int 0);
               nth i h (of_int 0);
               nth ((i + 1) mod length h) h (of_int 0)]).
Proof.
  intro Hi. unfold circular_convolve.
  rewrite (nth_indep _ d (of_int 0)) by (rewrite length_map, length_seq; exact Hi).
  set (g := fun i0 : nat => fsum _).
  rewrite (nth_indep _ (of_int 0) (g 0%nat)) by (rewrite length_map, length_seq; exact Hi).
  rewrite map_nth, seq_nth by exact Hi. reflexivity.
Qed.

(** The padded histogram holds the bins in circular order. *)
Lemma padded_nth (d : F) (hist : list F) (p : nat) :
  (3 <= length hist)%nat -> (p < length hist + 6)%nat ->
  nth p (lastn 3 hist ++ hist ++ firstn 3 hist) d
  = nth ((p + length hist - 3) mod length hist) hist d.
Proof.
  intros Hn Hp. set (n := length hist) in *.
  assert (Hl : length (lastn 3 hist) = 3%nat).
  { unfold lastn. rewrite length_skipn. fold n. lia. }
  destruct (Nat.lt_ge_cases p 3) as [H3 | H3].
  - rewrite app_nth1 by lia. unfold lastn. rewrite nth_skipn. fold n.
    rewrite Nat.mod_small by lia. f_equal. lia.
  - rewrite app_nth2 by lia. rewrite Hl.
    destruct (Nat.lt_ge_cases (p - 3) n) as [Hm | Hm].
    + rewrite app_nth1 by (fold n; lia).
      replace (p + n - 3)%nat with (p - 3 + 1 * n)%nat by lia.
      rewrite Nat.Div0.mod_add, Nat.mod_small by lia. reflexivity.
    + rewrite app_nth2 by (fold n; lia). fold n.
      rewrite nth_firstn.
      replace (p - 3 - n <? 3)%nat with true by (symmetry; apply Nat.ltb_lt; lia).
      replace (p + n - 3)%nat with (p - 3 - n + 2 * n)%nat by lia.
      rewrite Nat.Div0.mod_add, Nat.mod_small by lia. reflexivity.
Qed.

(** After [j] convolutions the entries at least [j] away from both ends of
    the padded array are those of [j] circular convolutions. *)
Lemma smoothings_circular_inside (hist : list F) (j : nat) :
  (3 <= length hist)%nat ->
  forall p : nat,
    (j <= p)%nat -> (p + j < length hist + 6)%nat ->
    nth p (Nat.iter j (convolve_same []) (lastn 3 hist ++ hist ++ firstn 3 hist))
        (of_int 0)
    = nth ((p + length hist - 3) mod length hist) (Nat.iter j circular_convolve hist)
          (of_int 0).
Proof.
  intro Hn. set (n := length hist) in *.
  set (P := lastn 3 hist ++ hist ++ firstn 3 hist).
  assert (HP : length P = (n + 6)%nat).
  { unfold P, lastn. rewrite !length_app, length_skipn, length_firstn. fold n. lia. }
  induction j as [| j IH]; intros p Hj Hp.
  - cbn [Nat.iter nat_rect]. apply padded_nth; fold n; lia.
  - cbn [Nat.iter nat_rect].
    change (nat_rect _ _ _ j) with (Nat.iter j (convolve_same []) P) at 1.
    change (nat_rect _ _ _ j) with (Nat.iter j circular_convolve hist) at 1.
    rewrite convolve_same_inner by (try rewrite length_smoothings, HP; lia).
    assert (Hmod : ((p + n - 3) mod n < n)%nat) by (apply Nat.mod_upper_bound; lia).
    rewrite circular_convolve_nth by (rewrite length_circular_smoothings; exact Hmod).
    rewrite length_circular_smoothings. fold n.
    rewrite !IH by lia.
    replace ((p + n - 3) mod n + n - 1)%nat with ((p + n - 3) mod n + (n - 1))%nat by lia.
    rewrite !Nat.Div0.add_mod_idemp_l.
    replace (p + n - 3 + (n - 1))%nat with (p - 1 + n - 3 + 1 * n)%nat by lia.
    rewrite Nat.Div0.mod_add.
    replace (p + n - 3 + 1)%nat with (S p + n - 3)%nat by lia.
    reflexivity.
Qed.

(** X5: away from the first three and the last three bins, every pass of
    the smoothing loop reads only bins of the histogram itself, so the
    smoothed bin is the one six passes of the circular three-tap average
    give; the histogram keeps its length. *)
Theorem smoothing_is_circular_inside :
  forall (hist : list F) (i : nat),
    (3 <= i)%nat -> (i + 3 < length hist)%nat ->
    length (smooth_histogram hist) = length hist
    /\ nth i (smooth_histogram hist) (of_int 0)
       = nth i (circular_smooth hist) (of_int 0).
Proof.
  intros hist i H3 Hi. unfold smooth_histogram, circular_smooth. cbv zeta.
  set (P := lastn 3 hist ++ hist ++ firstn 3 hist).
  assert (HP : length P = (length hist + 6)%nat).
  { unfold P, lastn. rewrite !length_app, length_skipn, length_firstn. lia. }
  rewrite length_smoothings, HP. split.
  - rewrite length_firstn, length_skipn, length_smoothings, HP. lia.
  - rewrite nth_firstn.
    replace (i <? length hist + 6 - 6)%nat with true by (symmetry; apply Nat.ltb_lt; lia).
    rewrite nth_skipn.
    rewrite (smoothings_circular_inside hist 6) by lia.
    replace (3 + i + length hist - 3)%nat with (i + 1 * length hist)%nat by lia.
    rewrite Nat.Div0.mod_add, Nat.mod_small by lia. reflexivity.
Qed.

End Smoothing.

Lemma smoothing_is_circular_inside_witness :
  (3 <= 10)%nat /\ (10 + 3 < length two_peaks)%nat
  /\ length (smooth_histogram two_peaks) = length two_peaks
  /\ nth 10 (smooth_histogram two_peaks) (of_int 0)
     = nth 10 (circular_smooth two_peaks) (of_int 0).
Proof.
  assert (H3 : (3 <= 10)%nat) by lia.
  assert (Hl : (10 + 3 < length two_peaks)%nat) by (vm_compute; lia).
  split; [ exact H3 | split; [ exact Hl | ] ].
  exact (smoothing_is_circular_inside two_peaks 10 H3 Hl).
Defined.

(** ** The descriptor stage *)

Section Descriptors.
Context {F : Type} {FA : Float64 F}.
Variable descriptor_histogram :
  SIFT F -> volume F * volume F * volume F -> F -> F * F -> Z -> F -> F -> list F.

Lemma mfor_modify {X : Type} (f : X -> SIFT F -> SIFT F) (l : list X) :
  forall s, mfor l (fun x => modify (f x)) s = (Ok tt, fold_left (fun s x => f x s) l s).
Proof.
  induction l as [| x l IH]; intro s; [ reflexivity | ].
  cbn [mfor fold_left]. unfold bind at 1, modify at 1. apply IH.
Qed.

Lemma write_rows (s : SIFT F) (g : (F * F) * Z * F * F -> list Z)
    (rows : list ((F * F) * Z * F * F * nat)) :
  forall d,
    fold_left (fun st (k : (F * F) * Z * F * F * nat) => write_row (snd k) (g (fst k)) st)
              rows (set_descriptors d s)
    = set_descriptors
        (fold_left (fun d (k : (F * F) * Z * F * F * nat) =>
                      list_set d (snd k) (Some (g (fst k)))) rows d) s.
Proof.
  induction rows as [| k rows IH]; intro d; [ reflexivity | ].
  cbn [fold_left]. rewrite <- IH. reflexivity.
Qed.

(** Writing the rows of the keypoints a mask selects. *)
Lemma masked_writes {K Y : Type} (g : K -> Y) (kps : list K) :
  forall (mask : list bool) (pre mid : list Y),
    length mask = length kps -> length mid = length kps ->
    fold_left (fun d (k : K * nat) => list_set d (snd k) (g (fst k)))
              (mask_select mask (combine kps (seq (length pre) (length kps))))
              (pre ++ mid)
    = pre ++ map (fun bky : bool * K * Y =>
                    if fst (fst bky) then g (snd (fst bky)) else snd bky)
                 (combine (combine mask kps) mid).
Proof.
  induction kps as [| k kps IH]; intros [| b mask] pre [| y mid] Hm Hd;
    try discriminate Hm; try discriminate Hd.
  - reflexivity.
  - cbn [length seq combine mask_select map fst snd].
    specialize (IH mask (pre ++ [if b then g k else y]) mid).
    rewrite length_app in IH. cbn [length] in IH.
    replace (length pre + 1)%nat with (S (length pre)) in IH by lia.
    rewrite <- app_assoc in IH. cbn [app] in IH.
    destruct b.
    + cbn [fold_left fst snd]. rewrite list_set_app.
      rewrite IH by (cbn [length] in *; lia).
      rewrite <- app_assoc. reflexivity.
    + rewrite IH by (cbn [length] in *; lia).
      rewrite <- app_assoc. reflexivity.
Qed.


Lemma mfor_ext {X : Type} (l : list X) (body1 body2 : X -> M F unit) :
  (forall x s, body1 x s = body2 x s) -> forall s, mfor l body1 s = mfor l body2 s.
Proof.
  intro H. induction l as [| x l IH]; intro s; [ reflexivity | ].
  cbn [mfor]. unfold bind. rewrite H. destruct (body2 x s) as [[[] | e] s1]; [ apply IH | reflexivity ].
Qed.

Section Loop.
Variable s : SIFT F.
Variable gsp : list (volume F * volume F * volume F).
Variable octs : list Z.
Variable kps : list ((F * F) * Z * F * F).
Variable body : Z -> M F unit.
Hypothesis Hlen : length octs = length kps.
Hypothesis body_spec :
  forall o d,
    length d = length kps ->
    body o (set_descriptors d s)
    = match py_index gsp o with
      | Ok gradient =>
          match py_index (deltas (params s)) o with
          | Ok delta =>
              (Ok tt,
               set_descriptors
                 (map (fun bky : bool * ((F * F) * Z * F * F) * option (list Z) =>
                         if fst (fst bky)
                         then Some (row_of descriptor_histogram (set_descriptors d s) gradient delta
                                           (snd (fst bky)))
                         else snd bky)
                      (combine (combine (map (Z.eqb o) octs) kps) d))
                 s)
          | Raise e => (Raise e, set_descriptors d s)
          end
      | Raise e => (Raise e, set_descriptors d s)
      end.

Lemma rows_after_octave (done : list Z) (o : Z)
    (gradient : volume F * volume F * volume F) (delta : F) (d0 : list (option (list Z))) :
  py_index gsp o = Ok gradient ->
  py_index (deltas (params s)) o = Ok delta ->
  forall (os : list Z) (ks : list ((F * F) * Z * F * F)) (d : list (option (list Z))),
    length os = length ks -> length d = length ks ->
    Forall2 (fun ko row =>
               descriptor_rel descriptor_histogram s gsp done
                 (fst ko, snd ko) row)
            (combine ks os) d ->
    Forall2 (fun ko row =>
               descriptor_rel descriptor_histogram s gsp (done ++ [o])
                 (fst ko, snd ko) row)
            (combine ks os)
            (map (fun bky : bool * ((F * F) * Z * F * F) * option (list Z) =>
                    if fst (fst bky)
                    then Some (row_of descriptor_histogram (set_descriptors d0 s) gradient delta (snd (fst bky)))
                    else snd bky)
                 (combine (combine (map (Z.eqb o) os) ks) d)).
Proof.
  intros Hg Hd os. induction os as [| o1 os IH]; intros [| k ks] [| y d] Hl1 Hl2 H;
    try discriminate Hl1; try discriminate Hl2; cbn [combine map]; [ constructor | ].
  cbn [combine] in H. inversion H as [| a b la lb Hab Hrest]; subst.
  constructor.
  - cbn [fst snd] in *. destruct k as [[[p scale] sigma] orientation].
    unfold descriptor_rel in *. destruct Hab as [Hin Hout].
    destruct (Z.eqb_spec o o1) as [-> | Hne].
    + split.
      * intros _. exists gradient, delta, d0. repeat split; assumption.
      * intro Hn. exfalso. apply Hn, in_or_app. right. left. reflexivity.
    + split.
      * intro Hi. apply in_app_or in Hi. destruct Hi as [Hi | [Hi | []]];
          [ exact (Hin Hi) | congruence ].
      * intro Hn. apply Hout. intro Hi. apply Hn, in_or_app. left. exact Hi.
  - apply IH; cbn [length] in *; try lia. exact Hrest.
Qed.

Lemma descriptor_octaves (os : list Z) :
  forall (done : list Z) (d : list (option (list Z))) (s' : SIFT F),
    length d = length kps ->
    Forall2 (fun ko row =>
               descriptor_rel descriptor_histogram s gsp done (fst ko, snd ko) row)
            (combine kps octs) d ->
    mfor os body (set_descriptors d s) = (Ok tt, s') ->
    exists d',
      s' = set_descriptors d' s
      /\ length d' = length kps
      /\ Forall2 (fun ko row =>
                    descriptor_rel descriptor_histogram s gsp (done ++ os)
                      (fst ko, snd ko) row)
                 (combine kps octs) d'.
Proof.
  induction os as [| o os IH]; intros done d s' Hd H E.
  - cbn [mfor] in E. injection E as <-. exists d. rewrite app_nil_r. repeat split; assumption.
  - cbn [mfor] in E. unfold bind at 1 in E. rewrite (body_spec o d Hd) in E.
    destruct (py_index gsp o) as [gradient | e] eqn:Eg; [ | discriminate E ].
    destruct (py_index (deltas (params s)) o) as [delta | e] eqn:Ed; [ | discriminate E ].
    apply (IH (done ++ [o])) in E.
    + destruct E as (d' & -> & Hl & Hf). exists d'.
      rewrite <- app_assoc in Hf. repeat split; assumption.
    + rewrite length_map, !length_combine, length_map. lia.
    + apply rows_after_octave; try assumption; lia.
Qed.

End Loop.


Lemma forall2_repeat_none (s : SIFT F) (gsp : list (volume F * volume F * volume F))
    (l : list ((F * F) * Z * F * F * Z)) :
  Forall2 (fun ko row =>
             descriptor_rel descriptor_histogram s gsp [] (fst ko, snd ko) row)
          l (repeat None (length l)).
Proof.
  induction l as [| [[[[p sc] sg] ori] o] l IH]; cbn [length repeat]; constructor;
    [ | exact IH ].
  split; [ intros [] | reflexivity ].
Qed.

(** X6: when [_compute_descriptor] returns it assigns [descriptors] one
    row for each keypoint, in the order of the keypoints: the row of a
    keypoint whose octave is among the octaves of the instance is the
    saturated, normalised histogram around that keypoint; the row of any
    other keypoint is left as allocated. *)
Theorem descriptors_describe_their_keypoints :
  forall (gsp : list (volume F * volume F * volume F)) (s s' : SIFT F)
         (pos : list (F * F)) (scs : list Z) (sgs oris : list F) (octs : list Z),
    positions s = Some pos ->
    scales s = Some scs ->
    sigmas s = Some sgs ->
    orientations s = Some oris ->
    octaves s = Some octs ->
    length pos = length scs ->
    length sgs = length scs ->
    length oris = length scs ->
    length octs = length scs ->
    _compute_descriptor descriptor_histogram gsp s = (Ok tt, s') ->
    exists d : list (option (list Z)),
      s' = set_descriptors d s
      /\ length d = length scs
      /\ Forall2 (descriptor_rel descriptor_histogram s gsp
                    (zrange (n_octaves (params s))))
                 (combine (combine (combine (combine pos scs) sgs) oris) octs) d.
Proof.
  intros gsp s s' pos scs sgs oris octs Hpos Hscs Hsgs Horis Hocts L1 L2 L3 L4 E.
  unfold _compute_descriptor in E.
  unfold bind at 1, get_self at 1 in E.
  unfold bind at 1, lift at 1 in E. rewrite Hscs in E. cbn [attr] in E.
  unfold bind at 1, modify at 1 in E.
  set (kps := combine (combine (combine pos scs) sgs) oris).
  assert (Hk : length kps = length scs).
  { unfold kps. rewrite !length_combine. lia. }
  match type of E with
  | mfor _ ?B _ = _ => set (body := B) in E
  end.
  assert (Hbody : forall o d,
             length d = length kps ->
             body o (set_descriptors d s)
             = match py_index gsp o with
               | Ok gradient =>
                   match py_index (deltas (params s)) o with
                   | Ok delta =>
                       (Ok tt,
                        set_descriptors
                          (map (fun bky : bool * ((F * F) * Z * F * F) * option (list Z) =>
                                  if fst (fst bky)
                                  then Some (row_of descriptor_histogram (set_descriptors d s) gradient delta
                                                    (snd (fst bky)))
                                  else snd bky)
                               (combine (combine (map (Z.eqb o) octs) kps) d))
                          s)
                   | Raise e => (Raise e, set_descriptors d s)
                   end
               | Raise e => (Raise e, set_descriptors d s)
               end).
  { intros o d Hd. unfold body, bind, get_self, lift.
    cbn [octaves positions scales sigmas orientations params set_descriptors].
    rewrite Hocts, Hpos, Hscs, Hsgs, Horis. cbn [attr].
    destruct (py_index gsp o) as [gradient | e]; [ | reflexivity ].
    destruct (py_index (deltas (params s)) o) as [delta | e]; [ | reflexivity ].
    rewrite !mask_select_combine. fold kps.
    rewrite (mfor_ext _ _
               (fun k : (F * F) * Z * F * F * nat =>
                  modify (write_row (snd k)
                            (row_of descriptor_histogram (set_descriptors d s) gradient delta (fst k))))).
    2:{ intros [[[[p sc] sg] ori] number] st. reflexivity. }
    rewrite mfor_modify.
    rewrite (write_rows s (row_of descriptor_histogram (set_descriptors d s) gradient delta)).
    f_equal. f_equal.
    rewrite <- Hk.
    exact (masked_writes (fun k => Some (row_of descriptor_histogram (set_descriptors d s) gradient delta k))
             kps (map (Z.eqb o) octs) [] d
             ltac:(rewrite length_map; lia) Hd). }
  destruct (descriptor_octaves s gsp octs kps body ltac:(lia) Hbody
              (zrange (n_octaves (params s))) [] (repeat None (length scs)) s')
    as (d & Hs' & Hl & Hf).
  - rewrite repeat_length. lia.
  - replace (length scs) with (length (combine kps octs))
      by (rewrite length_combine; lia).
    apply forall2_repeat_none.
  - exact E.
  - exists d. split; [ exact Hs' | ]. split; [ lia | ].
    cbn [app] in Hf. eapply Forall2_impl; [ | exact Hf ].
    intros [k o] row H. exact H.
Qed.

End Descriptors.

Lemma descriptors_describe_their_keypoints_witness :
  exists d : list (option (list Z)),
    snd described_sample = set_descriptors d oriented_instance
    /\ length d = length (some_list (scales oriented_instance))
    /\ Forall2 (descriptor_rel flat_descriptor oriented_instance sample_gradient
                  (zrange (n_octaves (params oriented_instance))))
               (combine
                  (combine
                     (combine
                        (combine (some_list (positions oriented_instance))
                                 (some_list (scales oriented_instance)))
                        (some_list (sigmas oriented_instance)))
                     (some_list (orientations oriented_instance)))
                  (some_list (octaves oriented_instance)))
               d.
Proof.
  apply (descriptors_describe_their_keypoints flat_descriptor sample_gradient
           oriented_instance (snd described_sample)
           (some_list (positions oriented_instance))
           (some_list (scales oriented_instance))
           (some_list (sigmas oriented_instance))
           (some_list (orientations oriented_instance))
           (some_list (octaves oriented_instance)));
    vm_compute; reflexivity.
Defined.

(** In that run every row is the descriptor of a flat histogram. *)
Example described_sample_rows :
  fst described_sample = Ok tt
  /\ length (some_list (descriptors (snd described_sample))) = 4%nat
  /\ Forall (fun row => row = Some (repeat 45%Z 128))
            (some_list (descriptors (snd described_sample))).
Proof. vm_compute. repeat constructor. Qed.

(** ** The scale space *)

Section Shapes.
Context {F : Type} {FA : Float64 F} {FL : Libm F}.
Variable rescale : image F -> Z -> image F.
Variable gaussian : image F -> F -> image F.
Hypothesis gaussian_shape : forall im sigma, ishape (gaussian im sigma) = ishape im.

Lemma blur_scales_shapes (n : nat) :
  forall (delta k : F) (prev : image F) (c : F),
    Forall (fun l => ishape l = ishape prev) (fst (blur_scales gaussian n delta k prev c)).
Proof.
  induction n as [| n IH]; intros delta k prev c; [ constructor | ].
  cbn [blur_scales].
  match goal with
  | |- context [blur_scales gaussian n delta k ?l ?cs] =>
      pose proof (IH delta k l cs) as IH';
      destruct (blur_scales gaussian n delta k l cs) as [ls sg]
  end.
  cbn [fst] in *. constructor; [ apply gaussian_shape | ].
  eapply Forall_impl; [ | exact IH' ]. intros l Hl. cbv beta in Hl.
  rewrite Hl. apply gaussian_shape.
Qed.

Lemma half_shape_iter (o : nat) (shape : Z * Z) :
  Nat.iter o half_shape (half_shape shape) = half_shape (Nat.iter o half_shape shape).
Proof.
  induction o as [| o IH]; [ reflexivity | ].
  cbn [Nat.iter nat_rect]. f_equal. exact IH.
Qed.

Lemma ceil_half (x d : Z) :
  (0 < d)%Z -> (((x + d - 1) / d + 1) / 2 = (x + 2 * d - 1) / (2 * d))%Z.
Proof.
  intro Hd.
  replace ((x + d - 1) / d + 1)%Z with ((x + d - 1 + 1 * d) / d)%Z
    by (rewrite Z.div_add by lia; reflexivity).
  rewrite Z.div_div by lia.
  f_equal; lia.
Qed.

Lemma halved_closed (o : nat) (shape : Z * Z) :
  Nat.iter o half_shape shape
  = ((fst shape + 2 ^ Z.of_nat o - 1) / 2 ^ Z.of_nat o,
     (snd shape + 2 ^ Z.of_nat o - 1) / 2 ^ Z.of_nat o)%Z.
Proof.
  destruct shape as [r c]. induction o as [| o IH].
  - cbn [Nat.iter nat_rect fst snd]. change (2 ^ Z.of_nat 0)%Z with 1%Z.
    rewrite !Z.div_1_r. f_equal; lia.
  - cbn [Nat.iter nat_rect]. change (nat_rect _ _ _ o) with (Nat.iter o half_shape (r, c)).
    rewrite IH. unfold half_shape. cbn [fst snd].
    assert (Hp : (0 < 2 ^ Z.of_nat o)%Z) by (apply Z.pow_pos_nonneg; lia).
    replace (2 ^ Z.of_nat (S o))%Z with (2 * 2 ^ Z.of_nat o)%Z
      by (rewrite Nat2Z.inj_succ, Z.pow_succ_r by lia; reflexivity).
    rewrite !ceil_half by exact Hp. reflexivity.
Qed.

Lemma build_octaves_shapes (p : Params F) (k : F) (os : list Z) :
  (0 <= n_scales p)%Z ->
  forall (im : image F) (c : F),
  exists vs rows,
    build_octaves gaussian p k os im c = Ok (vs, rows)
    /\ length vs = length os
    /\ forall (o : nat) (d : volume F),
         (o < length os)%nat ->
         vshape (nth o vs d)
         = (fst (Nat.iter o half_shape (ishape im)),
            snd (Nat.iter o half_shape (ishape im)), n_scales p + 3)%Z.
Proof.
  intro Hns. induction os as [| o1 os IH]; intros im c.
  - exists [], []. repeat split. intros o d Ho. cbn [length] in Ho. lia.
  - cbn [build_octaves].
    destruct (Z.eqb_spec (n_scales p + 3) 0) as [E0 | _]; [ lia | ].
    pose proof (blur_scales_lengths gaussian (Z.to_nat (n_scales p + 2))
                  (fmul (delta_min p) (of_int (2 ^ o1))) k im c) as [Hl Hsg].
    pose proof (blur_scales_shapes (Z.to_nat (n_scales p + 2))
                  (fmul (delta_min p) (of_int (2 ^ o1))) k im c) as Hs.
    destruct (blur_scales gaussian (Z.to_nat (n_scales p + 2)) _ k im c) as [ls sg] eqn:Eb.
    cbn [fst snd] in Hl, Hs, Hsg.
    rewrite (py_index_nth im (im :: ls) (n_scales p)) by (cbn [length]; lia).
    cbn [rbind].
    rewrite (py_index_nth c (c :: sg) (n_scales p)) by (cbn [length]; lia).
    cbn [rbind].
    set (next := nth (Z.to_nat (n_scales p)) (im :: ls) im).
    assert (Hnext : ishape next = ishape im).
    { unfold next. destruct (Z.to_nat (n_scales p)) as [| j] eqn:Ej; [ reflexivity | ].
      cbn [nth]. rewrite Forall_forall in Hs. apply Hs. apply nth_In. lia. }
    destruct (IH (subsample next) (nth (Z.to_nat (n_scales p)) (c :: sg) c))
      as (vs & rows & Hv & Hlen & Hsh).
    rewrite Hv. cbn [rbind].
    do 2 eexists. split; [ reflexivity | ].
    split; [ cbn [length]; f_equal; exact Hlen | ].
    intros o d Ho. destruct o as [| o].
    + cbn [nth Nat.iter nat_rect stack vshape length]. f_equal. lia.
    + cbn [nth]. rewrite Hsh by (cbn [length] in Ho; lia).
      replace (ishape (subsample next)) with (half_shape (ishape im)).
      2:{ unfold subsample, half_shape. rewrite <- Hnext.
          destruct (ishape next) as [r cc]. reflexivity. }
      rewrite half_shape_iter. reflexivity.
Qed.

Lemma create_scalespace_shapes :
  forall (im : image F) (s : SIFT F),
    (0 <= n_scales (params s))%Z ->
    (0 <= n_octaves (params s))%Z ->
    exists gs sig,
      _create_scalespace rescale gaussian im s = (Ok gs, set_scalespace_sigmas sig s)
      /\ length gs = Z.to_nat (n_octaves (params s))
      /\ forall (o : nat) (d : volume F),
           (o < length gs)%nat ->
           vshape (nth o gs d)
           = ((fst (ishape (upsampled rescale s im)) + 2 ^ Z.of_nat o - 1)
              / 2 ^ Z.of_nat o,
              (snd (ishape (upsampled rescale s im)) + 2 ^ Z.of_nat o - 1)
              / 2 ^ Z.of_nat o,
              n_scales (params s) + 3)%Z.
Proof.
  intros im s Hns Hno.
  unfold _create_scalespace, bind, get_self, lift, modify, ret.
  destruct (Z.ltb_spec (n_octaves (params s)) 0) as [H | _]; [ lia | ].
  destruct (Z.ltb_spec (n_scales (params s) + 3) 0) as [H | _]; [ lia | ].
  cbn [orb]. fold (upsampled rescale s im).
  match goal with
  | |- context [build_octaves gaussian ?p ?k ?os ?i ?c] =>
      destruct (build_octaves_shapes p k os Hns i c) as (vs & rows & Hv & Hl & Hsh)
  end.
  rewrite Hv. exists vs, rows.
  unfold zrange in Hl, Hsh. rewrite length_map, length_seq in Hl, Hsh.
  split; [ reflexivity | ]. split; [ exact Hl | ].
  intros o d Ho. rewrite Hsh by lia.
  rewrite gaussian_shape, halved_closed. reflexivity.
Qed.

(** X8: with a [gaussian] that keeps the shape of its image, the scale space
    [_create_scalespace] returns has [n_octaves] octaves of [n_scales + 3]
    layers; octave [o] has the rows and columns of the upsampled image
    halved [o] times, rounding up. *)
Theorem scalespace_octaves_halve :
  forall (im : image F) (s s' : SIFT F) (gs : list (volume F)),
    (1 <= n_scales (params s))%Z ->
    _create_scalespace rescale gaussian im s = (Ok gs, s') ->
    length gs = Z.to_nat (n_octaves (params s))
    /\ forall (o : nat) (d : volume F),
         (o < length gs)%nat ->
         vshape (nth o gs d)
         = ((fst (ishape (upsampled rescale s im)) + 2 ^ Z.of_nat o - 1)
            / 2 ^ Z.of_nat o,
            (snd (ishape (upsampled rescale s im)) + 2 ^ Z.of_nat o - 1)
            / 2 ^ Z.of_nat o,
            n_scales (params s) + 3)%Z.
Proof.
  intros im s s' gs Hns E.
  destruct (Z.ltb_spec (n_octaves (params s)) 0) as [Hneg | Hno].
  - exfalso. revert E.
    unfold _create_scalespace, bind, get_self, lift, modify, ret.
    destruct (Z.ltb_spec (n_octaves (params s)) 0) as [_ | H]; [ | lia ].
    cbn [orb]. discriminate.
  - destruct (create_scalespace_shapes im s ltac:(lia) Hno)
      as (gs0 & sig & E0 & Hl & Hsh).
    rewrite E0 in E. injection E as <- _. split; [ exact Hl | exact Hsh ].
Qed.

End Shapes.

(** ** Exact arithmetic: deciding comparisons *)

Local Open Scope R_scope.

Lemma Rltb_true (a b : R) : (a < b)%R -> Rltb a b = true.
Proof. intro Hab. unfold Rltb. destruct (Rlt_dec a b); [ reflexivity | contradiction ]. Qed.

Lemma Rltb_false (a b : R) : (b <= a)%R -> Rltb a b = false.
Proof. intro Hab. unfold Rltb. destruct (Rlt_dec a b); [ lra | reflexivity ]. Qed.

Lemma Rleb_true (a b : R) : (a <= b)%R -> Rleb a b = true.
Proof. intro Hab. unfold Rleb. destruct (Rle_dec a b); [ reflexivity | contradiction ]. Qed.

Lemma Rleb_false (a b : R) : (b < a)%R -> Rleb a b = false.
Proof. intro Hab. unfold Rleb. destruct (Rle_dec a b); [ lra | reflexivity ]. Qed.

Lemma Reqb_true (a b : R) : a = b -> Reqb a b = true.
Proof. intro Hab. unfold Reqb. destruct (Req_dec_T a b); [ reflexivity | contradiction ]. Qed.

Lemma Reqb_false (a b : R) : a <> b -> Reqb a b = false.
Proof. intro Hab. unfold Reqb. destruct (Req_dec_T a b); [ contradiction | reflexivity ]. Qed.

(** Decide the comparisons of real constants in the goal. *)
Ltac xdecide :=
  repeat match goal with
  | |- context [Reqb ?a ?b] =>
      first [ rewrite (@Reqb_true a b) by lra | rewrite (@Reqb_false a b) by lra ]
  | |- context [Rltb ?a ?b] =>
      first [ rewrite (@Rltb_true a b) by lra | rewrite (@Rltb_false a b) by lra ]
  | |- context [Rleb ?a ?b] =>
      first [ rewrite (@Rleb_true a b) by lra | rewrite (@Rleb_false a b) by lra ]
  end.

Ltac xeval := repeat (progress (simpl; xdecide)).

(** Equalities between results that hold entry by entry over the reals. *)
Ltac rnum := first [ reflexivity | lra | field; lra ].

Ltac xfin :=
  repeat match goal with
  | |- Ok _ = Ok _ => apply f_equal
  | |- (_, _) = (_, _) => apply f_equal2
  | |- _ :: _ = _ :: _ => apply f_equal2
  | |- Fin _ = Fin _ => apply f_equal; rnum
  | |- _ => reflexivity
  end.


Lemma Rleb_iff (a b : R) : Rleb a b = true <-> (a <= b)%R.
Proof.
  unfold Rleb. destruct (Rle_dec a b); split; intro; try assumption;
    try reflexivity; try discriminate; contradiction.
Qed.

Lemma Int_part_IZR (z : Z) : Int_part (IZR z) = z.
Proof. symmetry. apply Int_part_spec. lra. Qed.

(** ** The contrast threshold *)

Lemma cube_root_2_gt_1 : (1 < Rpower 2 (1 / 3))%R.
Proof.
  rewrite <- (Rpower_O 2) at 1 by lra.
  apply Rpower_lt; lra.
Qed.

Lemma init_c_dog (a : Args xreal) (self0 : SIFT xreal) (c : R) :
  __init__ a = Ok self0 ->
  arg_c_dog a = Fin c ->
  arg_n_scales a <> 0%Z /\
  n_scales (params self0) = arg_n_scales a /\
  c_dog (params self0) = Fin (final_c_dog (arg_n_scales a) c).
Proof.
  intros E Hc. unfold __init__ in E.
  destruct (_ || _)%bool; [ | discriminate E ].
  destruct (arg_n_scales a =? 0)%Z eqn:En; [ discriminate E | ].
  apply Z.eqb_neq in En. injection E as <-. simpl.
  split; [ exact En | split; [ reflexivity | ] ].
  rewrite Hc. unfold xsub, xpow, xdiv, xadd, xopp, xmul.
  assert (Hn : IZR (arg_n_scales a) <> 0%R) by (apply not_0_IZR; exact En).
  rewrite (Reqb_false _ _ Hn).
  rewrite (Reqb_false 3 0) by lra.
  rewrite (Rltb_true 0 2) by lra.
  pose proof cube_root_2_gt_1 as H3.
  rewrite Reqb_false by lra.
  reflexivity.
Qed.

(** The constructor accepts the default arguments, also with another
    number of scales. *)
Lemma init_with_n_scales (n : Z) :
  n <> 0%Z -> exists self0, __init__ (with_n_scales n default_args) = Ok self0.
Proof.
  intro Hn. unfold __init__, with_n_scales. simpl.
  apply Z.eqb_neq in Hn. rewrite Hn. eexists. reflexivity.
Qed.


Lemma default_c_dog (n : Z) :
  arg_c_dog (with_n_scales n default_args) = Fin (4 / 100 / 3).
Proof. unfold with_n_scales, default_args, lit. xeval. reflexivity. Qed.


Lemma final_c_dog_3 (c : R) : final_c_dog 3 c = c.
Proof.
  unfold final_c_dog. pose proof cube_root_2_gt_1. field. lra.
Qed.





(** ** The number of octaves *)

Lemma number_of_octaves_12 (s0 : SIFT xreal) :
  __init__ default_args = Ok s0 ->
  _number_of_octaves s0 8 (12, 12)%Z = Ok 2%Z.
Proof.
  intro E. unfold __init__ in E. simpl in E. injection E as <-.
  unfold _number_of_octaves, py_int, minimum, isnan. simpl.
  change (Z.min 12 12) with 12%Z.
  pose proof ln_lt_2 as L2.
  xeval.
  replace (12 / 12)%R with 1%R by lra. rewrite ln_1.
  xeval.
  replace (0 / ln 2 + 2)%R with (IZR 2) by lra.
  rewrite Int_part_IZR. reflexivity.
Qed.

(** C5 (counterexample): on an instance built with the default arguments,
    [detect] on a 12 by 12 image changes [n_octaves] from 8 to 2, whatever
    the stages after the assignment compute. *)
Lemma detect_changes_n_octaves :
  exists (s0 : SIFT xreal) (im : image xreal),
    __init__ default_args = Ok s0 /\
    ishape im = (12, 12)%Z /\
    n_octaves (params s0) = 8%Z /\
    forall rescale gaussian peak_local_max orientation_histogram,
      n_octaves
        (params (snd (detect rescale gaussian peak_local_max
                        orientation_histogram im s0)))
      = 2%Z.
Proof.
  destruct (init_with_n_scales 3) as [s0 E]; [ discriminate | ].
  change (with_n_scales 3 default_args) with (default_args : Args xreal) in E.
  exists s0, (mkImage (12, 12)%Z (fun _ _ => Fin 0)).
  assert (H8 : n_octaves (params s0) = 8%Z).
  { unfold __init__ in E. simpl in E. injection E as <-. reflexivity. }
  split; [ exact E | split; [ reflexivity | split; [ exact H8 | ] ] ].
  intros rescale gaussian peak_local_max orientation_histogram.
  rewrite params_after_detect. unfold reassigned_n_octaves.
  rewrite H8. simpl ishape.
  rewrite (number_of_octaves_12 s0 E). reflexivity.
Qed.

(** ** The edge filter *)

Lemma eig_sum_prod (a b d : R) :
  let disc := (a - d) * (a - d) + 4 * b * b in
  let e0 := (a + d - R_sqrt.sqrt disc) / 2 in
  let e1 := (a + d + R_sqrt.sqrt disc) / 2 in
  0 <= disc /\ e1 + e0 = a + d /\ e1 * e0 = a * d - b * b.
Proof.
  intros disc e0 e1.
  assert (Hd : 0 <= disc).
  { unfold disc. pose proof (Rle_0_sqr (a - d)) as H1. pose proof (Rle_0_sqr b) as H2.
    unfold Rsqr in H1, H2. lra. }
  pose proof (sqrt_sqrt disc Hd) as Hs.
  split; [ exact Hd | split ].
  - unfold e0, e1. lra.
  - unfold e0, e1.
    transitivity (((a + d) * (a + d) - R_sqrt.sqrt disc * R_sqrt.sqrt disc) / 4);
      [ field | ].
    rewrite Hs. unfold disc. field.
Qed.


Lemma edge_filter_spec (self : SIFT xreal) (h : mat3 xreal) (c a b d : R) :
  c_edge (params self) = Fin c ->
  c <> 0 ->
  sub_hessian h = ((Fin a, Fin b), (Fin b, Fin d)) ->
  edge_filter self h = true
  <-> (det2 a b d <> 0 /\
       tr2 a d * tr2 a d <= (c + 1) * (c + 1) / c * Rabs (det2 a b d)).
Proof.
  intros Hc Hc0 Hh. unfold edge_filter, edge_threshold. rewrite Hh, Hc.
  simpl. 
  destruct (eig_sum_prod a b d) as (Hd & Hsum & Hprod).
  rewrite Rltb_false by exact Hd.
  simpl.
  rewrite Hsum, Hprod. rewrite (Reqb_false c 0 Hc0).
  fold (tr2 a d). fold (det2 a b d).
  set (T := tr2 a d). set (D := det2 a b d).
  destruct (Req_dec_T D 0) as [HD | HD].
  - rewrite (Reqb_true _ _ HD).
    split; [ | intros [H _]; contradiction ].
    destruct (Reqb (T * T) 0); simpl; discriminate.
  - rewrite (Reqb_false _ _ HD). simpl.
    rewrite Rleb_iff.
    assert (HT : 0 <= T * T) by nra.
    assert (HA : 0 < Rabs D) by (apply Rabs_pos_lt; exact HD).
    unfold Rdiv at 1. rewrite Rabs_mult, Rabs_inv, (Rabs_pos_eq _ HT).
    split.
    + intro H. split; [ exact HD | ].
      apply Rmult_le_compat_r with (r := Rabs D) in H; [ | lra ].
      rewrite Rmult_assoc, Rinv_l in H by lra. lra.
    + intros [_ H].
      apply Rmult_le_reg_r with (Rabs D); [ exact HA | ].
      rewrite Rmult_assoc, Rinv_l by lra. lra.
Qed.

(** C2 (amended): for a nonzero [c_edge] and a finite spatial sub-Hessian,
    a candidate passes the edge filter exactly when [det(H_xy)] is not zero
    and [tr(H_xy)^2 <= (c_edge+1)^2/c_edge * |det(H_xy)|], that is when
    [|tr^2/det| <= (c_edge+1)^2/c_edge]: the sign of the determinant is not
    tested. *)
Theorem edge_filter_tests_absolute_ratio :
  forall (self : SIFT xreal) (h : mat3 xreal) (c a b d : R),
    c_edge (params self) = Fin c ->
    c <> 0 ->
    sub_hessian h = ((Fin a, Fin b), (Fin b, Fin d)) ->
    edge_filter self h = true
    <-> (det2 a b d <> 0 /\
         tr2 a d * tr2 a d <= (c + 1) * (c + 1) / c * Rabs (det2 a b d)).
Proof.
  intros self h c a b d Hc Hc0 Hh. apply edge_filter_spec; assumption.
Qed.

Lemma default_c_edge (s0 : SIFT xreal) :
  __init__ default_args = Ok s0 -> c_edge (params s0) = Fin 10.
Proof.
  intro E. unfold __init__ in E. simpl in E. injection E as <-. reflexivity.
Qed.

Lemma ridge_sub_hessian :
  exists a b d : R,
    sub_hessian (_hessian ridge_octave (1, 1, 1)%Z) = ((Fin a, Fin b), (Fin b, Fin d))
    /\ a = -4 /\ b = 9 /\ d = -4.
Proof.
  unfold _hessian, ridge_octave, int_volume, lit. xeval.
  do 3 eexists. split; [ reflexivity | ]. repeat split; lra.
Qed.

Lemma edge_filter_tests_absolute_ratio_witness :
  exists (s0 : SIFT xreal) (a b d : R),
    c_edge (params s0) = Fin 10 /\
    10 <> 0 /\
    sub_hessian (_hessian ridge_octave (1, 1, 1)%Z) = ((Fin a, Fin b), (Fin b, Fin d)) /\
    (edge_filter s0 (_hessian ridge_octave (1, 1, 1)%Z) = true
     <-> (det2 a b d <> 0 /\
          tr2 a d * tr2 a d <= (10 + 1) * (10 + 1) / 10 * Rabs (det2 a b d))).
Proof.
  destruct (init_with_n_scales 3) as [s0 E]; [ discriminate | ].
  destruct ridge_sub_hessian as (a & b & d & Hh & _).
  exists s0, a, b, d.
  assert (H10 : 10 <> 0) by lra.
  split; [ exact (default_c_edge s0 E) | split; [ exact H10 | split; [ exact Hh | ] ] ].
  exact (edge_filter_tests_absolute_ratio s0 _ 10 a b d (default_c_edge s0 E) H10 Hh).
Defined.

(** C2 (counterexample): at the centre of [ridge_octave], a strict local
    maximum, the spatial sub-Hessian is [[-4, 9], [9, -4]], of determinant
    -65; the candidate passes the edge filter of an instance with the
    default [c_edge] although [det(H_xy) <= 0]. *)
Lemma edge_filter_keeps_negative_determinant :
  exists (s0 : SIFT xreal) (a b d : R),
    __init__ default_args = Ok s0 /\
    sub_hessian (_hessian ridge_octave (1, 1, 1)%Z) = ((Fin a, Fin b), (Fin b, Fin d)) /\
    a = -4 /\ b = 9 /\ d = -4 /\
    edge_filter s0 (_hessian ridge_octave (1, 1, 1)%Z) = true /\
    det2 a b d <= 0.
Proof.
  destruct (init_with_n_scales 3) as [s0 E]; [ discriminate | ].
  destruct ridge_sub_hessian as (a & b & d & Hh & Ha & Hb & Hd).
  exists s0, a, b, d.
  assert (HD : det2 a b d = -65) by (unfold det2; subst; lra).
  repeat (split; [ assumption | ]).
  split; [ | lra ].
  apply (edge_filter_spec s0 _ 10 a b d (default_c_edge s0 E)); [ lra | exact Hh | ].
  rewrite HD. split; [ lra | ].
  rewrite Rabs_left by lra. unfold tr2. subst. lra.
Qed.

(** ** The localization loop *)

Section Localization.
Context {F : Type} {FA : Float64 F} {FL : Libm F} {FP : Lapack F}.
Variable peak_local_max : volume F -> F -> list idx3.

Lemma localize_step (more : nat) (octave : volume F)
    (grad : volume F * volume F * volume F) (still_in : list bool) (keys : list idx3) :
  localize more octave grad still_in keys
  = rbind (iter_solve octave grad still_in keys) (fun off =>
      let done :=
        Ok (keys,
            map (jacobian grad)
                (mask_select (iter_still_in (vshape octave) still_in keys) keys),
            map (_hessian octave) keys, off) in
      match more with
      | O => done
      | S more' =>
          if negb (iter_wrong (vshape octave) off keys) then done
          else localize more' octave grad
                 (iter_still_in (vshape octave) still_in keys)
                 (iter_shift (vshape octave) off keys)
      end).
Proof. destruct more; reflexivity. Qed.


Lemma rmap_length {A B : Type} (f : A -> result B) (l : list A) (l' : list B) :
  rmap f l = Ok l' -> length l' = length l.
Proof.
  revert l'. induction l as [| a l IH]; simpl; intros l' E.
  - injection E as <-. reflexivity.
  - destruct (f a) as [b | e]; simpl in E; [ | discriminate E ].
    destruct (rmap f l) as [bs | e]; simpl in E; [ | discriminate E ].
    injection E as <-. simpl. f_equal. apply IH. reflexivity.
Qed.

Lemma solve_all_length (Hs : list (mat3 F)) (Js off : list (vec3 F)) :
  solve_all Hs Js = Ok off -> length off = length Hs /\ length Js = length Hs.
Proof.
  unfold solve_all. destruct (length Hs =? length Js)%nat eqn:E; [ | discriminate ].
  apply Nat.eqb_eq in E. intro R. apply rmap_length in R.
  rewrite length_combine in R. lia.
Qed.

Lemma mask_select_all {X : Type} (l : list X) :
  mask_select (map (fun _ => true) l) l = l.
Proof. induction l as [| x l IH]; simpl; [ reflexivity | f_equal; exact IH ]. Qed.

Lemma still_in_all_inside dim still_in keys :
  all_inside dim still_in keys ->
  iter_still_in dim still_in keys = map (fun _ => true) keys.
Proof.
  intros [-> Hin]. unfold iter_still_in.
  induction Hin as [| k keys Hk _ IH]; simpl; [ reflexivity | ].
  rewrite Hk. f_equal. exact IH.
Qed.


Lemma iter_shift_map dim (off : list (vec3 F)) keys :
  iter_shift dim off keys
  = map (fun ok => shift_key (wrong_position_pos dim (fst ok) (snd ok))
                             (wrong_position_neg (fst ok) (snd ok)) (snd ok))
        (combine off keys).
Proof.
  unfold iter_shift, iter_pos, iter_neg. revert keys.
  induction off as [| o off IH]; intros [| k keys]; simpl; try reflexivity.
  f_equal. apply IH.
Qed.




(** What the body of a later octave raises, [_find_localize_evaluate]
    raises, when the octaves before it are evaluated. *)
Lemma evaluate_octaves_raise (self : SIFT F) (img_shape : Z * Z) (e : exn)
    (pre : list (volume F)) (dpre : list F) (octave : volume F) (delta : F)
    (post : list (volume F)) (dpost : list F) (o : Z)
    (found : list (list (F * F * Z * F))) :
  length pre = length dpre ->
  evaluate_octaves peak_local_max self img_shape o pre dpre = Ok found ->
  evaluate_octave peak_local_max self img_shape (o + Z.of_nat (length pre)) octave delta
  = Raise e ->
  evaluate_octaves peak_local_max self img_shape o (pre ++ octave :: post)
    (dpre ++ delta :: dpost)
  = Raise e.
Proof.
  revert dpre o found.
  induction pre as [| oc pre IH]; intros [| d dpre] o found Hlen Hpre He;
    try discriminate Hlen.
  - cbn [app evaluate_octaves]. cbn [length Z.of_nat] in He.
    rewrite Z.add_0_r in He. rewrite He. reflexivity.
  - cbn [app evaluate_octaves] in *.
    destruct (evaluate_octave peak_local_max self img_shape o oc d) as [f | e'];
      cbn [rbind] in *; [ | discriminate Hpre ].
    destruct (evaluate_octaves peak_local_max self img_shape (o + 1) pre dpre)
      as [fs | e'] eqn:E; cbn [rbind] in Hpre; [ | discriminate Hpre ].
    rewrite (IH dpre (o + 1)%Z fs); [ reflexivity | | exact E | ].
    + simpl in Hlen. lia.
    + rewrite <- He. f_equal. cbn [length]. lia.
Qed.

End Localization.







(** *** Success of the localization *)








(** *** Singular Hessians *)











(** ** The descriptor *)

















(** Every byte of a descriptor lies in [0, 255], whatever the histogram
    and the arithmetic. *)
Lemma descriptor_bytes_in_range {F : Type} `{Float64 F} (histograms : list F) :
  Forall (fun b => (0 <= b <= 255)%Z) (descriptor_of histograms).
Proof.
  unfold descriptor_of, normalize. apply Forall_map, Forall_forall.
  intros h _. unfold astype_uint8.
  destruct (trunc _) as [z |]; [ | lia ].
  pose proof (Z.mod_pos_bound z 256). lia.
Qed.


(** ** The candidates of the localization loop *)

Local Close Scope R_scope.

Section Interior.
Context {F : Type} {FA : Float64 F} {FL : Libm F} {FP : Lapack F}.

Lemma inside3_inrange (k dim : idx3) :
  inside3 k dim = true -> _inrange k dim = true.
Proof.
  destruct k as [[k0 k1] k2], dim as [[d0 d1] d2]. unfold inside3, _inrange.
  rewrite !andb_true_iff. tauto.
Qed.

(** One axis of [keys[np.where(wrong_position_pos)] += 1] and
    [keys[np.where(wrong_position_neg)] -= 1]. *)
Lemma shift_axis (a b : bool) (k d : Z) :
  (0 < k < d - 1)%Z ->
  let k' := ((if a && (k + 1 <? d - 1)%Z then k + 1 else k)
             - (if b && (0 <? k - 1)%Z then 1 else 0))%Z in
  (0 < k' < d - 1)%Z /\ (Z.abs (k' - k) <= 1)%Z.
Proof.
  intro H. cbv zeta.
  destruct a, b; cbn [andb];
    destruct (Z.ltb_spec (k + 1) (d - 1)); destruct (Z.ltb_spec 0 (k - 1)); lia.
Qed.

Lemma shift_key_inside3 (dim : idx3) (off : vec3 F) (k : idx3) :
  inside3 k dim = true ->
  inside3 (shift_key (wrong_position_pos dim off k) (wrong_position_neg off k) k) dim
  = true
  /\ within 1 k (shift_key (wrong_position_pos dim off k) (wrong_position_neg off k) k).
Proof.
  destruct k as [[k0 k1] k2], dim as [[d0 d1] d2], off as [[o0 o1] o2].
  unfold inside3, within, shift_key, wrong_position_pos, wrong_position_neg.
  intro H. repeat rewrite andb_true_iff in H. rewrite !Z.ltb_lt in H.
  destruct H as [[[[[H1 H2] H3] H4] H5] H6].
  pose proof (shift_axis (fltb (lit 1 2) o0) (fltb o0 (fopp (lit 1 2))) k0 d0
                (conj H1 H2)) as [A0 B0].
  pose proof (shift_axis (fltb (lit 1 2) o1) (fltb o1 (fopp (lit 1 2))) k1 d1
                (conj H3 H4)) as [A1 B1].
  pose proof (shift_axis (fltb (lit 1 2) o2) (fltb o2 (fopp (lit 1 2))) k2 d2
                (conj H5 H6)) as [A2 B2].
  split.
  - repeat rewrite andb_true_iff. rewrite !Z.ltb_lt. tauto.
  - tauto.
Qed.

Lemma within_refl (n : Z) (k : idx3) : (0 <= n)%Z -> within n k k.
Proof. destruct k as [[k0 k1] k2]. unfold within. lia. Qed.

Lemma within_step (n : Z) (k k1 k' : idx3) :
  within 1 k k1 -> within n k1 k' -> within (n + 1) k k'.
Proof.
  destruct k as [[a0 a1] a2], k1 as [[b0 b1] b2], k' as [[c0 c1] c2].
  unfold within. lia.
Qed.

Lemma within_more (n m : Z) (k k' : idx3) : (n <= m)%Z -> within n k k' -> within m k k'.
Proof. destruct k as [[a0 a1] a2], k' as [[c0 c1] c2]. unfold within. lia. Qed.

Lemma localize_inside (octave : volume F) (grad : volume F * volume F * volume F)
    (more : nat) :
  forall (keys keys' : list idx3) (J : list (vec3 F)) (H : list (mat3 F))
         (off : list (vec3 F)),
    Forall (fun k => inside3 k (vshape octave) = true) keys ->
    localize more octave grad (map (fun _ => true) keys) keys = Ok (keys', J, H, off) ->
    Forall2 (fun k k' => inside3 k' (vshape octave) = true
                         /\ within (Z.of_nat more) k k') keys keys'
    /\ J = map (jacobian grad) keys' /\ H = map (_hessian octave) keys'
    /\ solve_all H J = Ok off.
Proof.
  induction more as [| more IH]; intros keys keys' J H off Hin E;
    rewrite localize_step in E;
    assert (Hall : all_inside (vshape octave) (map (fun _ => true) keys) keys)
      by (split; [ reflexivity
                 | eapply Forall_impl; [ | exact Hin ]; intro k; apply inside3_inrange ]);
    pose proof (still_in_all_inside _ _ _ Hall) as Hsi;
    destruct (iter_solve octave grad (map (fun _ => true) keys) keys) as [off1 | e] eqn:Es;
    cbn [rbind] in E; try discriminate E;
    pose proof (solve_all_length _ _ _ Es) as [Hlo _]; rewrite length_map in Hlo.
  - cbv zeta in E. injection E as <- <- <- <-.
    unfold iter_solve in Es. rewrite Hsi, mask_select_all in *.
    repeat split; try assumption.
    clear - Hin. induction Hin as [| k keys Hk _ IHk]; constructor; [ | exact IHk ].
    split; [ exact Hk | apply within_refl; lia ].
  - cbv zeta in E. destruct (negb _) eqn:Ew.
    + injection E as <- <- <- <-.
      unfold iter_solve in Es. rewrite Hsi, mask_select_all in *.
      repeat split; try assumption.
      clear - Hin. induction Hin as [| k keys Hk _ IHk]; constructor; [ | exact IHk ].
      split; [ exact Hk | apply within_refl; lia ].
    + rewrite Hsi in E.
      assert (Hsh : Forall2 (fun k k1 => inside3 k1 (vshape octave) = true /\ within 1 k k1)
                            keys (iter_shift (vshape octave) off1 keys)).
      { rewrite iter_shift_map. clear - Hin Hlo. revert off1 Hlo.
        induction Hin as [| k keys Hk _ IHk]; intros [| o off1] Hlo;
          cbn [length] in Hlo; try discriminate Hlo; cbn [combine map]; constructor.
        - apply shift_key_inside3, Hk.
        - apply IHk. lia. }
      assert (Hlen : length (iter_shift (vshape octave) off1 keys) = length keys).
      { symmetry. eapply Forall2_length. exact Hsh. }
      replace (map (fun _ : idx3 => true) keys)
        with (map (fun _ : idx3 => true) (iter_shift (vshape octave) off1 keys)) in E.
      2:{ rewrite !map_const_repeat. f_equal. exact Hlen. }
      apply IH in E.
      2:{ clear - Hsh. induction Hsh as [| k k1 l l1 [Hk _] _ IHs]; constructor; assumption. }
      destruct E as (H2 & HJ & HH & Ho). repeat split; try assumption.
      clear - Hsh H2. revert keys' H2.
      induction Hsh as [| k k1 l l1 [_ Hw] _ IHs]; intros keys' H2;
        inversion H2 as [| a b la lb [Hi Hw2] Hrest]; subst; constructor.
      * split; [ exact Hi | ].
        replace (Z.of_nat (S more)) with (Z.of_nat more + 1)%Z by lia.
        exact (within_step _ _ _ _ Hw Hw2).
      * apply IHs, Hrest.
Qed.



End Interior.

(** ** The keypoints that are returned *)

Section Keypoints.
Context {F : Type} {FA : Float64 F} {FL : Libm F} {FP : Lapack F}.
Variable peak_local_max : volume F -> F -> list idx3.

Lemma Forall2_In_r {A B : Type} (R : A -> B -> Prop) (l1 : list A) (l2 : list B) (y : B) :
  Forall2 R l1 l2 -> In y l2 -> exists x, In x l1 /\ R x y.
Proof.
  induction 1 as [| a b l1 l2 Hab _ IH]; intros Hin; [ destruct Hin | ].
  destruct Hin as [<- | Hin].
  - exists a. split; [ left; reflexivity | exact Hab ].
  - destruct (IH Hin) as (x & Hx & Hr). exists x. split; [ right; exact Hx | exact Hr ].
Qed.

Lemma rmap_In {A B : Type} (f : A -> result B) (l : list A) (l' : list B) (y : B) :
  rmap f l = Ok l' -> In y l' -> exists x, In x l /\ f x = Ok y.
Proof.
  revert l'. induction l as [| a l IH]; cbn [rmap]; intros l' E Hin.
  - injection E as <-. destruct Hin.
  - destruct (f a) as [b | e] eqn:Ea; cbn [rbind] in E; [ | discriminate E ].
    destruct (rmap f l) as [bs | e]; cbn [rbind] in E; [ | discriminate E ].
    injection E as <-. destruct Hin as [<- | Hin].
    + exists a. split; [ left; reflexivity | exact Ea ].
    + destruct (IH bs eq_refl Hin) as (x & Hx & Hf).
      exists x. split; [ right; exact Hx | exact Hf ].
Qed.

(** A row of the four arrays at the end of the loop. *)
Lemma zip4_In (octave : volume F) (grad : volume F * volume F * volume F)
    (keys : list idx3) :
  forall (off : list (vec3 F)) (e : extremum F),
    solve_all (map (_hessian octave) keys) (map (jacobian grad) keys) = Ok off ->
    In e (zip4 keys (map (jacobian grad) keys) (map (_hessian octave) keys) off) ->
    exists k o,
      e = (k, jacobian grad k, _hessian octave k, o)
      /\ In k keys
      /\ solve3 (mneg (_hessian octave k)) (jacobian grad k) = Ok o.
Proof.
  unfold solve_all, zip4. rewrite !length_map, Nat.eqb_refl.
  induction keys as [| k keys IH]; intros off e E Hin; cbn [map combine rmap] in E.
  - injection E as <-. destruct Hin.
  - cbn [fst snd] in E.
    destruct (solve3 _ _) as [o | er] eqn:Es; cbn [rbind] in E; [ | discriminate E ].
    destruct (rmap _ _) as [os | er] eqn:Er; cbn [rbind] in E; [ | discriminate E ].
    injection E as <-. cbn [map combine] in Hin. destruct Hin as [<- | Hin].
    + exists k, o. repeat split; [ left; reflexivity | exact Es ].
    + destruct (IH os e eq_refl Hin) as (k' & o' & He & Hk & Hs).
      exists k', o'. repeat split; [ exact He | right; exact Hk | exact Hs ].
Qed.

Lemma evaluate_octave_keypoints (self : SIFT F) (img_shape : Z * Z) (o : Z)
    (octave : volume F) (delta : F) (found : list (F * F * Z * F)) :
  Forall (fun k => inside3 k (vshape octave) = true)
         (peak_local_max octave (fmul (c_dog (params self)) (lit 8 10))
          ++ peak_local_max (vneg octave) (fmul (c_dog (params self)) (lit 8 10))) ->
  evaluate_octave peak_local_max self img_shape o octave delta = Ok found ->
  Forall (localized_at peak_local_max self img_shape o octave delta) found.
Proof.
  intros Hin E. unfold evaluate_octave in E. cbv zeta in E.
  set (keys0 := _ ++ _) in *.
  destruct (np_gradient octave) as [grad | e] eqn:Eg; cbn [rbind] in E; [ | discriminate E ].
  destruct (localize 4 octave grad _ keys0) as [[[[keys J] H] off] | e] eqn:El;
    cbn [rbind] in E; [ | discriminate E ].
  destruct (localize_inside octave grad 4 keys0 keys J H off Hin El)
    as (Hk & -> & -> & Hs).
  destruct (attr (scalespace_sigmas self)) as [table | e] eqn:Et;
    cbn [rbind] in E; [ | discriminate E ].
  destruct (py_index table 0) as [row0 | e] eqn:E0; cbn [rbind] in E; [ | discriminate E ].
  destruct (py_index row0 1) as [s01 | e] eqn:E01; cbn [rbind] in E; [ | discriminate E ].
  destruct (py_index row0 0) as [s00 | e] eqn:E00; cbn [rbind] in E; [ | discriminate E ].
  destruct (py_index table o) as [row | e] eqn:Eo; cbn [rbind] in E; [ | discriminate E ].
  destruct (rmap _ _) as [located | e] eqn:Er; cbn [rbind] in E; [ | discriminate E ].
  injection E as <-.
  apply Forall_forall. intros p Hp. apply filter_In in Hp. destruct Hp as [Hp Hb].
  destruct (rmap_In _ _ _ _ Er Hp) as (e & He & Hl).
  apply filter_In in He. destruct He as [He Hedge].
  apply filter_In in He. destruct He as [He Hcontrast].
  apply filter_In in He. destruct He as [He Hfin].
  destruct (zip4_In octave grad keys off e Hs He) as (k & ok & -> & Hkin & Hsol).
  destruct (Forall2_In_r _ _ _ _ Hk Hkin) as (k0 & Hk0 & Hi & Hw).
  unfold ex_off, ex_H, ex_key, ex_J in *. cbn [fst snd] in *.
  exists k0, k, ok, grad, table, row0, row, s00, s01.
  assert (Ht : scalespace_sigmas self = Some table).
  { destruct (scalespace_sigmas self); [ injection Et as ->; reflexivity | discriminate Et ]. }
  repeat split; assumption.
Qed.


Lemma combine_app_same {A B : Type} (a1 a2 : list A) (b1 b2 : list B) :
  length a1 = length b1 ->
  combine (a1 ++ a2) (b1 ++ b2) = combine a1 b1 ++ combine a2 b2.
Proof.
  revert b1. induction a1 as [| x a1 IH]; intros [| y b1] H; try discriminate H;
    [ reflexivity | ].
  cbn [app combine]. f_equal. apply IH. injection H as H. exact H.
Qed.

Lemma evaluate_octaves_keypoints (self : SIFT F) (img_shape : Z * Z)
    (dogspace : list (volume F)) :
  (forall v t, Forall (fun k => inside3 k (vshape v) = true) (peak_local_max v t)) ->
  forall (ds : list F) (o : Z) (extrema : list (list (F * F * Z * F))),
    evaluate_octaves peak_local_max self img_shape o dogspace ds = Ok extrema ->
    Forall (fun po : (F * F * Z * F) * Z =>
              exists octave delta,
                nth_error dogspace (Z.to_nat (snd po - o)) = Some octave
                /\ nth_error ds (Z.to_nat (snd po - o)) = Some delta
                /\ (o <= snd po)%Z
                /\ localized_at peak_local_max self img_shape (snd po) octave delta
                     (fst po))
           (combine (concat extrema) (octave_indices o extrema)).
Proof.
  intro Hplm. induction dogspace as [| octave dogspace IH]; intros ds o extrema E.
  - cbn [evaluate_octaves] in E. injection E as <-. constructor.
  - destruct ds as [| delta ds]; cbn [evaluate_octaves] in E.
    + injection E as <-. constructor.
    + destruct (evaluate_octave _ _ _ _ _ _) as [found | e] eqn:Ef; cbn [rbind] in E;
        [ | discriminate E ].
      destruct (evaluate_octaves _ _ _ _ _ _) as [rest | e] eqn:Er; cbn [rbind] in E;
        [ | discriminate E ].
      injection E as <-. cbn [concat octave_indices].
      rewrite combine_app_same by (rewrite repeat_length; reflexivity).
      apply Forall_app. split.
      * apply evaluate_octave_keypoints in Ef.
        2:{ apply Forall_app. split; [ apply Hplm | exact (Hplm (vneg octave) _) ]. }
        clear - Ef. induction Ef as [| p found Hp _ IHf]; cbn [length repeat combine];
          constructor; [ | exact IHf ].
        cbn [fst snd]. exists octave, delta. replace (o - o)%Z with 0%Z by lia.
        repeat split; try reflexivity; try lia. exact Hp.
      * specialize (IH ds (o + 1)%Z rest Er).
        eapply Forall_impl; [ | exact IH ].
        intros [p o'] (oc & dl & H1 & H2 & H3 & H4). cbn [fst snd] in *.
        exists oc, dl.
        replace (Z.to_nat (o' - o)) with (S (Z.to_nat (o' - (o + 1)))) by lia.
        repeat split; try assumption. lia.
Qed.

Lemma columns_of_rows (l : list (F * F * Z * F)) :
  combine (combine (map (fun p : F * F * Z * F =>
                           (fst (fst (fst p)), snd (fst (fst p)))) l)
                   (map (fun p : F * F * Z * F => snd (fst p)) l))
          (map (fun p : F * F * Z * F => snd p) l)
  = l.
Proof.
  induction l as [| [[[y x] sc] sg] l IHl]; [ reflexivity | ].
  cbn [map combine fst snd]. f_equal. exact IHl.
Qed.

(** X10: every keypoint [_find_localize_evaluate] returns passed the tests of
    the loop body in the octave it is labelled with. *)
Theorem every_keypoint_passed_the_filters :
  forall (self : SIFT F) (dogspace : list (volume F)) (img_shape : Z * Z)
         (P : list (F * F)) (S : list Z) (G : list F) (octs : list Z),
    (forall v t, Forall (fun k => inside3 k (vshape v) = true) (peak_local_max v t)) ->
    _find_localize_evaluate peak_local_max self dogspace img_shape = Ok (P, S, G, octs) ->
    Forall (fun kp : (F * F) * Z * F * Z =>
              exists octave delta,
                nth_error dogspace (Z.to_nat (snd kp)) = Some octave
                /\ nth_error (deltas (params self)) (Z.to_nat (snd kp)) = Some delta
                /\ (0 <= snd kp)%Z
                /\ localized_at peak_local_max self img_shape (snd kp) octave delta
                     (fst kp))
           (combine (combine (combine P S) G) octs).
Proof.
  intros self dogspace img_shape P S G octs Hplm E.
  unfold _find_localize_evaluate in E.
  destruct (evaluate_octaves _ _ _ _ _ _) as [extrema | e] eqn:Ee; cbn [rbind] in E;
    [ | discriminate E ].
  pose proof (evaluate_octaves_keypoints self img_shape dogspace Hplm _ _ _ Ee) as H.
  destruct extrema as [| found rest]; [ discriminate E | ].
  remember (found :: rest) as ex eqn:Hex in *. clear Hex.
  injection E as <- <- <- <-.
  rewrite columns_of_rows. eapply Forall_impl; [ | exact H ].
  intros [p o] (oc & dl & H1 & H2 & H3 & H4). cbn [fst snd] in *.
  rewrite Z.sub_0_r in H1, H2. exists oc, dl. repeat split; assumption.
Qed.

End Keypoints.

(** ** Arrays of one length *)

Section Aligned.
Context {F : Type} {FA : Float64 F} {FL : Libm F} {FP : Lapack F}.
Variable rescale : image F -> Z -> image F.
Variable gaussian : image F -> F -> image F.
Variable peak_local_max : volume F -> F -> list idx3.
Variable orientation_histogram :
  SIFT F -> volume F * volume F * volume F -> Z * Z -> Z * Z -> Z -> F * F -> F -> list F.
Variable descriptor_histogram :
  SIFT F -> volume F * volume F * volume F -> F -> F * F -> Z -> F -> F -> list F.

Lemma keeps_bind {X Y : Type} (P : SIFT F -> Prop) (m : M F X) (k : X -> M F Y) :
  keeps P m -> (forall x, keeps P (k x)) -> keeps P (bind m k).
Proof.
  intros Hm Hk s Hs. unfold bind. specialize (Hm s Hs).
  destruct (m s) as [[x | e] s1]; cbn [snd] in *; [ apply Hk, Hm | exact Hm ].
Qed.

Lemma keeps_mfor {X : Type} (P : SIFT F -> Prop) (l : list X) (body : X -> M F unit) :
  (forall x, keeps P (body x)) -> keeps P (mfor l body).
Proof.
  intro Hb. induction l as [| x l IH]; cbn [mfor].
  - intros s Hs. exact Hs.
  - apply keeps_bind; [ apply Hb | intros _; exact IH ].
Qed.

Lemma keeps_unchanged {X : Type} (P : SIFT F -> Prop) (m : M F X) :
  (forall s, snd (m s) = s) -> keeps P m.
Proof. intros H s Hs. rewrite H. exact Hs. Qed.

Lemma length_list_set {X : Type} (l : list X) :
  forall (i : nat) (v : X), length (list_set l i v) = length l.
Proof.
  induction l as [| x l IH]; intros [| i] v; cbn [list_set length]; try reflexivity.
  f_equal. apply IH.
Qed.

(** [_compute_descriptor] sizes [descriptors] by [scales] and then only
    writes rows. *)
Lemma compute_descriptor_length (gsp : list (volume F * volume F * volume F))
    (s s' : SIFT F) (scs : list Z) :
  scales s = Some scs ->
  _compute_descriptor descriptor_histogram gsp s = (Ok tt, s') ->
  exists d, s' = set_descriptors d s /\ length d = length scs.
Proof.
  intros Hscs E.
  set (P := fun st : SIFT F =>
              exists d, st = set_descriptors d s /\ length d = length scs).
  unfold _compute_descriptor in E.
  unfold bind at 1, get_self at 1 in E.
  unfold bind at 1, lift at 1 in E. rewrite Hscs in E. cbn [attr] in E.
  unfold bind at 1, modify at 1 in E.
  match type of E with
  | ?m ?st = _ =>
      assert (K : keeps P m);
      [ | pose proof (K st) as K'; rewrite E in K'; apply K';
          exists (repeat None (length scs)); split;
          [ reflexivity | apply repeat_length ] ]
  end.
  apply keeps_mfor. intro o.
  apply keeps_bind; [ apply keeps_unchanged; reflexivity | intro self ].
  do 5 (apply keeps_bind; [ apply keeps_unchanged; reflexivity | intro ]).
  apply keeps_bind; [ apply keeps_unchanged; reflexivity | intro gradient ].
  apply keeps_bind; [ apply keeps_unchanged; reflexivity | intro delta ].
  apply keeps_mfor. intros [[[[p scale] sigma] orientation] number].
  intros st (d & -> & Hd). cbn [snd modify]. unfold P.
  exists (list_set d number
            (Some (descriptor_of
                     (descriptor_histogram self gradient delta p scale sigma orientation)))).
  split; [ reflexivity | ]. rewrite length_list_set. exact Hd.
Qed.




(** The rows of [positions] after the orientation stage: the keypoints
    that are not rejected, then one copy for every further peak. *)
Lemma oriented_positions (P : list (F * F)) (S : list Z) (G : list F)
    (octs : list Z) (gs : list (volume F)) (s s' : SIFT F)
    (g : list (volume F * volume F * volume F)) :
  length P = length octs -> length S = length octs -> length G = length octs ->
  StronglySorted Z.le octs ->
  Forall (fun o => 0 <= o < n_octaves (params s))%Z octs ->
  _compute_orientation orientation_histogram P S G octs gs s = (Ok g, s') ->
  exists (outs : list (option (list F))) (sc : list Z) (sg ori : list F) (oc : list Z),
    Forall2 (outcome_rel orientation_histogram s gs)
            (combine (combine (combine P S) G) octs) outs
    /\ s' = set_oriented (firsts outs P ++ clones outs P) sc sg ori oc s.
Proof.
  intros HP HS HG Hsorted Hrange E.
  unfold _compute_orientation, bind, get_self, lift in E.
  destruct (rfold _ _ _) as [[g1 st] | e] eqn:Er; [ | discriminate E ].
  apply orient_octaves in Er. destruct Er as (tagged & Hvis & Hst).
  assert (Hkl : length (combine (combine P S) G) = length octs).
  { rewrite !length_combine. lia. }
  unfold zrange in Hvis. rewrite visited_sorted in Hvis; try assumption.
  2:{ eapply Forall_impl; [ | exact Hrange ]. cbv beta. intros o Ho.
      rewrite Z2Nat.id; lia. }
  destruct (tagged_octaves orientation_histogram gs s _ octs tagged Hkl Hvis)
    as (Hrel & Hlen & _).
  set (st0 := mkOri _ _ _ _ _ _) in Hst.
  destruct (record_outcomes_shape tagged st0 [] [] 0) as (Rv & _ & Ri & _ & _).
  { unfold st0. cbn [keypoints_valid app]. rewrite map_const_repeat. f_equal. lia. }
  { unfold st0. cbn [orientations_buf app]. rewrite map_const_repeat. f_equal. lia. }
  { reflexivity. }
  { reflexivity. }
  rewrite <- Hst in Rv, Ri. unfold st0 in Ri.
  cbn [app length repeat keypoint_indices] in *.
  rewrite app_nil_r in Rv. rewrite Ri in E.
  pose proof (take_indices_clones tagged [] P) as TP.
  cbn [app length] in TP. rewrite TP in E by lia.
  destruct (take_indices S _) as [sc2 | e]; [ | discriminate E ].
  destruct (take_indices G _) as [sg2 | e]; [ | discriminate E ].
  cbn [modify ret] in E. injection E as _ <-.
  exists (map snd tagged). do 4 eexists.
  split; [ exact Hrel | ].
  rewrite Rv. unfold firsts. rewrite map_map. reflexivity.
Qed.

Lemma length_firsts {A X : Type} (outs : list (option (list A))) :
  forall xs : list X,
    length xs = length outs ->
    length (firsts outs xs) = length (filter is_kept outs).
Proof.
  unfold firsts. induction outs as [| out outs IH]; intros [| x xs] H;
    try discriminate H; [ reflexivity | ].
  cbn [map mask_select filter]. injection H as H.
  destruct (is_kept out); cbn [length]; rewrite (IH xs H); reflexivity.
Qed.

Lemma length_clones {A X : Type} (outs : list (option (list A))) :
  forall xs : list X,
    length xs = length outs ->
    length (clones outs xs) = length (flat_map extra_angles outs).
Proof.
  unfold clones. induction outs as [| out outs IH]; intros [| x xs] H;
    try discriminate H; [ reflexivity | ].
  cbn [combine flat_map fst snd]. injection H as H.
  rewrite !length_app, repeat_length, (IH xs H). reflexivity.
Qed.

(** What the two detecting operations hold when they return. *)
Lemma rows_after_orientation (im : image F) (s2 s3 : SIFT F) (gs : list (volume F))
    (P : list (F * F)) (S : list Z) (G : list F) (octs : list Z)
    (g : list (volume F * volume F * volume F)) :
  Z.of_nat (length gs) = n_octaves (params s2) ->
  _find_localize_evaluate peak_local_max s2 (map np_diff gs) (ishape im)
  = Ok (P, S, G, octs) ->
  _compute_orientation orientation_histogram P S G octs gs s2 = (Ok g, s3) ->
  exists (outs : list (option (list F))) (sc : list Z) (sg ori : list F) (oc : list Z),
    Forall2 (outcome_rel orientation_histogram s2 gs)
            (combine (combine (combine P S) G) octs) outs
    /\ s3 = set_oriented (firsts outs P ++ clones outs P) sc sg ori oc s2
    /\ length P = length outs
    /\ length (firsts outs P ++ clones outs P)
       = (length (filter is_kept outs) + length (flat_map extra_angles outs))%nat.
Proof.
  intros Hgs Ef Eo.
  apply find_localize_evaluate_shape in Ef.
  destruct Ef as (LP & LS & LG & Hsorted & Hrange).
  rewrite length_map in Hrange.
  apply oriented_positions in Eo; try assumption.
  2:{ eapply Forall_impl; [ | exact Hrange ]. cbv beta. intros o Ho. lia. }
  destruct Eo as (outs & sc & sg & ori & oc & Hrel & ->).
  assert (Lo : length P = length outs).
  { apply Forall2_length in Hrel. rewrite !length_combine in Hrel. lia. }
  exists outs, sc, sg, ori, oc.
  split; [ exact Hrel | ]. split; [ reflexivity | ]. split; [ exact Lo | ].
  rewrite length_app, (length_firsts outs P Lo), (length_clones outs P Lo). reflexivity.
Qed.

(** C1 (the defect): [keypoints] is built from the positions that
    [_find_localize_evaluate] returns, before the orientation stage, and
    [positions] (with [scales], [sigmas], [orientations] and [octaves]) by
    the orientation stage, which drops the keypoints it rejects and appends
    a copy for every further peak. When [detect] or [detect_and_extract]
    returns, [keypoints] has one row for each localized extremum, and
    [positions] one row for each extremum that is kept and one for each
    further peak. *)
Theorem keypoints_skip_the_orientation_stage :
  forall (im : image F) (s s' : SIFT F),
    detect rescale gaussian peak_local_max orientation_histogram im s = (Ok tt, s')
    \/ detect_and_extract rescale gaussian peak_local_max orientation_histogram
         descriptor_histogram im s
       = (Ok tt, s') ->
    exists (self : SIFT F) (gs : list (volume F)) (P : list (F * F)) (S : list Z)
           (G : list F) (octs : list Z) (outs : list (option (list F))),
      _find_localize_evaluate peak_local_max self (map np_diff gs) (ishape im)
      = Ok (P, S, G, octs)
      /\ Forall2 (outcome_rel orientation_histogram self gs)
                 (combine (combine (combine P S) G) octs) outs
      /\ keypoints s'
         = Some (map (fun k => (round_int (fst k), round_int (snd k))) P)
      /\ positions s' = Some (firsts outs P ++ clones outs P)
      /\ length P = length outs
      /\ length (firsts outs P ++ clones outs P)
         = (length (filter is_kept outs) + length (flat_map extra_angles outs))%nat.
Proof.
  intros im s s' [E | E].
  - unfold detect in E. unfold bind at 1 in E.
    destruct (assign_n_octaves im s) as [[[] | e] s1]; [ | discriminate E ].
    unfold bind at 1 in E.
    destruct (_create_scalespace rescale gaussian im s1) as [[gs | e] s2] eqn:Ec;
      [ | discriminate E ].
    apply create_scalespace_length in Ec. destruct Ec as [Hgs Hp].
    unfold bind at 1, get_self at 1 in E. unfold bind at 1, lift at 1 in E.
    destruct (_find_localize_evaluate peak_local_max s2 (map np_diff gs) (ishape im))
      as [[[[P S] G] octs] | e] eqn:Ef; [ | discriminate E ].
    unfold bind at 1 in E.
    destruct (_compute_orientation orientation_histogram P S G octs gs s2)
      as [[g | e] s3] eqn:Eo; [ | discriminate E ].
    destruct (rows_after_orientation im s2 s3 gs P S G octs g
                ltac:(rewrite Hgs, Hp; reflexivity) Ef Eo)
      as (outs & sc & sg & ori & oc & Hrel & -> & Lo & Ll).
    destruct P as [| p P]; [ discriminate E | ].
    cbn [modify] in E. injection E as <-.
    exists s2, gs, (p :: P), S, G, octs, outs.
    repeat split; try assumption.
  - unfold detect_and_extract in E. unfold bind at 1 in E.
    destruct (assign_n_octaves im s) as [[[] | e] s1]; [ | discriminate E ].
    unfold bind at 1 in E.
    destruct (_create_scalespace rescale gaussian im s1) as [[gs | e] s2] eqn:Ec;
      [ | discriminate E ].
    apply create_scalespace_length in Ec. destruct Ec as [Hgs Hp].
    unfold bind at 1, get_self at 1 in E. unfold bind at 1, lift at 1 in E.
    destruct (_find_localize_evaluate peak_local_max s2 (map np_diff gs) (ishape im))
      as [[[[P S] G] octs] | e] eqn:Ef; [ | discriminate E ].
    unfold bind at 1 in E.
    destruct (_compute_orientation orientation_histogram P S G octs gs s2)
      as [[g | e] s3] eqn:Eo; [ | discriminate E ].
    destruct (rows_after_orientation im s2 s3 gs P S G octs g
                ltac:(rewrite Hgs, Hp; reflexivity) Ef Eo)
      as (outs & sc & sg & ori & oc & Hrel & -> & Lo & Ll).
    unfold bind at 1 in E.
    destruct (_compute_descriptor descriptor_histogram g _) as [[[] | e] s4] eqn:Ed;
      [ | discriminate E ].
    apply (compute_descriptor_length g _ s4 sc) in Ed; [ | reflexivity ].
    destruct Ed as (d & -> & _).
    destruct P as [| p P]; [ discriminate E | ].
    cbn [modify] in E. injection E as <-.
    exists s2, gs, (p :: P), S, G, octs, outs.
    repeat split; try assumption.
Qed.


End Aligned.

(** ** Exact arithmetic: the number of octaves and the sigmas *)

Local Open Scope R_scope.

Lemma ln_le_mono (x y : R) : 0 < x -> x <= y -> ln x <= ln y.
Proof.
  intros Hx [Hlt | ->]; [ | lra ]. left. apply ln_increasing; assumption.
Qed.

Lemma ln_two_power (k : Z) : (0 <= k)%Z -> ln (IZR (2 ^ k)) = IZR k * ln 2.
Proof.
  intro Hk. rewrite <- (Z2Nat.id k Hk) at 1. rewrite <- pow_IZR.
  rewrite ln_pow by lra. rewrite INR_IZR_INZ, Z2Nat.id by exact Hk. reflexivity.
Qed.

Lemma two_power_pos (k : Z) : (0 <= k)%Z -> 0 < IZR (2 ^ k).
Proof. intro Hk. apply IZR_lt. apply Z.pow_pos_nonneg; lia. Qed.

(** The image side [s0], upsampled [u] times by two, holds between [2^k]
    and [2^(k+1)] times the smallest side of an octave. *)
Lemma log2_side_bounds (s0 u k : Z) :
  (0 <= u)%Z -> (0 <= k)%Z ->
  (12 * 2 ^ k <= s0 * 2 ^ u < 12 * 2 ^ (k + 1))%Z ->
  0 < IZR s0
  /\ IZR k <= ln (IZR s0 / 12) / ln 2 + IZR u < IZR k + 1.
Proof.
  intros Hu Hk [Hlo Hhi].
  pose proof (two_power_pos u Hu) as Pu.
  pose proof (two_power_pos k Hk) as Pk.
  assert (Ps : 0 < IZR s0).
  { apply IZR_lt. pose proof (Z.pow_pos_nonneg 2 u) as A.
    pose proof (Z.pow_pos_nonneg 2 k) as B. nia. }
  split; [ exact Ps | ].
  pose proof ln_lt_2 as L2.
  assert (E : ln (IZR s0 / 12) / ln 2 + IZR u
              = (ln (IZR (s0 * 2 ^ u)) - ln 12) / ln 2).
  { rewrite mult_IZR, ln_mult by assumption.
    rewrite ln_two_power by exact Hu.
    unfold Rdiv at 2. rewrite ln_mult by lra. rewrite ln_Rinv by lra.
    field. lra. }
  rewrite E.
  assert (Elo : ln (IZR (12 * 2 ^ k)) = ln 12 + IZR k * ln 2).
  { rewrite mult_IZR, ln_mult by (try assumption; lra).
    rewrite ln_two_power by exact Hk. reflexivity. }
  assert (Ehi : ln (IZR (12 * 2 ^ (k + 1))) = ln 12 + (IZR k + 1) * ln 2).
  { rewrite mult_IZR, ln_mult by (try apply two_power_pos; lra || lia).
    rewrite ln_two_power by lia. rewrite plus_IZR. reflexivity. }
  assert (Hl : ln (IZR (12 * 2 ^ k)) <= ln (IZR (s0 * 2 ^ u))).
  { apply ln_le_mono; [ apply IZR_lt; pose proof (Z.pow_pos_nonneg 2 k); lia
                      | apply IZR_le; exact Hlo ]. }
  assert (Hh : ln (IZR (s0 * 2 ^ u)) < ln (IZR (12 * 2 ^ (k + 1)))).
  { apply ln_increasing; [ rewrite mult_IZR; apply Rmult_lt_0_compat; assumption
                         | apply IZR_lt; exact Hhi ]. }
  rewrite Elo in Hl. rewrite Ehi in Hh.
  split.
  - apply Rmult_le_reg_r with (ln 2); [ lra | ].
    unfold Rdiv. rewrite Rmult_assoc, Rinv_l by lra. lra.
  - apply Rmult_lt_reg_r with (ln 2); [ lra | ].
    unfold Rdiv. rewrite Rmult_assoc, Rinv_l by lra. lra.
Qed.

Lemma xtrunc_IZR (n : Z) : xtrunc (Fin (IZR n)) = Some n.
Proof.
  unfold xtrunc. destruct (Rltb (IZR n) 0).
  - rewrite <- opp_IZR, Int_part_IZR. f_equal. lia.
  - rewrite Int_part_IZR. reflexivity.
Qed.

Lemma number_of_octaves_floor (self : SIFT xreal) (n : Z) (shape : Z * Z) (k : Z) :
  (0 <= upsampling (params self))%Z -> (0 <= k)%Z ->
  (12 * 2 ^ k <= Z.min (fst shape) (snd shape) * 2 ^ upsampling (params self)
   < 12 * 2 ^ (k + 1))%Z ->
  _number_of_octaves self n shape = Ok (Z.min n k).
Proof.
  intros Hu Hk Hs.
  destruct (log2_side_bounds _ _ _ Hu Hk Hs) as (Ps & Hlo & Hhi).
  pose proof ln_lt_2 as L2.
  unfold _number_of_octaves, py_int, minimum, isnan.
  set (s0 := Z.min (fst shape) (snd shape)) in *.
  cbn [of_int fdiv flog fadd fleb feqb trunc ideal ideal_libm xdiv].
  rewrite (Reqb_false 12 0) by lra.
  cbn [xlog]. rewrite (Rltb_true 0 (IZR s0 / 12)) by (apply Rdiv_lt_0_compat; lra).
  rewrite (Rltb_true 0 2) by lra.
  cbn [xdiv]. rewrite (Reqb_false (ln 2) 0) by lra.
  cbn [xadd xleb xeqb]. rewrite (Reqb_true (IZR n) (IZR n)) by reflexivity.
  cbn [negb orb].
  set (x := ln (IZR s0 / 12) / ln 2 + IZR (upsampling (params self))) in *.
  destruct (Rle_dec (IZR n) x) as [Hn | Hn].
  - rewrite (Rleb_true _ _ Hn). cbn [orb]. rewrite xtrunc_IZR. f_equal.
    assert (n < k + 1)%Z by (apply lt_IZR; rewrite plus_IZR; lra). lia.
  - rewrite (Rleb_false (IZR n) x) by lra. cbn [orb].
    unfold xtrunc. rewrite (Rltb_false x 0).
    2:{ assert (0 <= IZR k) by (apply IZR_le; exact Hk). lra. }
    assert (Ek : Int_part x = k).
    { symmetry. apply Int_part_spec. lra. }
    rewrite Ek. f_equal.
    assert (k < n)%Z by (apply lt_IZR; lra). lia.
Qed.

(** X11: the number of octaves a public operation assigns: the whole part of
    the binary logarithm of the image side over 12, plus [upsampling], capped
    by the value held before. *)
Theorem operations_assign_floor_log2 :
  forall (rescale : image xreal -> Z -> image xreal)
         (gaussian : image xreal -> xreal -> image xreal)
         (peak_local_max : volume xreal -> xreal -> list idx3)
         (orientation_histogram :
            SIFT xreal -> volume xreal * volume xreal * volume xreal -> Z * Z -> Z * Z
            -> Z -> xreal * xreal -> xreal -> list xreal)
         (descriptor_histogram :
            SIFT xreal -> volume xreal * volume xreal * volume xreal -> xreal
            -> xreal * xreal -> Z -> xreal -> xreal -> list xreal)
         (im : image xreal) (s : SIFT xreal) (k : Z),
    (0 <= upsampling (params s))%Z -> (0 <= k)%Z ->
    (12 * 2 ^ k
     <= Z.min (fst (ishape im)) (snd (ishape im)) * 2 ^ upsampling (params s)
     < 12 * 2 ^ (k + 1))%Z ->
    n_octaves (params (snd (detect rescale gaussian peak_local_max
                              orientation_histogram im s)))
    = Z.min (n_octaves (params s)) k
    /\ n_octaves (params (snd (extract rescale gaussian descriptor_histogram im s)))
       = Z.min (n_octaves (params s)) k
    /\ n_octaves (params (snd (detect_and_extract rescale gaussian peak_local_max
                                 orientation_histogram descriptor_histogram im s)))
       = Z.min (n_octaves (params s)) k.
Proof.
  intros rescale gaussian peak_local_max orientation_histogram descriptor_histogram
         im s k Hu Hk Hs.
  rewrite params_after_detect, params_after_extract, params_after_detect_and_extract.
  unfold reassigned_n_octaves.
  rewrite (number_of_octaves_floor s _ (ishape im) k Hu Hk Hs).
  repeat split.
Qed.


(** *** The table of sigmas *)

Lemma blur_scales_sigmas (gaussian : image xreal -> xreal -> image xreal)
    (kappa : R) (n : nat) :
  forall (delta : xreal) (prev : image xreal) (c : R),
    snd (blur_scales gaussian n delta (Fin kappa) prev (Fin c))
    = map (fun j => Fin (c * kappa ^ S j)) (seq 0 n).
Proof.
  induction n as [| n IH]; intros delta prev c; [ reflexivity | ].
  cbn [blur_scales].
  match goal with
  | |- context [blur_scales gaussian n delta (Fin kappa) ?l ?cs] =>
      assert (IH' : snd (blur_scales gaussian n delta (Fin kappa) l cs)
                    = map (fun j => Fin (c * kappa * kappa ^ S j)) (seq 0 n))
        by exact (IH delta l (c * kappa));
      destruct (blur_scales gaussian n delta (Fin kappa) l cs) as [ls sg]
  end.
  cbn [snd] in *. cbn [seq map]. f_equal.
  - cbn [fmul ideal xmul]. f_equal. simpl. ring.
  - rewrite IH'. rewrite <- seq_shift, map_map. apply map_ext. intro j.
    f_equal. simpl. ring.
Qed.

Lemma kappa_power (ns : Z) :
  (1 <= ns)%Z -> Rpower 2 (1 / IZR ns) ^ Z.to_nat ns = 2.
Proof.
  intro H. assert (0 < IZR ns) by (apply IZR_lt; lia).
  rewrite <- Rpower_pow by (apply exp_pos).
  rewrite Rpower_mult, INR_IZR_INZ, Z2Nat.id by lia.
  replace (1 / IZR ns * IZR ns) with 1 by (field; lra).
  apply Rpower_1. lra.
Qed.

Lemma kappa_step (ns : Z) (j : nat) :
  (1 <= ns)%Z -> Rpower 2 (1 / IZR ns) ^ j = Rpower 2 (INR j / IZR ns).
Proof.
  intro H. assert (0 < IZR ns) by (apply IZR_lt; lia).
  rewrite <- Rpower_pow by (apply exp_pos).
  rewrite Rpower_mult. f_equal. field. lra.
Qed.

Lemma build_octaves_sigmas (gaussian : image xreal -> xreal -> image xreal)
    (p : Params xreal) (os : list Z) :
  (1 <= n_scales p)%Z ->
  forall (im : image xreal) (c : R),
  exists vs,
    build_octaves gaussian p (Fin (Rpower 2 (1 / IZR (n_scales p)))) os im (Fin c)
    = Ok (vs,
          map (fun o =>
                 map (fun j => Fin (c * 2 ^ o * Rpower 2 (INR j / IZR (n_scales p))))
                     (seq 0 (Z.to_nat (n_scales p + 3))))
              (seq 0 (length os))).
Proof.
  intro Hns. set (ns := n_scales p) in *. set (kappa := Rpower 2 (1 / IZR ns)).
  induction os as [| o os IH]; intros im c.
  - exists []. reflexivity.
  - cbn [build_octaves]. fold ns.
    destruct (Z.eqb_spec (ns + 3) 0) as [E0 | _]; [ lia | ].
    pose proof (blur_scales_sigmas gaussian kappa (Z.to_nat (ns + 2))
                  (fmul (delta_min p) (of_int (2 ^ o))) im c) as Hb.
    pose proof (proj1 (blur_scales_lengths gaussian (Z.to_nat (ns + 2))
                         (fmul (delta_min p) (of_int (2 ^ o))) (Fin kappa) im (Fin c)))
      as Hl.
    fold kappa.
    destruct (blur_scales gaussian (Z.to_nat (ns + 2)) _ (Fin kappa) im (Fin c))
      as [ls sg].
    cbn [fst snd] in Hb, Hl. subst sg.
    assert (Hrow : Fin c :: map (fun j => Fin (c * kappa ^ S j)) (seq 0 (Z.to_nat (ns + 2)))
                   = map (fun j => Fin (c * kappa ^ j)) (seq 0 (Z.to_nat (ns + 3)))).
    { replace (Z.to_nat (ns + 3)) with (S (Z.to_nat (ns + 2))) by lia.
      cbn [seq map]. f_equal; [ f_equal; simpl; ring | ].
      rewrite <- seq_shift, map_map. reflexivity. }
    rewrite Hrow.
    rewrite (py_index_nth im (im :: ls) ns) by (cbn [length]; lia).
    cbn [rbind].
    rewrite (py_index_nth NaN _ ns) by (rewrite length_map, length_seq; lia).
    cbn [rbind].
    rewrite nth_map_seq by lia.
    unfold kappa at 2. rewrite (kappa_power ns Hns).
    destruct (IH (subsample (nth (Z.to_nat ns) (im :: ls) im)) (c * 2)) as [vs Hv].
    rewrite Hv. cbn [rbind].
    exists (stack (ishape im) (im :: ls) :: vs).
    f_equal. f_equal. cbn [length seq map]. f_equal.
    + apply map_ext. intro j. f_equal. unfold kappa. rewrite kappa_step by exact Hns.
      simpl. ring.
    + rewrite <- seq_shift, map_map. apply map_ext. intro i.
      apply map_ext. intro j. f_equal. simpl. ring.
Qed.

(** X12: in exact arithmetic, on an instance with a positive [delta_min]
    (the code divides by it) and at least one scale, [_create_scalespace]
    returns for every image and fills the table of sigmas: the sigma of
    layer [j] of octave [o] is [sigma_min * 2 ** (o + j / n_scales)]. *)
Theorem sigmas_double_every_octave :
  forall (rescale : image xreal -> Z -> image xreal)
         (gaussian : image xreal -> xreal -> image xreal)
         (im : image xreal) (s : SIFT xreal) (sigma delta : R),
    sigma_min (params s) = Fin sigma ->
    delta_min (params s) = Fin delta ->
    0 < delta ->
    (1 <= n_scales (params s))%Z ->
    (0 <= n_octaves (params s))%Z ->
    exists gs,
      _create_scalespace rescale gaussian im s
      = (Ok gs,
         set_scalespace_sigmas
           (map (fun o =>
                   map (fun j =>
                          Fin (sigma * 2 ^ o
                               * Rpower 2 (INR j / IZR (n_scales (params s)))))
                       (seq 0 (Z.to_nat (n_scales (params s) + 3))))
                (seq 0 (Z.to_nat (n_octaves (params s)))))
           s)
      /\ length gs = Z.to_nat (n_octaves (params s)).
Proof.
  intros rescale gaussian im s sigma delta Hsig _ _ Hns Hno.
  unfold _create_scalespace, bind, get_self, lift, modify, ret.
  destruct (Z.ltb_spec (n_octaves (params s)) 0) as [H | _]; [ lia | ].
  destruct (Z.ltb_spec (n_scales (params s) + 3) 0) as [H | _]; [ lia | ].
  cbn [orb].
  assert (Ek : fpow (of_int 2) (fdiv (of_int 1) (of_int (n_scales (params s))))
               = Fin (Rpower 2 (1 / IZR (n_scales (params s))))).
  { cbn [fpow fdiv of_int ideal ideal_libm xdiv].
    rewrite Reqb_false by (apply not_0_IZR; lia).
    cbn [xpow]. rewrite Rltb_true by lra. reflexivity. }
  rewrite Ek, Hsig.
  match goal with
  | |- context [build_octaves gaussian ?p ?k ?os ?i ?c] =>
      destruct (build_octaves_sigmas gaussian p os Hns i sigma) as [vs Hv]
  end.
  rewrite Hv. exists vs. unfold zrange. rewrite length_map, length_seq.
  split; [ reflexivity | ].
  apply build_octaves_length in Hv. rewrite Hv.
  unfold zrange. rewrite length_map, length_seq. reflexivity.
Qed.

(** ** Exact arithmetic: the peaks of the orientation histogram *)

Lemma fit_fin (a b c : R) :
  a + c - 2 * b <> 0 ->
  _fit (Fin a, Fin b, Fin c) = Fin ((a - c) / (2 * (a + c - 2 * b))).
Proof.
  intro Hd. unfold _fit.
  cbn [of_int fadd fsub fmul fdiv ideal xadd xsub xopp xmul xdiv].
  rewrite Reqb_false by lra. reflexivity.
Qed.

Lemma fit_bound (a b c : R) :
  a <= b -> c <= b -> a < b \/ c < b ->
  a + c - 2 * b < 0
  /\ - (1 / 2) <= (a - c) / (2 * (a + c - 2 * b)) <= 1 / 2.
Proof.
  intros Ha Hc Hs.
  assert (Hd : a + c - 2 * b < 0) by lra.
  split; [ exact Hd | ].
  set (D := a + c - 2 * b) in *.
  split.
  - apply Rmult_le_reg_r with (- (2 * D)); [ lra | ].
    unfold Rdiv. replace ((a - c) * / (2 * D) * - (2 * D)) with (- (a - c)) by (field; lra).
    unfold D. lra.
  - apply Rmult_le_reg_r with (- (2 * D)); [ lra | ].
    unfold Rdiv. replace ((a - c) * / (2 * D) * - (2 * D)) with (- (a - c)) by (field; lra).
    unfold D. lra.
Qed.

(** X13: on a bin that is not below its neighbours, and above one of them,
    [_fit] returns the point where the parabola through the three bins is
    largest, at most half a bin from the middle one. *)
Theorem fit_maximises_the_parabola :
  forall a b c : R,
    a <= b -> c <= b -> a < b \/ c < b ->
    exists x : R,
      _fit (Fin a, Fin b, Fin c) = Fin x
      /\ - (1 / 2) <= x <= 1 / 2
      /\ parabola a b c (-1) = a /\ parabola a b c 0 = b /\ parabola a b c 1 = c
      /\ forall t : R, parabola a b c t <= parabola a b c x.
Proof.
  intros a b c Ha Hc Hs.
  destruct (fit_bound a b c Ha Hc Hs) as [Hd Hx].
  exists ((a - c) / (2 * (a + c - 2 * b))).
  split; [ apply fit_fin; lra | ].
  split; [ exact Hx | ].
  repeat split; try (unfold parabola; field).
  intro t. unfold parabola.
  set (D := a + c - 2 * b) in *.
  set (x := (a - c) / (2 * D)).
  assert (Ex : c - a = - (2 * D * x)) by (unfold x; field; lra).
  replace ((c - a) / 2) with (- (D * x)) by lra.
  pose proof (Rle_0_sqr (t - x)) as Hsq. unfold Rsqr in Hsq.
  assert (Hp : 0 <= - D * ((t - x) * (t - x))) by (apply Rmult_le_pos; lra).
  lra.
Qed.

Lemma nth_map_Fin (hs : list R) (k : nat) :
  nth k (map Fin hs) (of_int 0) = Fin (nth k hs 0).
Proof. change (of_int 0) with (Fin 0). apply map_nth. Qed.

(** X14: at a bin that is a peak among its circular neighbours the angle is an
    angle of that bin, brought into (-pi, pi]. *)
Theorem peak_angle_of_a_circular_peak :
  forall (self : SIFT xreal) (hs : list R) (m : nat),
    n_bins (params self) = Z.of_nat (length hs) ->
    (m < length hs)%nat ->
    circular_bin hs (Z.of_nat m - 1) <= circular_bin hs (Z.of_nat m) ->
    circular_bin hs (Z.of_nat m + 1) <= circular_bin hs (Z.of_nat m) ->
    (circular_bin hs (Z.of_nat m - 1) < circular_bin hs (Z.of_nat m)
     \/ circular_bin hs (Z.of_nat m + 1) < circular_bin hs (Z.of_nat m)) ->
    exists (theta : R) (turn : Z),
      peak_angle self (map Fin hs) m = Fin theta
      /\ - PI < theta <= PI
      /\ (turn = 0 \/ turn = 1)%Z
      /\ 2 * PI * INR m / INR (length hs)
         <= theta + 2 * PI * IZR turn
         <= 2 * PI * (INR m + 1) / INR (length hs).
Proof.
  intros self hs m Hnb Hm Ha Hc Hs.
  destruct (fit_bound _ _ _ Ha Hc Hs) as [Hd Hx].
  pose proof (fit_fin _ (circular_bin hs (Z.of_nat m)) _ (Rlt_not_eq _ _ Hd)) as Hfit.
  set (x := (_ - _) / _) in Hfit, Hx.
  unfold circular_bin in Hfit.
  unfold peak_angle. cbv zeta. rewrite length_map, !nth_map_Fin.
  replace (Z.of_nat m + 0)%Z with (Z.of_nat m) by lia.
  change (Z.of_nat m + -1)%Z with (Z.of_nat m - 1)%Z.
  rewrite Hfit, Hnb.
  pose proof PI_RGT_0 as Hpi.
  assert (Hn : 0 < INR (length hs)) by (apply lt_0_INR; lia).
  assert (Hm1 : INR m + 1 <= INR (length hs)).
  { rewrite <- S_INR. apply le_INR. lia. }
  assert (Hm0 : 0 <= INR m) by apply pos_INR.
  unfold lit.
  cbn [of_int fadd fsub fmul fdiv fltb fpi ideal xadd xsub xopp xmul xdiv].
  rewrite (Reqb_false 2 0) by lra.
  cbn [xadd xmul xdiv].
  rewrite <- !INR_IZR_INZ.
  rewrite (Reqb_false (INR (length hs)) 0) by lra.
  set (q := 2 * PI / INR (length hs)).
  assert (Hq : 0 < q) by (unfold q; apply Rdiv_lt_0_compat; lra).
  assert (Hqn : INR (length hs) * q = 2 * PI) by (unfold q; field; lra).
  set (ori := (INR m + x + 1 / 2) * 2 * PI / INR (length hs)).
  assert (Eo : ori = (INR m + x + 1 / 2) * q) by (unfold ori, q; field; lra).
  assert (Hlo : INR m * q <= ori) by (rewrite Eo; apply Rmult_le_compat_r; lra).
  assert (Hhi : ori <= (INR m + 1) * q) by (rewrite Eo; apply Rmult_le_compat_r; lra).
  assert (Htop : (INR m + 1) * q <= 2 * PI).
  { rewrite <- Hqn. apply Rmult_le_compat_r; lra. }
  assert (Hbot : 0 <= INR m * q) by (apply Rmult_le_pos; lra).
  assert (E1 : 2 * PI * INR m / INR (length hs) = INR m * q) by (unfold q; field; lra).
  assert (E2 : 2 * PI * (INR m + 1) / INR (length hs) = (INR m + 1) * q)
    by (unfold q; field; lra).
  rewrite E1, E2.
  cbn [xltb]. destruct (Rlt_dec PI ori) as [Hgt | Hle].
  - rewrite (Rltb_true _ _ Hgt). cbn [xadd xopp xmul xsub].
    exists (ori + - (2 * PI)), 1%Z. repeat split; try lra. right. reflexivity.
  - rewrite (Rltb_false PI ori) by lra.
    exists ori, 0%Z. repeat split; try lra. left. reflexivity.
Qed.

(** *** The accepted bins *)

Lemma maximum_fin (a b : R) : maximum (Fin a) (Fin b) = Fin (Rmax a b).
Proof.
  unfold maximum, isnan. cbn [fleb feqb ideal xleb xeqb].
  rewrite (Reqb_true a a) by reflexivity. cbn [negb]. rewrite orb_false_r.
  unfold Rmax. destruct (Rle_dec a b) as [H | H].
  - destruct (Rle_dec b a) as [H' | H'].
    + rewrite (Rleb_true _ _ H'). f_equal. lra.
    + rewrite (Rleb_false b a) by lra. reflexivity.
  - rewrite (Rleb_true b a) by lra. reflexivity.
Qed.

Lemma fold_maximum_fin (hs : list R) :
  forall h, fold_left maximum (map Fin hs) (Fin h) = Fin (fold_left Rmax hs h).
Proof.
  induction hs as [| y hs IH]; intro h; [ reflexivity | ].
  cbn [map fold_left]. rewrite maximum_fin. apply IH.
Qed.

Lemma fold_Rmax_spec (hs : list R) :
  forall h,
    In (fold_left Rmax hs h) (h :: hs)
    /\ Forall (fun y => y <= fold_left Rmax hs h) (h :: hs).
Proof.
  induction hs as [| y hs IH]; intro h; cbn [fold_left].
  - split; [ left; reflexivity | constructor; [ lra | constructor ] ].
  - destruct (IH (Rmax h y)) as [Hin Hall].
    inversion Hall as [| z l Hz Hrest]; subst.
    split.
    + destruct Hin as [E | Hin]; [ | right; right; exact Hin ].
      rewrite <- E. unfold Rmax. destruct (Rle_dec h y); [ right; left | left ]; reflexivity.
    + pose proof (Rmax_l h y). pose proof (Rmax_r h y).
      constructor; [ lra | constructor; [ lra | exact Hrest ] ].
Qed.

Lemma fmax_list_fin (hs : list R) (M : R) :
  In M hs -> Forall (fun h => h <= M) hs -> fmax_list (map Fin hs) = Fin M.
Proof.
  intros Hin Hall. destruct hs as [| h hs]; [ destruct Hin | ].
  cbn [map fmax_list]. rewrite fold_maximum_fin. f_equal.
  destruct (fold_Rmax_spec hs h) as [Hin' Hall'].
  rewrite Forall_forall in Hall, Hall'.
  apply Rle_antisym; [ apply Hall, Hin' | apply Hall', Hin ].
Qed.

Lemma Rmax3_eq (a b c : R) : Rmax (Rmax a b) c = b <-> a <= b /\ c <= b.
Proof.
  unfold Rmax. destruct (Rle_dec a b); destruct (Rle_dec _ c); split; intros; lra.
Qed.

(** X15: the bins [find_maxima] accepts: those that reach [c_max] times the
    largest bin and are not below the bin before and the bin after; the
    first bin has no bin before it and the last bin none after it. A
    histogram whose largest bin is not negative has an accepted bin when
    [c_max] is at most 1. *)
Theorem find_maxima_accepts :
  forall (self : SIFT xreal) (hs : list R) (cm M : R),
    c_max (params self) = Fin cm ->
    In M hs ->
    Forall (fun h => h <= M) hs ->
    (forall m : nat,
        In m (find_maxima self (map Fin hs))
        <-> (m < length hs)%nat
            /\ cm * M <= nth m hs 0
            /\ nth (m - 1) hs 0 <= nth m hs 0
            /\ nth (if (S m =? length hs)%nat then m else S m) hs 0 <= nth m hs 0)
    /\ (0 <= M -> cm <= 1 ->
        exists m : nat, In m (find_maxima self (map Fin hs)) /\ nth m hs 0 = M).
Proof.
  intros self hs cm M Hcm Hin Hall.
  assert (Hspec : forall m : nat,
             In m (find_maxima self (map Fin hs))
             <-> (m < length hs)%nat
                 /\ cm * M <= nth m hs 0
                 /\ nth (m - 1) hs 0 <= nth m hs 0
                 /\ nth (if (S m =? length hs)%nat then m else S m) hs 0 <= nth m hs 0).
  { intro m. unfold find_maxima. cbv zeta.
    rewrite filter_In, in_seq, length_map, Hcm, (fmax_list_fin hs M Hin Hall).
    split.
    - intros [[_ Hm] Hf]. cbn [Nat.add] in Hm. split; [ exact Hm | ].
      apply andb_true_iff in Hf. destruct Hf as [Ht Hf].
      unfold maximum_filter in Hf. rewrite length_map in Hf.
      rewrite nth_map_seq in Hf by exact Hm.
      rewrite !nth_map_Fin, !maximum_fin in Hf. rewrite !nth_map_Fin in Ht.
      cbn [fmul fleb feqb ideal xmul xleb xeqb] in Ht, Hf.
      apply Rleb_iff in Ht. split; [ exact Ht | ].
      unfold Reqb in Hf. destruct (Req_dec_T _ _) as [E | E]; [ | discriminate Hf ].
      apply Rmax3_eq in E. exact E.
    - intros (Hm & Ht & Ha & Hc). split; [ lia | ].
      apply andb_true_iff. split.
      + rewrite !nth_map_Fin. cbn [fmul fleb ideal xmul xleb]. apply Rleb_iff. exact Ht.
      + unfold maximum_filter. rewrite length_map.
        rewrite nth_map_seq by exact Hm.
        rewrite !nth_map_Fin, !maximum_fin. cbn [feqb ideal xeqb].
        apply Reqb_true. apply Rmax3_eq. split; assumption. }
  split; [ exact Hspec | ].
  intros HM Hc1.
  destruct (In_nth hs M 0 Hin) as (m & Hm & Em).
  exists m. split; [ | exact Em ].
  apply Hspec. rewrite Forall_forall in Hall.
  split; [ exact Hm | ]. rewrite Em.
  split; [ nra | ].
  split; apply Hall.
  - apply nth_In. lia.
  - apply nth_In. destruct (Nat.eqb_spec (S m) (length hs)); lia.
Qed.

(** ** Runs on the default instance *)

Lemma default_instance :
  exists s0 : SIFT xreal,
    __init__ default_args = Ok s0
    /\ upsampling (params s0) = 2%Z
    /\ n_octaves (params s0) = 8%Z
    /\ n_scales (params s0) = 3%Z
    /\ length (deltas (params s0)) = 7%nat
    /\ n_bins (params s0) = 36%Z
    /\ sigma_min (params s0) = Fin (16 / 10 / 2)
    /\ c_max (params s0) = Fin (8 / 10)
    /\ scales s0 = None.
Proof.
  destruct (init_with_n_scales 3) as [s0 E]; [ discriminate | ].
  change (with_n_scales 3 default_args) with (default_args : Args xreal) in E.
  exists s0. split; [ exact E | ].
  unfold __init__ in E. simpl in E. injection E as <-.
  cbn [upsampling n_octaves n_scales deltas n_bins sigma_min c_max scales params].
  repeat split.
  - unfold default_args, arg_sigma_min, lit. xeval. reflexivity.
  - unfold default_args, arg_c_max, lit. xeval. reflexivity.
Qed.

Lemma default_delta_min (s0 : SIFT xreal) :
  __init__ default_args = Ok s0 -> delta_min (params s0) = Fin (1 / 2).
Proof.
  intro E. unfold __init__ in E. simpl in E. injection E as <-.
  cbn [params delta_min]. xeval. reflexivity.
Qed.

Lemma default_octaves (s0 : SIFT xreal) (side k : Z) :
  upsampling (params s0) = 2%Z ->
  n_octaves (params s0) = 8%Z ->
  (0 <= k)%Z ->
  (12 * 2 ^ k <= side * 4 < 12 * 2 ^ (k + 1))%Z ->
  _number_of_octaves s0 (n_octaves (params s0)) (ishape (black side)) = Ok (Z.min 8 k).
Proof.
  intros Hu Ho Hk Hs. rewrite Ho.
  apply number_of_octaves_floor; rewrite ?Hu; try lia.
  cbn [black ishape fst snd]. rewrite Z.min_id. exact Hs.
Qed.

Lemma operations_need_a_delta_per_octave_witness :
  exists s0 : SIFT xreal,
    _number_of_octaves s0 (n_octaves (params s0)) (ishape (black 768)) = Ok 8%Z
    /\ (Z.of_nat (length (deltas (params s0))) < 8)%Z
    /\ (exists e s',
           detect keep_image keep_blur no_peaks no_histogram (black 768) s0
           = (Raise e, s'))
    /\ (exists e s',
           detect_and_extract keep_image keep_blur no_peaks no_histogram no_descriptor
             (black 768) s0
           = (Raise e, s')).
Proof.
  destruct default_instance as (s0 & _ & Hu & Ho & _ & Hd & _).
  exists s0.
  assert (Hn : _number_of_octaves s0 (n_octaves (params s0)) (ishape (black 768))
               = Ok 8%Z).
  { exact (default_octaves s0 768 8 Hu Ho ltac:(lia) ltac:(simpl; lia)). }
  assert (Hl : (Z.of_nat (length (deltas (params s0))) < 8)%Z) by (rewrite Hd; lia).
  split; [ exact Hn | split; [ exact Hl | ] ].
  exact (operations_need_a_delta_per_octave keep_image keep_blur no_peaks no_histogram
           no_descriptor (black 768) s0 8%Z Hn Hl).
Defined.

Lemma operations_need_an_octave_witness :
  exists s0 : SIFT xreal,
    _number_of_octaves s0 (n_octaves (params s0)) (ishape (black 3)) = Ok 0%Z
    /\ (0 <= 0)%Z
    /\ (exists e s',
           detect keep_image keep_blur no_peaks no_histogram (black 3) s0
           = (Raise e, s'))
    /\ (exists e s',
           detect_and_extract keep_image keep_blur no_peaks no_histogram no_descriptor
             (black 3) s0
           = (Raise e, s')).
Proof.
  destruct default_instance as (s0 & _ & Hu & Ho & _).
  exists s0.
  assert (Hn : _number_of_octaves s0 (n_octaves (params s0)) (ishape (black 3))
               = Ok 0%Z).
  { exact (default_octaves s0 3 0 Hu Ho ltac:(lia) ltac:(simpl; lia)). }
  split; [ exact Hn | split; [ lia | ] ].
  exact (operations_need_an_octave keep_image keep_blur no_peaks no_histogram
           no_descriptor (black 3) s0 0%Z Hn ltac:(lia)).
Defined.

Lemma extract_needs_keypoints_witness :
  exists s0 : SIFT xreal,
    scales s0 = None
    /\ exists e s',
         extract keep_image keep_blur no_descriptor (black 12) s0 = (Raise e, s')
         /\ descriptors s' = descriptors s0.
Proof.
  destruct default_instance as (s0 & _ & _ & _ & _ & _ & _ & _ & _ & Hs).
  exists s0. split; [ exact Hs | ].
  exact (extract_needs_keypoints keep_image keep_blur no_descriptor (black 12) s0 Hs).
Defined.


Lemma scalespace_octaves_halve_witness :
  (forall im sigma, ishape (keep_blur im sigma) = ishape im)
  /\ exists (s0 s' : SIFT xreal) (gs : list (volume xreal)),
       (1 <= n_scales (params s0))%Z
       /\ _create_scalespace keep_image keep_blur (black 12) s0 = (Ok gs, s')
       /\ length gs = Z.to_nat (n_octaves (params s0))
       /\ forall (o : nat) (d : volume xreal),
            (o < length gs)%nat ->
            vshape (nth o gs d)
            = ((fst (ishape (upsampled keep_image s0 (black 12)))
                + 2 ^ Z.of_nat o - 1) / 2 ^ Z.of_nat o,
               (snd (ishape (upsampled keep_image s0 (black 12)))
                + 2 ^ Z.of_nat o - 1) / 2 ^ Z.of_nat o,
               n_scales (params s0) + 3)%Z.
Proof.
  split; [ reflexivity | ].
  destruct default_instance as (s0 & _ & _ & Ho & Hs & _).
  assert (H1 : (1 <= n_scales (params s0))%Z) by (rewrite Hs; lia).
  assert (H2 : (0 <= n_octaves (params s0))%Z) by (rewrite Ho; lia).
  destruct (create_scalespace_shapes keep_image keep_blur (fun _ _ => eq_refl)
              (black 12) s0 ltac:(lia) H2) as (gs & sig & E & _).
  exists s0, (set_scalespace_sigmas sig s0), gs.
  split; [ exact H1 | split; [ exact E | ] ].
  exact (scalespace_octaves_halve keep_image keep_blur (fun _ _ => eq_refl)
           (black 12) s0 _ gs H1 E).
Defined.

Lemma operations_assign_floor_log2_witness :
  exists s0 : SIFT xreal,
    (0 <= upsampling (params s0))%Z
    /\ (0 <= 2)%Z
    /\ (12 * 2 ^ 2
        <= Z.min (fst (ishape (black 12))) (snd (ishape (black 12)))
           * 2 ^ upsampling (params s0)
        < 12 * 2 ^ (2 + 1))%Z
    /\ n_octaves (params (snd (detect keep_image keep_blur no_peaks no_histogram
                                 (black 12) s0)))
       = Z.min (n_octaves (params s0)) 2
    /\ n_octaves (params (snd (extract keep_image keep_blur no_descriptor
                                 (black 12) s0)))
       = Z.min (n_octaves (params s0)) 2
    /\ n_octaves (params (snd (detect_and_extract keep_image keep_blur no_peaks
                                 no_histogram no_descriptor (black 12) s0)))
       = Z.min (n_octaves (params s0)) 2.
Proof.
  destruct default_instance as (s0 & _ & Hu & _).
  exists s0.
  assert (H1 : (0 <= upsampling (params s0))%Z) by (rewrite Hu; lia).
  assert (H2 : (0 <= 2)%Z) by lia.
  assert (H3 : (12 * 2 ^ 2
                <= Z.min (fst (ishape (black 12))) (snd (ishape (black 12)))
                   * 2 ^ upsampling (params s0)
                < 12 * 2 ^ (2 + 1))%Z) by (rewrite Hu; simpl; lia).
  split; [ exact H1 | split; [ exact H2 | split; [ exact H3 | ] ] ].
  exact (operations_assign_floor_log2 keep_image keep_blur no_peaks no_histogram
           no_descriptor (black 12) s0 2%Z H1 H2 H3).
Defined.

Lemma sigmas_double_every_octave_witness :
  exists s0 : SIFT xreal,
    sigma_min (params s0) = Fin (16 / 10 / 2)
    /\ delta_min (params s0) = Fin (1 / 2)
    /\ 0 < 1 / 2
    /\ (1 <= n_scales (params s0))%Z
    /\ (0 <= n_octaves (params s0))%Z
    /\ exists gs,
         _create_scalespace keep_image keep_blur (black 12) s0
         = (Ok gs,
            set_scalespace_sigmas
              (map (fun o =>
                      map (fun j =>
                             Fin (16 / 10 / 2 * 2 ^ o
                                  * Rpower 2 (INR j / IZR (n_scales (params s0)))))
                          (seq 0 (Z.to_nat (n_scales (params s0) + 3))))
                   (seq 0 (Z.to_nat (n_octaves (params s0)))))
              s0)
         /\ length gs = Z.to_nat (n_octaves (params s0)).
Proof.
  destruct default_instance as (s0 & E & _ & Ho & Hs & _ & _ & Hm & _).
  exists s0.
  assert (H1 : (1 <= n_scales (params s0))%Z) by (rewrite Hs; lia).
  assert (H2 : (0 <= n_octaves (params s0))%Z) by (rewrite Ho; lia).
  assert (Hd : delta_min (params s0) = Fin (1 / 2)) by exact (default_delta_min s0 E).
  assert (H0 : 0 < 1 / 2) by lra.
  split; [ exact Hm | split; [ exact Hd | split; [ exact H0 | ] ] ].
  split; [ exact H1 | split; [ exact H2 | ] ].
  exact (sigmas_double_every_octave keep_image keep_blur (black 12) s0 _ _
           Hm Hd H0 H1 H2).
Defined.

Lemma fit_maximises_the_parabola_witness :
  1 <= 2 /\ 1 <= 2 /\ (1 < 2 \/ 1 < 2)
  /\ exists x : R,
       _fit (Fin 1, Fin 2, Fin 1) = Fin x
       /\ - (1 / 2) <= x <= 1 / 2
       /\ parabola 1 2 1 (-1) = 1 /\ parabola 1 2 1 0 = 2 /\ parabola 1 2 1 1 = 1
       /\ forall t : R, parabola 1 2 1 t <= parabola 1 2 1 x.
Proof.
  assert (H1 : 1 <= 2) by lra.
  assert (H2 : 1 < 2 \/ 1 < 2) by (left; lra).
  split; [ exact H1 | split; [ exact H1 | split; [ exact H2 | ] ] ].
  exact (fit_maximises_the_parabola 1 2 1 H1 H1 H2).
Defined.

Lemma one_peak_bins :
  circular_bin one_peak (Z.of_nat 6 - 1) = 1
  /\ circular_bin one_peak (Z.of_nat 6) = 2
  /\ circular_bin one_peak (Z.of_nat 6 + 1) = 1.
Proof. repeat split. Qed.

Lemma peak_angle_of_a_circular_peak_witness :
  exists s0 : SIFT xreal,
    n_bins (params s0) = Z.of_nat (length one_peak)
    /\ (6 < length one_peak)%nat
    /\ exists (theta : R) (turn : Z),
         peak_angle s0 (map Fin one_peak) 6 = Fin theta
         /\ - PI < theta <= PI
         /\ (turn = 0 \/ turn = 1)%Z
         /\ 2 * PI * INR 6 / INR (length one_peak)
            <= theta + 2 * PI * IZR turn
            <= 2 * PI * (INR 6 + 1) / INR (length one_peak).
Proof.
  destruct default_instance as (s0 & _ & _ & _ & _ & _ & Hb & _).
  exists s0.
  assert (H1 : n_bins (params s0) = Z.of_nat (length one_peak))
    by (rewrite Hb; reflexivity).
  assert (H2 : (6 < length one_peak)%nat) by (simpl; lia).
  destruct one_peak_bins as (Ea & Eb & Ec).
  split; [ exact H1 | split; [ exact H2 | ] ].
  apply (peak_angle_of_a_circular_peak s0 one_peak 6 H1 H2);
    rewrite ?Ea, ?Eb, ?Ec; lra.
Defined.

Lemma find_maxima_accepts_witness :
  exists s0 : SIFT xreal,
    c_max (params s0) = Fin (8 / 10)
    /\ In 3 [1; 3; 2]
    /\ Forall (fun h => h <= 3) [1; 3; 2]
    /\ (forall m : nat,
           In m (find_maxima s0 (map Fin [1; 3; 2]))
           <-> (m < length [1; 3; 2])%nat
               /\ 8 / 10 * 3 <= nth m [1; 3; 2] 0
               /\ nth (m - 1) [1; 3; 2] 0 <= nth m [1; 3; 2] 0
               /\ nth (if (S m =? length [1; 3; 2])%nat then m else S m) [1; 3; 2] 0
                  <= nth m [1; 3; 2] 0)
    /\ (0 <= 3 -> 8 / 10 <= 1 ->
        exists m : nat,
          In m (find_maxima s0 (map Fin [1; 3; 2])) /\ nth m [1; 3; 2] 0 = 3).
Proof.
  destruct default_instance as (s0 & _ & _ & _ & _ & _ & _ & _ & Hc & _).
  exists s0.
  assert (H1 : In 3 [1; 3; 2]) by (right; left; reflexivity).
  assert (H2 : Forall (fun h => h <= 3) [1; 3; 2]) by (repeat constructor; lra).
  split; [ exact Hc | split; [ exact H1 | split; [ exact H2 | ] ] ].
  exact (find_maxima_accepts s0 [1; 3; 2] (8 / 10) 3 Hc H1 H2).
Defined.


(** ** A keypoint of a round peak *)

Lemma centre_peak_inside (v : volume xreal) (t : xreal) :
  Forall (fun k => inside3 k (vshape v) = true) (centre_peak v t).
Proof.
  unfold centre_peak. destruct (inside3 (1, 1, 1)%Z (vshape v)) eqn:E; cbn [andb].
  - destruct (fltb _ _); repeat constructor. exact E.
  - constructor.
Qed.

Lemma dome_peaks (t : xreal) :
  centre_peak dome_octave t ++ centre_peak (vneg dome_octave) t = [(1, 1, 1)%Z].
Proof.
  unfold centre_peak, vneg, dome_octave, int_volume. xeval. reflexivity.
Qed.

Lemma dome_hessian :
  _hessian dome_octave (1, 1, 1)%Z
  = ((Fin (-4), Fin 0, Fin 0), (Fin 0, Fin (-4), Fin 0), (Fin 0, Fin 0, Fin (-4))).
Proof.
  unfold _hessian, dome_octave, int_volume, lit. xeval. xfin.
Qed.

Lemma dome_jacobian (grad : volume xreal * volume xreal * volume xreal) :
  np_gradient dome_octave = Ok grad ->
  jacobian grad (1, 1, 1)%Z = (Fin 0, Fin 0, Fin 0).
Proof.
  unfold np_gradient. simpl. intro E. injection E as <-.
  unfold jacobian, vget, np_gradient1, dome_octave, int_volume. xeval. xfin.
Qed.

Lemma dome_solve :
  solve3 (mneg ((Fin (-4), Fin 0, Fin 0), (Fin 0, Fin (-4), Fin 0), (Fin 0, Fin 0, Fin (-4))))
         (Fin 0, Fin 0, Fin 0)
  = Ok (Fin 0, Fin 0, Fin 0).
Proof.
  simpl. unfold det3. xeval. xfin.
Qed.

Lemma dome_localize (grad : volume xreal * volume xreal * volume xreal) :
  np_gradient dome_octave = Ok grad ->
  localize 4 dome_octave grad [true] [(1, 1, 1)%Z]
  = Ok ([(1, 1, 1)%Z], [(Fin 0, Fin 0, Fin 0)],
        [((Fin (-4), Fin 0, Fin 0), (Fin 0, Fin (-4), Fin 0), (Fin 0, Fin 0, Fin (-4)))],
        [(Fin 0, Fin 0, Fin 0)]).
Proof.
  intro E. rewrite localize_step.
  unfold iter_solve, iter_still_in, iter_wrong, iter_pos, iter_neg.
  change (vshape dome_octave) with (3, 3, 3)%Z.
  cbn [combine map fst snd andb mask_select].
  change (_inrange (1, 1, 1)%Z (3, 3, 3)%Z) with true.
  cbn [combine map fst snd andb mask_select].
  rewrite (dome_jacobian grad E), dome_hessian.
  unfold solve_all. cbn [length Nat.eqb combine rmap fst snd].
  rewrite dome_solve. cbn [rbind combine map fst snd].
  unfold wrong_position_pos, wrong_position_neg, lit. xeval.
  reflexivity.
Qed.

Lemma small_sigmas_params (s0 : SIFT xreal) :
  __init__ default_args = Ok s0 ->
  c_dog (params (with_small_sigmas s0)) = Fin (4 / 100 / 3)
  /\ n_scales (params (with_small_sigmas s0)) = 3%Z
  /\ c_edge (params (with_small_sigmas s0)) = Fin 10.
Proof.
  intro E. cbn [with_small_sigmas set_scalespace_sigmas params].
  destruct (init_c_dog default_args s0 (4 / 100 / 3) E (default_c_dog 3)) as (_ & Hs & Hc).
  rewrite Hc, Hs. change (arg_n_scales default_args) with 3%Z.
  rewrite final_c_dog_3. repeat split. exact (default_c_edge s0 E).
Qed.

Lemma dome_finished : finished (Fin 0, Fin 0, Fin 0) = true.
Proof.
  unfold finished, lit. cbn [fabs fltb fdiv of_int ideal xabs xltb xdiv].
  rewrite Rabs_R0. xdecide. reflexivity.
Qed.

Lemma dome_contrast (s0 : SIFT xreal) :
  __init__ default_args = Ok s0 ->
  contrast_filter (with_small_sigmas s0)
    (interpolated (vget dome_octave (1, 1, 1)%Z) (Fin 0, Fin 0, Fin 0)
       (Fin 0, Fin 0, Fin 0))
  = true.
Proof.
  intro E. destruct (small_sigmas_params s0 E) as (Hc & Hs & _).
  unfold contrast_filter, contrast_threshold. rewrite Hc, Hs.
  unfold interpolated, vget, dome_octave, int_volume, lit. xeval.
  apply Rltb_true. rewrite Rabs_right; lra.
Qed.

Lemma dome_edge (s0 : SIFT xreal) :
  __init__ default_args = Ok s0 ->
  edge_filter (with_small_sigmas s0)
    ((Fin (-4), Fin 0, Fin 0), (Fin 0, Fin (-4), Fin 0), (Fin 0, Fin 0, Fin (-4)))
  = true.
Proof.
  intro E. destruct (small_sigmas_params s0 E) as (_ & _ & He).
  apply (edge_filter_spec _ _ 10 (-4) 0 (-4) He); [ lra | reflexivity | ].
  unfold det2, tr2. split; [ lra | ].
  rewrite Rabs_right; lra.
Qed.

Lemma dome_evaluate (s0 : SIFT xreal) (d : R) :
  __init__ default_args = Ok s0 ->
  d = 1 / 2 ->
  exists p,
    evaluate_octave centre_peak (with_small_sigmas s0) (4, 4)%Z 0 dome_octave (Fin d)
    = Ok [p].
Proof.
  intros E ->. unfold evaluate_octave. cbv zeta. rewrite !dome_peaks.
  destruct (np_gradient dome_octave) as [grad | e] eqn:Eg; [ | discriminate Eg ].
  cbn [rbind map]. rewrite (dome_localize grad Eg). cbn [rbind].
  unfold zip4. cbn [combine filter ex_off ex_key ex_J ex_H fst snd].
  rewrite dome_finished. cbn [filter ex_off ex_key ex_J ex_H fst snd].
  rewrite (dome_contrast s0 E). cbn [filter ex_off ex_key ex_J ex_H fst snd].
  rewrite (dome_edge s0 E).
  cbn [with_small_sigmas set_scalespace_sigmas scalespace_sigmas attr rbind].
  change (py_index [[Fin (1 / 8); Fin (1 / 4); Fin (1 / 2)]] 0)
    with (Ok [Fin (1 / 8); Fin (1 / 4); Fin (1 / 2)] : result (list xreal)).
  cbn [rbind].
  change (py_index [Fin (1 / 8); Fin (1 / 4); Fin (1 / 2)] 1)
    with (Ok (Fin (1 / 4)) : result xreal).
  change (py_index [Fin (1 / 8); Fin (1 / 4); Fin (1 / 2)] 0)
    with (Ok (Fin (1 / 8)) : result xreal).
  cbn [rbind rmap]. unfold locate, ex_key, ex_off. cbn [fst snd].
  change (py_index [Fin (1 / 8); Fin (1 / 4); Fin (1 / 2)] 1)
    with (Ok (Fin (1 / 4)) : result xreal).
  cbn [rbind of_int fadd fmul fdiv fpow ideal ideal_libm xadd xmul xdiv].
  rewrite (Reqb_false (1 / 8) 0) by lra.
  cbn [xpow]. rewrite (Rltb_true 0 (1 / 4 / (1 / 8))) by lra.
  rewrite Rpower_O by lra.
  cbn [xmul]. unfold border_filter.
  cbn [filter of_int fadd fsub fltb ideal xadd xsub xopp xltb fst snd].
  xdecide. cbn [andb]. eexists. reflexivity.
Qed.

Lemma default_first_delta (s0 : SIFT xreal) :
  __init__ default_args = Ok s0 ->
  exists d rest,
    deltas (params (with_small_sigmas s0)) = Fin d :: rest /\ d = 1 / 2.
Proof.
  intro E. unfold __init__ in E. simpl in E. injection E as <-.
  cbn [with_small_sigmas set_scalespace_sigmas params deltas]. xeval.
  do 2 eexists. split; [ reflexivity | lra ].
Qed.

Lemma dome_found (s0 : SIFT xreal) :
  __init__ default_args = Ok s0 ->
  exists p,
    _find_localize_evaluate centre_peak (with_small_sigmas s0) [dome_octave] (4, 4)%Z
    = Ok ([(fst (fst (fst p)), snd (fst (fst p)))], [snd (fst p)], [snd p], [0%Z]).
Proof.
  intro E.
  destruct (default_first_delta s0 E) as (d & rest & Hd & Ed).
  destruct (dome_evaluate s0 d E Ed) as [p Hp].
  exists p. unfold _find_localize_evaluate. rewrite Hd.
  cbn [evaluate_octaves]. rewrite Hp. destruct rest; reflexivity.
Qed.

Lemma every_keypoint_passed_the_filters_witness :
  (forall v t, Forall (fun k => inside3 k (vshape v) = true) (centre_peak v t))
  /\ exists (s0 : SIFT xreal) (p : xreal * xreal) (scale : Z) (sigma : xreal),
       _find_localize_evaluate centre_peak (with_small_sigmas s0) [dome_octave]
         (4, 4)%Z
       = Ok ([p], [scale], [sigma], [0%Z])
       /\ Forall (fun kp : (xreal * xreal) * Z * xreal * Z =>
                    exists octave delta,
                      nth_error [dome_octave] (Z.to_nat (snd kp)) = Some octave
                      /\ nth_error (deltas (params (with_small_sigmas s0)))
                           (Z.to_nat (snd kp)) = Some delta
                      /\ (0 <= snd kp)%Z
                      /\ localized_at centre_peak (with_small_sigmas s0) (4, 4)%Z
                           (snd kp) octave delta (fst kp))
                 (combine (combine (combine [p] [scale]) [sigma]) [0%Z]).
Proof.
  split; [ exact centre_peak_inside | ].
  destruct default_instance as (s0 & E & _).
  destruct (dome_found s0 E) as [p Hp].
  exists s0, (fst (fst (fst p)), snd (fst (fst p))), (snd (fst p)), (snd p).
  split; [ exact Hp | ].
  exact (every_keypoint_passed_the_filters centre_peak (with_small_sigmas s0)
           [dome_octave] (4, 4)%Z _ _ _ _ centre_peak_inside Hp).
Defined.


(** ** A run of the whole pipeline *)

Lemma astype_int_IZR (t : Z) :
  (- 2 ^ 63 <= t < 2 ^ 63)%Z -> astype_int (Fin (IZR t)) = t.
Proof.
  intro H. unfold astype_int. cbn [trunc ideal]. rewrite xtrunc_IZR.
  destruct (Z.leb_spec (- 2 ^ 63) t); [ | lia ].
  destruct (Z.ltb_spec t (2 ^ 63)); [ | lia ].
  reflexivity.
Qed.

Lemma staged_blur_black (side : Z) (sigma : xreal) :
  staged_blur (black side) sigma = staged 1.
Proof.
  unfold staged_blur, black. cbn [pix].
  rewrite (astype_int_IZR 0) by lia. reflexivity.
Qed.

Lemma staged_blur_staged (t : Z) (sigma : xreal) :
  (- 2 ^ 63 <= t < 2 ^ 63)%Z -> staged_blur (staged t) sigma = staged (t + 1).
Proof.
  intro H. unfold staged_blur.
  replace (astype_int (pix (staged t) 0 0)) with t; [ reflexivity | ].
  symmetry. exact (astype_int_IZR t H).
Qed.

Lemma blur_scales_staged (n : nat) :
  forall (delta k : xreal) (t : Z) (c : xreal),
    (0 <= t)%Z -> (t + Z.of_nat n < 2 ^ 63)%Z ->
    fst (blur_scales staged_blur n delta k (staged t) c)
    = map (fun i => staged (t + 1 + Z.of_nat i)) (seq 0 n).
Proof.
  induction n as [| n IH]; intros delta k t c H0 H1; [ reflexivity | ].
  cbn [blur_scales]. rewrite staged_blur_staged by lia.
  match goal with
  | |- context [blur_scales staged_blur n delta k ?l ?cs] =>
      pose proof (IH delta k (t + 1)%Z cs ltac:(lia) ltac:(lia)) as IH';
      destruct (blur_scales staged_blur n delta k l cs) as [ls sg]
  end.
  cbn [fst] in *. cbn [seq map]. f_equal.
  - f_equal. lia.
  - rewrite IH'. rewrite <- seq_shift, map_map. apply map_ext. intro i.
    f_equal. lia.
Qed.

Lemma default_params (s0 : SIFT xreal) :
  __init__ default_args = Ok s0 ->
  upsampling (params s0) = 2%Z
  /\ n_octaves (params s0) = 8%Z
  /\ n_scales (params s0) = 3%Z
  /\ sigma_min (params s0) = Fin (16 / 10 / 2)
  /\ delta_min (params s0) = Fin (1 / 2)
  /\ lambda_ori (params s0) = Fin (3 / 2)
  /\ (exists rest, deltas (params s0) = Fin (1 / 2) :: rest /\ length rest = 6%nat).
Proof.
  intro E. unfold __init__ in E. simpl in E. injection E as <-.
  cbn [params upsampling n_octaves n_scales sigma_min delta_min lambda_ori deltas].
  repeat split.
  - unfold default_args, arg_sigma_min, lit. xeval. reflexivity.
  - xeval. reflexivity.
  - unfold default_args, arg_lambda_ori, lit. xeval. reflexivity.
  - xeval. eexists. split; [ f_equal; f_equal; lra | reflexivity ].
Qed.

Lemma staged_scalespace (s1 : SIFT xreal) :
  upsampling (params s1) = 2%Z ->
  n_octaves (params s1) = 1%Z ->
  n_scales (params s1) = 3%Z ->
  sigma_min (params s1) = Fin (16 / 10 / 2) ->
  _create_scalespace keep_image staged_blur (black 8) s1
  = (Ok [stack (8, 8)%Z (map (fun i => staged (1 + Z.of_nat i)) (seq 0 6))],
     set_scalespace_sigmas
       [Fin (16 / 10 / 2) :: map (fun j => Fin (16 / 10 / 2 * kappa3 ^ S j)) (seq 0 5)]
       s1).
Proof.
  intros Hu Ho Hs Hm.
  unfold _create_scalespace, bind, get_self, lift, modify, ret.
  rewrite Hu, Ho, Hs, Hm.
  change ((1 <? 0) || (3 + 3 <? 0))%Z with false. cbv iota.
  change (1 <? 2)%Z with true. cbv iota.
  unfold keep_image. rewrite staged_blur_black.
  assert (Ek : fpow (of_int 2) (fdiv (of_int 1) (of_int 3)) = Fin kappa3).
  { cbn [fpow fdiv of_int ideal ideal_libm xdiv].
    rewrite Reqb_false by lra. cbn [xpow]. rewrite Rltb_true by lra. reflexivity. }
  rewrite Ek.
  change (zrange 1) with [0%Z]. cbn [build_octaves]. rewrite Hs.
  change (3 + 3 =? 0)%Z with false. cbv iota.
  change (Z.to_nat (3 + 2)) with 5%nat.
  match goal with
  | |- context [blur_scales staged_blur 5 ?d ?k ?i ?c] =>
      pose proof (blur_scales_staged 5 d k 1%Z c ltac:(lia) ltac:(simpl; lia)) as Hl;
      pose proof (blur_scales_sigmas staged_blur kappa3 5 d i (16 / 10 / 2)) as Hg;
      destruct (blur_scales staged_blur 5 d k i c) as [ls sg]
  end.
  cbn [fst snd] in Hl, Hg. subst ls sg.
  rewrite (py_index_nth (black 8)) by (cbn [length map seq]; lia).
  rewrite (py_index_nth NaN) by (cbn [length map seq]; lia).
  cbn [rbind]. reflexivity.
Qed.

Ltac staged_values :=
  repeat match goal with
  | |- context [staged_value ?t ?r ?c] =>
      let v := eval vm_compute in (staged_value t r c) in
      change (staged_value t r c) with v
  end.

Lemma staged_peaks (th : R) :
  0 <= th < 20 ->
  peak_at (4, 4, 1)%Z staged_dog (Fin th)
  ++ peak_at (4, 4, 1)%Z (vneg staged_dog) (Fin th)
  = [(4, 4, 1)%Z].
Proof.
  intro H. unfold peak_at, vneg, staged_dog, staged_octave, np_diff, stack, staged.
  simpl. staged_values. xeval. reflexivity.
Qed.

Lemma staged_hessian :
  _hessian staged_dog (4, 4, 1)%Z
  = ((Fin (-4), Fin 0, Fin 0), (Fin 0, Fin (-4), Fin 0), (Fin 0, Fin 0, Fin (-4))).
Proof.
  unfold _hessian, staged_dog, staged_octave, np_diff, stack, staged, lit.
  simpl. staged_values. xeval. xfin.
Qed.

Lemma staged_jacobian (grad : volume xreal * volume xreal * volume xreal) :
  np_gradient staged_dog = Ok grad ->
  jacobian grad (4, 4, 1)%Z = (Fin 0, Fin 0, Fin 0).
Proof.
  unfold np_gradient. simpl. intro E. injection E as <-.
  unfold jacobian, vget, np_gradient1, staged_dog, staged_octave, np_diff, stack, staged.
  simpl. staged_values. xeval. xfin.
Qed.

Lemma kappa3_bounds : 1 < kappa3 < 2.
Proof.
  unfold kappa3. split; [ exact cube_root_2_gt_1 | ].
  rewrite <- (Rpower_1 2) at 2 by lra. apply Rpower_lt; lra.
Qed.

Lemma staged_localize (grad : volume xreal * volume xreal * volume xreal) :
  np_gradient staged_dog = Ok grad ->
  localize 4 staged_dog grad [true] [(4, 4, 1)%Z]
  = Ok ([(4, 4, 1)%Z], [(Fin 0, Fin 0, Fin 0)],
        [((Fin (-4), Fin 0, Fin 0), (Fin 0, Fin (-4), Fin 0), (Fin 0, Fin 0, Fin (-4)))],
        [(Fin 0, Fin 0, Fin 0)]).
Proof.
  intro E. rewrite localize_step.
  unfold iter_solve, iter_still_in, iter_wrong, iter_pos, iter_neg.
  change (vshape staged_dog) with (8, 8, 5)%Z.
  cbn [combine map fst snd andb mask_select].
  change (_inrange (4, 4, 1)%Z (8, 8, 5)%Z) with true.
  cbn [combine map fst snd andb mask_select].
  rewrite (staged_jacobian grad E), staged_hessian.
  unfold solve_all. cbn [length Nat.eqb combine rmap fst snd].
  rewrite dome_solve. cbn [rbind combine map fst snd].
  unfold wrong_position_pos, wrong_position_neg, lit. xeval.
  reflexivity.
Qed.

Lemma staged_contrast (self : SIFT xreal) :
  c_dog (params self) = Fin (4 / 100 / 3) ->
  n_scales (params self) = 3%Z ->
  contrast_filter self
    (interpolated (vget staged_dog (4, 4, 1)%Z) (Fin 0, Fin 0, Fin 0)
       (Fin 0, Fin 0, Fin 0))
  = true.
Proof.
  intros Hc Hs.
  unfold contrast_filter, contrast_threshold. rewrite Hc, Hs.
  unfold interpolated, vget, staged_dog, staged_octave, np_diff, stack, staged, lit.
  simpl. staged_values. xeval.
  apply Rltb_true. rewrite Rabs_right; lra.
Qed.

Lemma staged_edge (self : SIFT xreal) :
  c_edge (params self) = Fin 10 ->
  edge_filter self
    ((Fin (-4), Fin 0, Fin 0), (Fin 0, Fin (-4), Fin 0), (Fin 0, Fin 0, Fin (-4)))
  = true.
Proof.
  intro He.
  apply (edge_filter_spec _ _ 10 (-4) 0 (-4) He); [ lra | reflexivity | ].
  unfold det2, tr2. split; [ lra | ].
  rewrite Rabs_right; lra.
Qed.

(** The one keypoint of the staged octave: the voxel (4, 4, 1), at the
    position (2, 2) of the image. *)
Lemma staged_evaluate (self : SIFT xreal) :
  c_dog (params self) = Fin (4 / 100 / 3) ->
  n_scales (params self) = 3%Z ->
  c_edge (params self) = Fin 10 ->
  scalespace_sigmas self
  = Some [Fin (16 / 10 / 2)
          :: map (fun j => Fin (16 / 10 / 2 * kappa3 ^ S j)) (seq 0 5)] ->
  exists y x sg : R,
    evaluate_octave (peak_at (4, 4, 1)%Z) self (8, 8)%Z 0 staged_dog (Fin (1 / 2))
    = Ok [(Fin y, Fin x, 1%Z, Fin sg)]
    /\ y = 2 /\ x = 2 /\ sg = 16 / 10 / 2 * kappa3.
Proof.
  intros Hc Hs He Ht. pose proof kappa3_bounds as Hk.
  unfold evaluate_octave. cbv zeta. rewrite Hc.
  assert (Eth : fmul (Fin (4 / 100 / 3)) (lit 8 10) = Fin (4 / 100 / 3 * (8 / 10))).
  { unfold lit. xeval. reflexivity. }
  rewrite Eth, !staged_peaks by lra.
  destruct (np_gradient staged_dog) as [grad | e] eqn:Eg; [ | discriminate Eg ].
  cbn [rbind map]. rewrite (staged_localize grad Eg). cbn [rbind].
  unfold zip4. cbn [combine filter ex_off ex_key ex_J ex_H fst snd].
  rewrite dome_finished. cbn [filter ex_off ex_key ex_J ex_H fst snd].
  rewrite (staged_contrast self Hc Hs). cbn [filter ex_off ex_key ex_J ex_H fst snd].
  rewrite (staged_edge self He).
  rewrite Ht. cbn [attr rbind seq map].
  rewrite (py_index_nth [] _ 0) by (cbn [length]; lia).
  change (Z.to_nat 0) with 0%nat. cbn [nth rbind].
  rewrite (py_index_nth NaN _ 1) by (cbn [length]; lia).
  rewrite (py_index_nth NaN _ 0) by (cbn [length]; lia).
  change (Z.to_nat 0) with 0%nat. change (Z.to_nat 1) with 1%nat.
  cbn [nth rbind rmap]. unfold locate, ex_key, ex_off. cbn [fst snd].
  rewrite (py_index_nth NaN _ 1) by (cbn [length]; lia).
  change (Z.to_nat 1) with 1%nat.
  cbn [nth rbind of_int fadd fmul fdiv fpow ideal ideal_libm xadd xmul xdiv].
  rewrite (Reqb_false (16 / 10 / 2) 0) by lra.
  cbn [xpow].
  rewrite Rltb_true by (cbn [pow]; apply Rdiv_lt_0_compat; nra).
  rewrite Rpower_O by (cbn [pow]; apply Rdiv_lt_0_compat; nra).
  cbn [xmul pow]. unfold border_filter.
  cbn [filter of_int fadd fsub fltb ideal xadd xsub xopp xltb fst snd].
  xdecide. cbn [andb].
  do 3 eexists. split; [ reflexivity | ]. repeat split; lra.
Qed.

Lemma staged_found (self : SIFT xreal) (rest : list xreal) :
  c_dog (params self) = Fin (4 / 100 / 3) ->
  n_scales (params self) = 3%Z ->
  c_edge (params self) = Fin 10 ->
  deltas (params self) = Fin (1 / 2) :: rest ->
  scalespace_sigmas self
  = Some [Fin (16 / 10 / 2)
          :: map (fun j => Fin (16 / 10 / 2 * kappa3 ^ S j)) (seq 0 5)] ->
  exists y x sg : R,
    _find_localize_evaluate (peak_at (4, 4, 1)%Z) self [staged_dog] (8, 8)%Z
    = Ok ([(Fin y, Fin x)], [1%Z], [Fin sg], [0%Z])
    /\ y = 2 /\ x = 2 /\ sg = 16 / 10 / 2 * kappa3.
Proof.
  intros Hc Hs He Hd Ht.
  destruct (staged_evaluate self Hc Hs He Ht) as (y & x & sg & E & Hy & Hx & Hg).
  exists y, x, sg. split; [ | repeat split; assumption ].
  unfold _find_localize_evaluate. rewrite Hd.
  cbn [evaluate_octaves]. rewrite E. destruct rest; reflexivity.
Qed.

(** The patch of that keypoint reaches the border of the octave: the
    orientation stage rejects it. *)
Lemma staged_orientation (self : SIFT xreal) (rest : list xreal) (y x sg : R) :
  n_octaves (params self) = 1%Z ->
  lambda_ori (params self) = Fin (3 / 2) ->
  deltas (params self) = Fin (1 / 2) :: rest ->
  y = 2 -> x = 2 -> sg = 16 / 10 / 2 * kappa3 ->
  exists g,
    _compute_orientation no_histogram [(Fin y, Fin x)] [1%Z] [Fin sg] [0%Z]
      [staged_octave] self
    = (Ok [g], set_oriented [] [] [] [] [] self).
Proof.
  intros Ho Hl Hd Hy Hx Hg. pose proof kappa3_bounds as Hk.
  unfold _compute_orientation, bind, get_self, lift.
  rewrite Ho. change (zrange 1) with [0%Z].
  cbn [rfold map]. unfold orient_octave at 1.
  cbn [map Z.eqb mask_select combine].
  rewrite (py_index_nth staged_octave _ 0) by (cbn [length]; lia).
  change (Z.to_nat 0) with 0%nat. cbn [nth rbind].
  destruct (np_gradient staged_octave) as [grad | e] eqn:Eg; [ | discriminate Eg ].
  cbn [rbind]. rewrite Hd.
  rewrite (py_index_nth NaN _ 0) by (cbn [length]; lia).
  change (Z.to_nat 0) with 0%nat. cbn [nth rbind rfold].
  unfold orient_keypoint at 1. rewrite Hl.
  assert (Emin : fst (patch_min (fdiv (Fin y) (Fin (1 / 2)), fdiv (Fin x) (Fin (1 / 2)))
                        (fmul (fmul (of_int 3) (Fin (3 / 2)))
                              (fdiv (Fin sg) (Fin (1 / 2))))) = 0%Z).
  { unfold patch_min, maximum, isnan, lit. cbn [fst snd].
    cbn [of_int fadd fsub fmul fdiv fleb feqb ideal xadd xsub xopp xmul xdiv xleb xeqb].
    rewrite (Reqb_false (1 / 2) 0) by lra.
    cbn [xadd xsub xopp xmul xleb].
    rewrite (Reqb_false 2 0) by lra. cbn [xadd xleb].
    rewrite Rleb_true by (subst; lra).
    cbn [orb]. exact (astype_int_IZR 0 ltac:(lia)). }
  unfold patch_ok. cbn [fst snd] in *. rewrite Emin.
  change (0 <? 0)%Z with false. cbn [andb rbind].
  cbn [keypoint_indices keypoint_angles keypoint_octave keypoints_valid
       orientations_buf key_count list_set].
  exists grad. unfold take_indices. cbn [rmap rbind modify ret app mask_select].
  reflexivity.
Qed.

Lemma staged_descriptor (self : SIFT xreal) (rest : list xreal)
    (g : volume xreal * volume xreal * volume xreal) :
  n_octaves (params self) = 1%Z ->
  deltas (params self) = Fin (1 / 2) :: rest ->
  _compute_descriptor no_descriptor [g] (set_oriented [] [] [] [] [] self)
  = (Ok tt, set_descriptors [] (set_oriented [] [] [] [] [] self)).
Proof.
  intros Ho Hd.
  unfold _compute_descriptor, bind, get_self, lift, modify.
  cbn [scales set_oriented attr length repeat seq params set_descriptors].
  rewrite Ho. change (zrange 1) with [0%Z]. cbn [mfor].
  unfold bind, get_self, lift, ret.
  cbn [octaves positions scales sigmas orientations set_descriptors set_oriented attr
       params map mask_select combine mfor].
  rewrite (py_index_nth g _ 0) by (cbn [length]; lia).
  rewrite Hd. rewrite (py_index_nth NaN _ 0) by (cbn [length]; lia).
  reflexivity.
Qed.

Lemma round_int_2 : round_int (Fin 2) = 2%Z.
Proof.
  unfold round_int, lit.
  cbn [ffloor trunc fsub fltb fdiv of_int ideal xfloor xsub xopp xadd xdiv].
  rewrite (Int_part_IZR 2), xtrunc_IZR. cbn [xltb]. xdecide. reflexivity.
Qed.

Lemma default_thresholds (s0 : SIFT xreal) :
  __init__ default_args = Ok s0 ->
  c_dog (params s0) = Fin (4 / 100 / 3) /\ c_edge (params s0) = Fin 10.
Proof.
  intro E.
  destruct (init_c_dog default_args s0 (4 / 100 / 3) E (default_c_dog 3)) as (_ & _ & Hc).
  rewrite Hc. change (arg_n_scales default_args) with 3%Z.
  rewrite final_c_dog_3. split; [ reflexivity | exact (default_c_edge s0 E) ].
Qed.

(** [SIFT().detect_and_extract] on a black image of 8 by 8 pixels, with the
    stand-ins: it returns with one row in [keypoints] and no row in the six
    other arrays. *)
Lemma staged_run (s0 : SIFT xreal) :
  __init__ default_args = Ok s0 ->
  exists s' : SIFT xreal,
    detect_and_extract keep_image staged_blur (peak_at (4, 4, 1)%Z) no_histogram
      no_descriptor (black 8) s0
    = (Ok tt, s')
    /\ keypoints s' = Some [(2, 2)%Z]
    /\ positions s' = Some [] /\ scales s' = Some [] /\ sigmas s' = Some []
    /\ orientations s' = Some [] /\ octaves s' = Some []
    /\ descriptors s' = Some [].
Proof.
  intro E.
  destruct (default_params s0 E) as (Hu & Ho & Hs & Hm & _ & Hl & rest & Hd & _).
  destruct (default_thresholds s0 E) as [Hc He].
  assert (En : _number_of_octaves s0 (n_octaves (params s0)) (ishape (black 8))
               = Ok 1%Z).
  { exact (default_octaves s0 8 1 Hu Ho ltac:(lia) ltac:(simpl; lia)). }
  set (s1 := set_params (set_n_octaves 1 (params s0)) s0).
  set (s2 := set_scalespace_sigmas
               [Fin (16 / 10 / 2)
                :: map (fun j => Fin (16 / 10 / 2 * kappa3 ^ S j)) (seq 0 5)] s1).
  assert (Ec : _create_scalespace keep_image staged_blur (black 8) s1
               = (Ok [staged_octave], s2)).
  { apply staged_scalespace; [ exact Hu | reflexivity | exact Hs | exact Hm ]. }
  destruct (staged_found s2 rest Hc Hs He Hd eq_refl)
    as (y & x & sg & Ef & Hy & Hx & Hg).
  destruct (staged_orientation s2 rest y x sg eq_refl Hl Hd Hy Hx Hg) as [g Eo].
  pose proof (staged_descriptor s2 rest g eq_refl Hd) as Ed.
  eexists. split.
  - unfold detect_and_extract. unfold bind at 1.
    unfold assign_n_octaves, bind at 1, get_self at 1, bind at 1, lift at 1.
    rewrite En. unfold modify at 1. fold s1.
    unfold bind at 1. rewrite Ec.
    unfold bind at 1, get_self at 1. unfold bind at 1, lift at 1.
    change (ishape (black 8)) with (8, 8)%Z.
    change (map np_diff [staged_octave]) with [staged_dog].
    rewrite Ef. unfold bind at 1. rewrite Eo.
    unfold bind at 1. rewrite Ed.
    cbn [map fst snd modify]. subst y x. rewrite round_int_2. reflexivity.
  - repeat split.
Qed.

(** On that run [keypoints] has one row and [positions] none. *)
Lemma keypoints_skip_the_orientation_stage_witness :
  exists s0 s' : SIFT xreal,
    __init__ default_args = Ok s0
    /\ detect_and_extract keep_image staged_blur (peak_at (4, 4, 1)%Z) no_histogram
         no_descriptor (black 8) s0
       = (Ok tt, s')
    /\ keypoints s' = Some [(2, 2)%Z]
    /\ positions s' = Some []
    /\ exists (self : SIFT xreal) (gs : list (volume xreal)) (P : list (xreal * xreal))
              (S : list Z) (G : list xreal) (octs : list Z)
              (outs : list (option (list xreal))),
         _find_localize_evaluate (peak_at (4, 4, 1)%Z) self (map np_diff gs)
           (ishape (black 8))
         = Ok (P, S, G, octs)
         /\ Forall2 (outcome_rel no_histogram self gs)
                    (combine (combine (combine P S) G) octs) outs
         /\ keypoints s'
            = Some (map (fun k => (round_int (fst k), round_int (snd k))) P)
         /\ positions s' = Some (firsts outs P ++ clones outs P)
         /\ length P = length outs
         /\ length (firsts outs P ++ clones outs P)
            = (length (filter is_kept outs) + length (flat_map extra_angles outs))%nat.
Proof.
  destruct default_instance as (s0 & E & _).
  destruct (staged_run s0 E) as (s' & Er & Hk & Hp & _).
  exists s0, s'.
  split; [ exact E | ]. split; [ exact Er | ].
  split; [ exact Hk | ]. split; [ exact Hp | ].
  exact (keypoints_skip_the_orientation_stage keep_image staged_blur
           (peak_at (4, 4, 1)%Z) no_histogram no_descriptor (black 8) s0 s'
           (or_intror Er)).
Defined.

